(** * crequests: the connection state machine, the auth literal and the
    session's reuse decision

    A shallow embedding of [src/crequests/auth.cpp],
    [src/crequests/connection.cpp] and [src/crequests/session.cpp].

    - C++ strings and stream buffers are [string]s (sequences of [ascii]
      characters); [size_t] values are [N].
    - A function that throws returns a [result].
    - Every method of [conn_impl_t] is a function from the connection record
      to the connection record.  The operations a method issues on its
      collaborators (resolver, stream, timers, promise, user callbacks) are
      appended, in program order, to the field [ops]. *)

From Stdlib Require Import Bool List String Ascii NArith ZArith Lia.
Import ListNotations.

Local Open Scope string_scope.
Local Open Scope N_scope.

(** A C++ call that either returns or throws. *)
Inductive result (A : Type) : Type :=
| Ok (a : A)
| Throw (what : string).
Arguments Ok {A} a.
Arguments Throw {A} what.

Definition result_map {A B : Type} (f : A -> B) (r : result A) : result B :=
  match r with
  | Ok a => Ok (f a)
  | Throw what => Throw what
  end.

(** [string_t::substr(pos)]: the suffix that starts at [pos]. *)
Definition substr_from (pos : nat) (str : string) : string :=
  substring pos (String.length str - pos) str.

(** [string_t::size()] as a [size_t]. *)
Definition size (buf : string) : N := N.of_nat (String.length buf).

(** * auth.cpp *)

Module auth_t.

(** [auth_t] is a pair of a [login_t] and a [password_t]. *)
Record t : Type := make { first : string; second : string }.

(** [auth_t::from_string], auth.cpp:7-17. *)
Definition from_string (str : string) : result t :=
  match index 0 ":" str with
  | Some ind => Ok (make (substring 0 ind str) (substr_from (ind + 1) str))
  | None => Throw ("unexpected auth_t str: " ++ str)
  end.

(** [auth_t::to_string], auth.cpp:19-21. *)
Definition to_string (a : t) : string :=
  first a ++ ":" ++ second a.

End auth_t.


(** * connection.cpp: data *)

(** Modelled from the spec: [error_code_t] (its declaration is not part of
    the sources): the states of a connection, with the enumerators that
    [conn_impl_t::in_final_state] switches over. *)
Inductive error_code_t : Type :=
| INIT | RESOLVE | CONNECT | HANDSHAKE | WRITE | READ_STATUS | READ_HEADERS
| READ_CONTENT_LENGTH | READ_CHUNK_HEADER | READ_CHUNK_DATA | READ_UNTIL_EOF
| SUCCESS
| RESOLVE_ERROR | CONNECT_ERROR | HANDSHAKE_ERROR | WRITE_ERROR
| READ_STATUS_ERROR | READ_STATUS_DATA_ERROR | READ_HEADERS_ERROR
| READ_CONTENT_LENGTH_ERROR | READ_CHUNK_HEADER_ERROR | READ_CHUNK_DATA_ERROR
| READ_UNTIL_EOF_ERROR
| REDIRECT_EXHAUSTED | REDIRECT_ERROR | TIMEOUT | EXPIRED.

Scheme Equality for error_code_t.

(** [ec_t], the error code of Boost.Asio.  The code names six error constants
    and tests [ec.value()] against the number of [stream_truncated]; every
    other error is [other_error], which records whether its number is that of
    [stream_truncated].  The named constants have numbers of their own. *)
Inductive ec_t : Type :=
| no_error                 (* ec_t() *)
| eof
| connection_reset
| connection_aborted
| broken_pipe
| stream_truncated
| operation_aborted
| other_error (value_is_stream_truncated : bool).

Scheme Equality for ec_t.

(** [if (ec)] *)
Definition ec_bool (ec : ec_t) : bool := negb (ec_t_beq ec no_error).

(** [ec.value() == boost::asio::ssl::error::stream_truncated] *)
Definition value_is_stream_truncated (ec : ec_t) : bool :=
  match ec with
  | stream_truncated => true
  | other_error v => v
  | _ => false
  end.

(** connection.cpp:75-83 *)
Definition is_socket_closed (ec : ec_t) : bool :=
  ec_t_beq ec eof ||
  ec_t_beq ec connection_reset ||
  ec_t_beq ec connection_aborted ||
  ec_t_beq ec broken_pipe ||
  ec_t_beq ec stream_truncated.

(** connection.cpp:85-90 *)
Definition is_eof (ec : ec_t) : bool :=
  ec_bool ec && (ec_t_beq ec eof || value_is_stream_truncated ec).

(** Modelled from the spec: [uri_t] (its declaration is not part of the
    sources), the target URI with its protocol, domain, port, path and
    query. *)
Record uri_t : Type := make_uri {
  protocol : string;
  domain : string;
  port : string;
  path : string;
  query : string
}.

(** Modelled from the spec: [cookie_t] (its declaration is not part of the
    sources): the text of a [Set-Cookie] value with the origin domain and
    path it is stamped with. *)
Record cookie_t : Type := make_cookie {
  cookie_text : string;
  origin_domain : string;
  origin_path : string
}.

(** Modelled from the spec: [headers_t] (its declaration is not part of the
    sources).  A header block is the sequence of its field/value pairs;
    [count] counts the pairs of a field, [contains] asks for a pair of the
    field whose value holds the text, [at] reads the first value of a
    field. *)
Definition headers_t : Type := list (string * string).

Definition headers_insert (h : headers_t) (field value : string) : headers_t :=
  (h ++ [(field, value)])%list.

Definition headers_count (h : headers_t) (field : string) : N :=
  N.of_nat (List.length (filter (fun kv => String.eqb (fst kv) field) h)).

Definition headers_contains (h : headers_t) (field text : string) : bool :=
  existsb (fun kv => String.eqb (fst kv) field &&
                     match index 0 text (snd kv) with
                     | Some _ => true
                     | None => false
                     end) h.

Definition headers_at (h : headers_t) (field : string) : string :=
  match find (fun kv => String.eqb (fst kv) field) h with
  | Some kv => snd kv
  | None => ""
  end.

(** Modelled from the spec: [tolower] (utils.h is not part of the sources),
    for the comparison of a header field with [Set-Cookie] that ignores
    case: ASCII capitals become small letters. *)
Definition tolower_char (c : ascii) : ascii :=
  let n := nat_of_ascii c in
  if (Nat.leb 65 n && Nat.leb n 90)%bool then ascii_of_nat (n + 32) else c.

Fixpoint tolower (s : string) : string :=
  match s with
  | EmptyString => EmptyString
  | String c s' => String (tolower_char c) (tolower s')
  end.

(** Modelled from the spec: [error_t] (its declaration is not part of the
    sources), an error kind with a message.
    [error_t{}] is [None]; [error_t(code, message)] is [Some (code, message)].
    Its conversion to [bool] says that an error is present: SUCCESS is a
    terminal that is no error. *)
Definition error_t : Type := option (error_code_t * string).

Definition error_bool (e : error_t) : bool :=
  match e with
  | Some (code, _) => negb (error_code_t_beq code SUCCESS)
  | None => false
  end.

Module request_t.

(** Modelled from the spec: [request_t] (request.h is not part of the
    sources), with the members that connection.cpp and session.cpp read.  A
    callback is present or absent. *)
Record t : Type := make {
  uri : uri_t;
  auth : option auth_t.t;
  cookies : list cookie_t;
  redirect : bool;
  redirect_count : N;
  keep_alive : bool;
  cache_redirects : bool;
  throw_on_error : bool;
  timeout : N;
  store_timeout : N;
  final_callback : bool;
  body_callback : bool
}.

Definition set_uri (v : uri_t) (r : t) : t :=
  make v (auth r) (cookies r) (redirect r) (redirect_count r) (keep_alive r)
       (cache_redirects r) (throw_on_error r) (timeout r) (store_timeout r)
       (final_callback r) (body_callback r).

Definition set_auth (v : option auth_t.t) (r : t) : t :=
  make (uri r) v (cookies r) (redirect r) (redirect_count r) (keep_alive r)
       (cache_redirects r) (throw_on_error r) (timeout r) (store_timeout r)
       (final_callback r) (body_callback r).

Definition set_cookies (v : list cookie_t) (r : t) : t :=
  make (uri r) (auth r) v (redirect r) (redirect_count r) (keep_alive r)
       (cache_redirects r) (throw_on_error r) (timeout r) (store_timeout r)
       (final_callback r) (body_callback r).

End request_t.

Module response_t.

#[local] Unset Elimination Schemes.

(** Modelled from the spec: [response_t] (response.h is not part of the
    sources); [redirects] is the chain of earlier responses. *)
Inductive t : Type := make {
  request : request_t.t;
  http_major : N;
  http_minor : N;
  status_code : N;
  status_message : string;
  headers : headers_t;
  cookies : list cookie_t;
  raw : string;
  error : error_t;
  redirect_count : N;
  redirects : list t
}.

#[local] Set Elimination Schemes.

(** Modelled from the spec: [response_t{request}] (response.h is not part
    of the sources): a response that wraps the request, with nothing
    received, no error, the redirect counter at zero and an empty chain. *)
Definition of_request (r : request_t.t) : t :=
  make r 0 0 0 "" [] [] "" None 0 [].

Definition set_status (major minor code : N) (message : string) (r : t) : t :=
  make (request r) major minor code message (headers r) (cookies r) (raw r)
       (error r) (redirect_count r) (redirects r).

Definition set_headers (v : headers_t) (r : t) : t :=
  make (request r) (http_major r) (http_minor r) (status_code r)
       (status_message r) v (cookies r) (raw r) (error r) (redirect_count r)
       (redirects r).

Definition set_cookies (v : list cookie_t) (r : t) : t :=
  make (request r) (http_major r) (http_minor r) (status_code r)
       (status_message r) (headers r) v (raw r) (error r) (redirect_count r)
       (redirects r).

Definition set_raw (v : string) (r : t) : t :=
  make (request r) (http_major r) (http_minor r) (status_code r)
       (status_message r) (headers r) (cookies r) v (error r)
       (redirect_count r) (redirects r).

Definition set_error (v : error_t) (r : t) : t :=
  make (request r) (http_major r) (http_minor r) (status_code r)
       (status_message r) (headers r) (cookies r) (raw r) v
       (redirect_count r) (redirects r).

Definition set_redirect_count (v : N) (r : t) : t :=
  make (request r) (http_major r) (http_minor r) (status_code r)
       (status_message r) (headers r) (cookies r) (raw r) (error r) v
       (redirects r).

Definition set_redirects (v : list t) (r : t) : t :=
  make (request r) (http_major r) (http_minor r) (status_code r)
       (status_message r) (headers r) (cookies r) (raw r) (error r)
       (redirect_count r) v.

End response_t.

(** ** The parser, the reactor and the connection record *)

(** Modelled from the spec: [parser_t] (parser.h is not part of the sources),
    a black box that is fed the response buffer.  What [parser->execute] does
    during one call is the sequence of callbacks it fires and the number of
    characters it reports as parsed. *)
Inductive parser_cb : Type :=
| cb_status (at_ : string) (major minor code : N)
| cb_header_field (at_ : string)
| cb_header_value (at_ : string)
| cb_headers_complete (content_len : Z)
| cb_body (at_ : string)
| cb_chunk_header (length : N).

Record parse_t : Type := make_parse {
  callbacks : list parser_cb;
  nparsed : N
}.

(** The completion handlers that the connection binds to its asynchronous
    operations. *)
Inductive handler_t : Type :=
| h_on_resolve | h_on_connect | h_on_handshake | h_on_write
| h_on_read_status | h_on_read_headers | h_on_read_content_length
| h_on_read_chunk_header | h_on_read_chunk_data | h_on_read_until_eof
| h_on_timeout | h_on_dispose_timer.

Scheme Equality for handler_t.

(** A completion handler that is called directly, in tail position, by
    another method: [on_read_chunk_header(ec_t(), 0)] in
    [read_chunk_header] and [on_read_chunk_data(ec_t(), content_length)] in
    [on_read_chunk_header]. *)
Inductive call_t : Type :=
| call_on_read_chunk_header (ec : ec_t) (length : N)
| call_on_read_chunk_data (ec : ec_t) (length : N).

(** The value a promise is fulfilled with. *)
Inductive outcome_t : Type :=
| value (r : response_t.t)
| exception (e : error_t).

(** Operations on the collaborators of a connection, as recorded in [ops].
    [op_restart] and [op_redirect] mark the entry of [restart] and the
    rewriting of the request URI in [perform_redirect]. *)
Inductive op_t : Type :=
| op_resolver_async_resolve (domain port : string)
| op_resolver_cancel
| op_stream_new
| op_stream_async_connect
| op_stream_set_option_keep_alive
| op_stream_async_handshake
| op_stream_async_write
| op_stream_async_read_until (delim : string)
| op_stream_async_read (transfer_at_least : N)
| op_stream_cancel
| op_stream_close
| op_parser_new
| op_timeout_timer_async_wait (seconds : N)
| op_timeout_timer_cancel
| op_dispose_timer_async_wait (seconds : N)
| op_final_callback (r : response_t.t)
| op_body_callback (at_ : option string) (length : N) (e : error_t)
| op_promise_set_value (r : response_t.t)
| op_promise_set_exception (e : error_t)
| op_restart
| op_redirect (location : string).

(** The members of [conn_impl_t] (connection.cpp:374-395), followed by the
    reactor's side: [pending], the handlers of the asynchronous operations
    that have not completed yet, [calling], the handler a method has just
    called in tail position, and [ops].  Of the stream (stream.h is not part
    of the sources) the record keeps whether it is open; the resolver, the
    timers and the parser are present through [pending] and [ops]. *)
Record conn_impl_t : Type := make_conn {
  stream_is_open : bool;
  promise : option outcome_t;
  response : response_t.t;
  m_is_reused : bool;
  state : error_code_t;
  request_buf : string;
  response_buf : string;
  header_field : string;
  content_length : N;
  raw : string;
  headers : headers_t;
  pending : list handler_t;
  calling : option call_t;
  ops : list op_t
}.

Definition set_stream_is_open (v : bool) (c : conn_impl_t) : conn_impl_t :=
  make_conn v (promise c) (response c) (m_is_reused c) (state c)
    (request_buf c) (response_buf c) (header_field c) (content_length c)
    (raw c) (headers c) (pending c) (calling c) (ops c).

Definition set_promise (v : option outcome_t) (c : conn_impl_t) : conn_impl_t :=
  make_conn (stream_is_open c) v (response c) (m_is_reused c) (state c)
    (request_buf c) (response_buf c) (header_field c) (content_length c)
    (raw c) (headers c) (pending c) (calling c) (ops c).

Definition set_response (v : response_t.t) (c : conn_impl_t) : conn_impl_t :=
  make_conn (stream_is_open c) (promise c) v (m_is_reused c) (state c)
    (request_buf c) (response_buf c) (header_field c) (content_length c)
    (raw c) (headers c) (pending c) (calling c) (ops c).

Definition set_m_is_reused (v : bool) (c : conn_impl_t) : conn_impl_t :=
  make_conn (stream_is_open c) (promise c) (response c) v (state c)
    (request_buf c) (response_buf c) (header_field c) (content_length c)
    (raw c) (headers c) (pending c) (calling c) (ops c).

Definition assign_state (v : error_code_t) (c : conn_impl_t) : conn_impl_t :=
  make_conn (stream_is_open c) (promise c) (response c) (m_is_reused c) v
    (request_buf c) (response_buf c) (header_field c) (content_length c)
    (raw c) (headers c) (pending c) (calling c) (ops c).

Definition set_request_buf (v : string) (c : conn_impl_t) : conn_impl_t :=
  make_conn (stream_is_open c) (promise c) (response c) (m_is_reused c)
    (state c) v (response_buf c) (header_field c) (content_length c)
    (raw c) (headers c) (pending c) (calling c) (ops c).

Definition set_response_buf (v : string) (c : conn_impl_t) : conn_impl_t :=
  make_conn (stream_is_open c) (promise c) (response c) (m_is_reused c)
    (state c) (request_buf c) v (header_field c) (content_length c)
    (raw c) (headers c) (pending c) (calling c) (ops c).

Definition set_header_field (v : string) (c : conn_impl_t) : conn_impl_t :=
  make_conn (stream_is_open c) (promise c) (response c) (m_is_reused c)
    (state c) (request_buf c) (response_buf c) v (content_length c)
    (raw c) (headers c) (pending c) (calling c) (ops c).

Definition set_content_length (v : N) (c : conn_impl_t) : conn_impl_t :=
  make_conn (stream_is_open c) (promise c) (response c) (m_is_reused c)
    (state c) (request_buf c) (response_buf c) (header_field c) v
    (raw c) (headers c) (pending c) (calling c) (ops c).

Definition set_raw (v : string) (c : conn_impl_t) : conn_impl_t :=
  make_conn (stream_is_open c) (promise c) (response c) (m_is_reused c)
    (state c) (request_buf c) (response_buf c) (header_field c)
    (content_length c) v (headers c) (pending c) (calling c) (ops c).

Definition set_headers (v : headers_t) (c : conn_impl_t) : conn_impl_t :=
  make_conn (stream_is_open c) (promise c) (response c) (m_is_reused c)
    (state c) (request_buf c) (response_buf c) (header_field c)
    (content_length c) (raw c) v (pending c) (calling c) (ops c).

Definition set_pending (v : list handler_t) (c : conn_impl_t) : conn_impl_t :=
  make_conn (stream_is_open c) (promise c) (response c) (m_is_reused c)
    (state c) (request_buf c) (response_buf c) (header_field c)
    (content_length c) (raw c) (headers c) v (calling c) (ops c).

Definition set_calling (v : option call_t) (c : conn_impl_t) : conn_impl_t :=
  make_conn (stream_is_open c) (promise c) (response c) (m_is_reused c)
    (state c) (request_buf c) (response_buf c) (header_field c)
    (content_length c) (raw c) (headers c) (pending c) v (ops c).

Definition set_ops (v : list op_t) (c : conn_impl_t) : conn_impl_t :=
  make_conn (stream_is_open c) (promise c) (response c) (m_is_reused c)
    (state c) (request_buf c) (response_buf c) (header_field c)
    (content_length c) (raw c) (headers c) (pending c) (calling c) v.

(** The request of the connection: [response.request()]. *)
Definition request (c : conn_impl_t) : request_t.t :=
  response_t.request (response c).

(** Record an operation. *)
Definition emit (o : op_t) (c : conn_impl_t) : conn_impl_t :=
  set_ops (ops c ++ [o])%list c.

(** Start an asynchronous operation whose completion calls [h]. *)
Definition async (o : op_t) (h : handler_t) (c : conn_impl_t) : conn_impl_t :=
  set_pending (h :: pending c) (emit o c).

(** [stream.cancel()], [stream.close()], [stream = stream_t(...)] and
    [delete parser; parser = new parser_t(...)]. *)
Definition stream_cancel (c : conn_impl_t) : conn_impl_t :=
  emit op_stream_cancel c.

Definition stream_close (c : conn_impl_t) : conn_impl_t :=
  set_stream_is_open false (emit op_stream_close c).

Definition stream_new (c : conn_impl_t) : conn_impl_t :=
  set_stream_is_open false (emit op_stream_new c).

Definition parser_new (c : conn_impl_t) : conn_impl_t :=
  emit op_parser_new c.

(** [streambuf_t::consume(n)]: drop [n] characters, or all of them. *)
Definition consume (n : N) (buf : string) : string :=
  substr_from (N.to_nat n) buf.

(** [size_t] arithmetic, 64 bits wide. *)
Definition size_max : N := 2 ^ 64.

Definition size_sub (a b : N) : N := (a + size_max - b mod size_max) mod size_max.

Definition size_of_ssize (z : Z) : N := Z.to_N (z mod Z.of_N size_max).

(** ** The helpers of the anonymous namespace, connection.cpp:55-103 *)

Definition CR : ascii := ascii_of_nat 13.
Definition LF : ascii := ascii_of_nat 10.
Definition CRLF : string := String CR (String LF EmptyString).

(** connection.cpp:63-73: the position of the first CR that an LF follows. *)
Fixpoint peek_crlf (sbuf : string) : option nat :=
  match sbuf with
  | EmptyString => None
  | String c rest =>
      if (Ascii.eqb c CR &&
          match rest with
          | String d _ => Ascii.eqb d LF
          | EmptyString => false
          end)%bool
      then Some 0%nat
      else option_map S (peek_crlf rest)
  end.

(** connection.cpp:92-97 *)
Definition is_redirect_code (code : N) : bool :=
  (code =? 301) || (code =? 302) || (code =? 303).

(** connection.cpp:99-103 *)
Definition is_redirect_exhausted (response : response_t.t) : bool :=
  request_t.redirect_count (response_t.request response) <=?
  response_t.redirect_count response.

(** ** Collaborators outside the sources *)

(** Functions of the repository that connection.cpp and session.cpp call and
    whose definitions are not part of the sources.  They are parameters of
    the development.  [prepare_redirect_count] is the one fact assumed of
    them: preparing a request leaves its redirect limit alone. *)
Class collaborators : Type := {
  uri_from_string : string -> uri_t;
  prepare : request_t.t -> request_t.t;
  prepare_redirect_count :
    forall r, request_t.redirect_count (prepare r) = request_t.redirect_count r;
  make_request : request_t.t -> string;
  cookie_from_string : string -> cookie_t;
  cookies_update : list cookie_t -> list cookie_t -> list cookie_t;
  redirects_find : list response_t.t -> request_t.t -> option response_t.t;
  ec_message : ec_t -> string
}.

(** * connection.cpp: the methods of [conn_impl_t] *)

Section Connection.

Context {collab : collaborators}.

(** connection.cpp:398-419 *)
Definition conn_impl_new (request_ : request_t.t) : conn_impl_t :=
  {| stream_is_open := false;
     promise := None;
     response := response_t.of_request request_;
     m_is_reused := false;
     state := INIT;
     request_buf := "";
     response_buf := "";
     header_field := "";
     content_length := 0;
     raw := "";
     headers := [];
     pending := [];
     calling := None;
     ops := [] |}.

(** connection.cpp:421-444.  [stream] is the stream moved out of the
    earlier connection and [redirects] the chain of the response its
    future holds. *)
Definition conn_impl_reuse (request_ : request_t.t) (stream : bool)
    (redirects : list response_t.t) : conn_impl_t :=
  {| stream_is_open := stream;
     promise := None;
     response :=
       response_t.set_redirects redirects (response_t.of_request request_);
     m_is_reused := true;
     state := INIT;
     request_buf := "";
     response_buf := "";
     header_field := "";
     content_length := 0;
     raw := "";
     headers := [];
     pending := [];
     calling := None;
     ops := [] |}.

(** connection.cpp:905-911 *)
Definition is_expired (c : conn_impl_t) : bool :=
  error_code_t_beq (state c) EXPIRED.

Definition is_reused (c : conn_impl_t) : bool := m_is_reused c.

(** connection.cpp:1045-1080 *)
Definition in_final_state (c : conn_impl_t) : bool :=
  match state c with
  | RESOLVE_ERROR
  | CONNECT_ERROR
  | HANDSHAKE_ERROR
  | WRITE_ERROR
  | READ_STATUS_ERROR
  | READ_STATUS_DATA_ERROR
  | READ_HEADERS_ERROR
  | READ_CONTENT_LENGTH_ERROR
  | READ_CHUNK_HEADER_ERROR
  | READ_CHUNK_DATA_ERROR
  | READ_UNTIL_EOF_ERROR
  | REDIRECT_EXHAUSTED
  | REDIRECT_ERROR
  | TIMEOUT
  | EXPIRED
  | SUCCESS => true
  | WRITE
  | READ_STATUS
  | READ_HEADERS
  | READ_CONTENT_LENGTH
  | READ_CHUNK_HEADER
  | READ_CHUNK_DATA
  | READ_UNTIL_EOF
  | INIT
  | RESOLVE
  | CONNECT
  | HANDSHAKE => false
  end.

(** connection.cpp:1040-1043.  The guard reads the member [state], not the
    argument [state_]. *)
Definition set_state (c : conn_impl_t) (state_ : error_code_t) : conn_impl_t :=
  if negb (in_final_state c) || error_code_t_beq (state c) EXPIRED
  then assign_state state_ c
  else c.

(** ** The parser callbacks, connection.cpp:468-539 *)

Definition status_fn (c : conn_impl_t) (at_ : string) (major minor code : N)
  : conn_impl_t :=
  set_response (response_t.set_status major minor code at_ (response c)) c.

Definition header_field_fn (c : conn_impl_t) (at_ : string) : conn_impl_t :=
  set_header_field at_ c.

Definition header_value_fn (c : conn_impl_t) (at_ : string) : conn_impl_t :=
  let header_value := at_ in
  let c :=
    if String.eqb (tolower (header_field c)) "set-cookie" then
      let cookie := cookie_from_string header_value in
      let cookie :=
        make_cookie (cookie_text cookie)
                    (domain (request_t.uri (request c)))
                    (path (request_t.uri (request c))) in
      set_response
        (response_t.set_cookies
           (response_t.cookies (response c) ++ [cookie])%list (response c)) c
    else c in
  let c := set_headers (headers_insert (headers c) (header_field c) header_value) c in
  set_header_field "" c.

Definition headers_complete_fn (c : conn_impl_t) (content_len : Z) : conn_impl_t :=
  let c := set_content_length (size_of_ssize content_len) c in
  (* response.headers(std::move(headers)) *)
  set_headers [] (set_response (response_t.set_headers (headers c) (response c)) c).

Definition body_fn (c : conn_impl_t) (at_ : string) : conn_impl_t :=
  if request_t.body_callback (request c)
  then emit (op_body_callback (Some at_) (size at_) None) c
  else set_raw (raw c ++ at_) c.

Definition chunk_header_fn (c : conn_impl_t) (length : N) : conn_impl_t :=
  set_content_length (length mod size_max) c.

Definition run_callback (c : conn_impl_t) (cb : parser_cb) : conn_impl_t :=
  match cb with
  | cb_status at_ major minor code => status_fn c at_ major minor code
  | cb_header_field at_ => header_field_fn c at_
  | cb_header_value at_ => header_value_fn c at_
  | cb_headers_complete content_len => headers_complete_fn c content_len
  | cb_body at_ => body_fn c at_
  | cb_chunk_header length => chunk_header_fn c length
  end.

(** connection.cpp:459-466.  [p] is what the parser does when it is fed
    the response buffer. *)
Definition execute_parser (c : conn_impl_t) (p : parse_t) : conn_impl_t * bool :=
  let c := fold_left run_callback (callbacks p) c in
  let c := set_response_buf (consume (nparsed p) (response_buf c)) c in
  (c, 0 <? nparsed p).

(** connection.cpp:468-472: the scratch members are reset. *)
Definition prepare_parser (c : conn_impl_t) : conn_impl_t :=
  let c := set_raw "" c in
  let c := set_header_field "" c in
  let c := set_content_length 0 c in
  set_headers [] c.

(** ** Timers, connection.cpp:578-606 *)

Definition setup_timeout (c : conn_impl_t) : conn_impl_t :=
  async (op_timeout_timer_async_wait (request_t.timeout (request c)))
        h_on_timeout c.

Definition setup_dispose_timer (c : conn_impl_t) : conn_impl_t :=
  async (op_dispose_timer_async_wait (request_t.store_timeout (request c)))
        h_on_dispose_timer c.

(** ** Finalization, connection.cpp:913-939 *)

(** [promise.set_value] and [promise.set_exception].  A promise takes one
    value; the call is recorded in [ops] also when the promise holds a value
    already, where the call in C++ throws. *)
Definition promise_set (v : outcome_t) (c : conn_impl_t) : conn_impl_t :=
  match promise c with
  | None => set_promise (Some v) c
  | Some _ => c
  end.

Definition promise_set_value (r : response_t.t) (c : conn_impl_t) : conn_impl_t :=
  promise_set (value r) (emit (op_promise_set_value r) c).

Definition promise_set_exception (e : error_t) (c : conn_impl_t) : conn_impl_t :=
  promise_set (exception e) (emit (op_promise_set_exception e) c).

Definition end_ (c : conn_impl_t) : conn_impl_t :=
  let c := emit op_resolver_cancel c in
  let c := emit op_timeout_timer_cancel c in
  let c :=
    if request_t.final_callback (request c)
    then emit (op_final_callback (response c)) c
    else c in
  let c := setup_dispose_timer c in
  let c :=
    if request_t.keep_alive (request c) then
      if headers_contains (response_t.headers (response c)) "Connection" "close"
      then stream_close (stream_cancel c)
      else c
    else stream_cancel c in
  (* response.raw(std::move(raw)) *)
  let c := set_raw "" (set_response (response_t.set_raw (raw c) (response c)) c) in
  let c :=
    if request_t.body_callback (request c)
    then emit (op_body_callback None 0 (response_t.error (response c))) c
    else c in
  if error_bool (response_t.error (response c)) &&
     request_t.throw_on_error (request c)
  then promise_set_exception (response_t.error (response c)) c
  else promise_set_value (response c) c.

(** ** State changes, connection.cpp:993-1038 *)

Definition set_error (c : conn_impl_t) (new_state : error_code_t) (msg : string)
  : conn_impl_t :=
  if in_final_state c then c
  else
    let c := set_state c new_state in
    let c := set_response (response_t.set_error (Some (new_state, msg)) (response c)) c in
    end_ c.

Definition set_error_ec (c : conn_impl_t) (new_state : error_code_t) (ec : ec_t)
  : conn_impl_t :=
  if ec_t_beq ec operation_aborted then c
  else set_error c new_state (ec_message ec).

Definition set_timeout (c : conn_impl_t) : conn_impl_t :=
  if in_final_state c then
    if negb (request_t.keep_alive (request c)) then stream_close c else c
  else
    let c := set_state c TIMEOUT in
    let c := set_response (response_t.set_error (Some (state c, "timeout")) (response c)) c in
    end_ c.

Definition set_dispose (c : conn_impl_t) : conn_impl_t :=
  set_state c EXPIRED.

Definition on_timeout (c : conn_impl_t) (ec : ec_t) : conn_impl_t :=
  if negb (ec_bool ec) then set_timeout c else c.

Definition on_dispose_timer (c : conn_impl_t) (ec : ec_t) : conn_impl_t :=
  if negb (ec_bool ec) then set_dispose c else c.

(** ** Issuing the protocol steps *)

(** connection.cpp:608-620 *)
Definition resolve (c : conn_impl_t) : conn_impl_t :=
  let c := set_state c RESOLVE in
  async (op_resolver_async_resolve (domain (request_t.uri (request c)))
                                   (port (request_t.uri (request c))))
        h_on_resolve c.

(** connection.cpp:632-640 *)
Definition connect (c : conn_impl_t) : conn_impl_t :=
  let c := set_state c CONNECT in
  async op_stream_async_connect h_on_connect c.

(** connection.cpp:654-661 *)
Definition handshake (c : conn_impl_t) : conn_impl_t :=
  let c := set_state c HANDSHAKE in
  async op_stream_async_handshake h_on_handshake c.

(** connection.cpp:672-683 *)
Definition write (c : conn_impl_t) : conn_impl_t :=
  let c := set_request_buf (request_buf c ++ make_request (request c)) c in
  let c := set_state c WRITE in
  async op_stream_async_write h_on_write c.

(** connection.cpp:699-706 *)
Definition read_status (c : conn_impl_t) : conn_impl_t :=
  let c := set_state c READ_STATUS in
  async (op_stream_async_read_until CRLF) h_on_read_status c.

(** connection.cpp:727-734 *)
Definition read_headers (c : conn_impl_t) : conn_impl_t :=
  let c := set_state c READ_HEADERS in
  async (op_stream_async_read_until (CRLF ++ CRLF)) h_on_read_headers c.

(** connection.cpp:762-774 *)
Definition read_content_length (c : conn_impl_t) : conn_impl_t :=
  let c := set_state c READ_CONTENT_LENGTH in
  let n :=
    if content_length c <? size (response_buf c)
    then 0
    else size_sub (content_length c) (size (response_buf c)) in
  async (op_stream_async_read n) h_on_read_content_length c.

(** connection.cpp:792-807.  When the buffer holds a CRLF the method ends
    by calling [on_read_chunk_header(ec_t(), 0)]. *)
Definition read_chunk_header (c : conn_impl_t) : conn_impl_t :=
  let c := set_state c READ_CHUNK_HEADER in
  match peek_crlf (response_buf c) with
  | Some _ => set_calling (Some (call_on_read_chunk_header no_error 0)) c
  | None => async (op_stream_async_read_until CRLF) h_on_read_chunk_header c
  end.

(** connection.cpp:837-849 *)
Definition read_chunk_data (c : conn_impl_t) : conn_impl_t :=
  let c := set_state c READ_CHUNK_DATA in
  async (op_stream_async_read
           (size_sub (content_length c) (size (response_buf c))))
        h_on_read_chunk_data c.

(** connection.cpp:870-879 *)
Definition read_until_eof (c : conn_impl_t) : conn_impl_t :=
  let c := set_state c READ_UNTIL_EOF in
  async (op_stream_async_read 1) h_on_read_until_eof c.

(** connection.cpp:753-760 *)
Definition read_content (c : conn_impl_t) : conn_impl_t :=
  if negb (headers_count (response_t.headers (response c)) "Content-Length" =? 0)
  then read_content_length c
  else if headers_contains (response_t.headers (response c))
                           "Transfer-Encoding" "chunked"
  then read_chunk_header c
  else read_until_eof c.

(** ** Redirects and success, connection.cpp:941-1022 *)

Definition perform_redirect (c : conn_impl_t) : conn_impl_t :=
  if is_redirect_exhausted (response c) then
    set_error c REDIRECT_EXHAUSTED "redirect exhausted"
  else if headers_count (response_t.headers (response c)) "Location" =? 0 then
    set_error c REDIRECT_ERROR "no Location."
  else
    (* auto redirects = std::move(response.redirects()) *)
    let redirects := response_t.redirects (response c) in
    let response := response_t.set_redirects [] (response c) in
    let redirects :=
      match redirects with
      | [] => (redirects ++ [response])%list
      | _ :: _ => redirects
      end in
    let redirect_count := response_t.redirect_count response in
    let request := response_t.request response in
    let redirect_count := redirect_count + 1 in
    let location := headers_at (response_t.headers response) "Location" in
    let request := request_t.set_uri (uri_from_string location) request in
    let request := prepare request in
    let response := response_t.of_request request in
    let response := response_t.set_redirect_count redirect_count response in
    let response := response_t.set_redirects redirects response in
    let redirects := response_t.redirects response in
    let redirects := (redirects ++ [response])%list in
    let response := response_t.set_redirects redirects response in
    let c := emit (op_redirect location) (set_response response c) in
    let c := stream_new c in
    let c :=
      if 0 <? size (request_buf c)
      then set_request_buf (consume (size (request_buf c)) (request_buf c)) c
      else c in
    let c :=
      if 0 <? size (response_buf c)
      then set_response_buf (consume (size (response_buf c)) (response_buf c)) c
      else c in
    let c := parser_new c in
    let c := prepare_parser c in
    resolve c.

(** connection.cpp:1008-1022.  The [else] belongs to the test of the
    status code. *)
Definition set_success (c : conn_impl_t) : conn_impl_t :=
  if is_redirect_code (response_t.status_code (response c)) then
    if request_t.redirect (request c) then perform_redirect c
    else c
  else
    if negb (in_final_state c) then
      let c := set_state c SUCCESS in
      let c := set_response (response_t.set_error (Some (state c, "success")) (response c)) c in
      end_ c
    else c.

(** ** Start and restart, connection.cpp:550-576 *)

(** [start], with the method it calls for a reused connection whose stream
    is closed. *)
Definition start_with (restart : conn_impl_t -> conn_impl_t) (c : conn_impl_t)
  : conn_impl_t :=
  let c := prepare_parser c in
  let c :=
    if is_reused c then
      if stream_is_open c then write c else restart c
    else resolve c in
  setup_timeout c.

(** [restart] clears [m_is_reused] before it calls [start], so that call
    does not come back to [restart]. *)
Definition restart (c : conn_impl_t) : conn_impl_t :=
  let c := emit op_restart c in
  let c := stream_cancel c in
  let c := stream_new c in
  let c := parser_new c in
  let c := set_m_is_reused false c in
  start_with (fun c' => c') c.

Definition start (c : conn_impl_t) : conn_impl_t := start_with restart c.

(** ** Completion handlers *)

(** connection.cpp:622-630 *)
Definition on_resolve (c : conn_impl_t) (ec : ec_t) : conn_impl_t :=
  if ec_bool ec then set_error_ec c RESOLVE_ERROR ec
  else connect c.

(** connection.cpp:642-652 *)
Definition on_connect (c : conn_impl_t) (ec : ec_t) : conn_impl_t :=
  if ec_bool ec then set_error_ec c CONNECT_ERROR ec
  else
    let c :=
      if request_t.keep_alive (request c)
      then emit op_stream_set_option_keep_alive c
      else c in
    handshake c.

(** connection.cpp:663-670 *)
Definition on_handshake (c : conn_impl_t) (ec : ec_t) : conn_impl_t :=
  if ec_bool ec then set_error_ec c HANDSHAKE_ERROR ec
  else write c.

(** connection.cpp:685-697 *)
Definition on_write (c : conn_impl_t) (ec : ec_t) : conn_impl_t :=
  if ec_bool ec then
    if is_socket_closed ec && is_reused c && negb (in_final_state c)
    then restart c
    else set_error_ec c WRITE_ERROR ec
  else read_status c.

(** connection.cpp:708-725 *)
Definition on_read_status (c : conn_impl_t) (ec : ec_t) (p : parse_t)
  : conn_impl_t :=
  if ec_bool ec then
    if is_socket_closed ec && is_reused c && negb (in_final_state c)
    then restart c
    else set_error_ec c READ_STATUS_ERROR ec
  else
    let (c, parsed) := execute_parser c p in
    if negb parsed then set_error c READ_STATUS_DATA_ERROR "bad status data"
    else read_headers c.

(** connection.cpp:736-751.  The test for an empty buffer does not
    return. *)
Definition on_read_headers (c : conn_impl_t) (ec : ec_t) (p : parse_t)
  : conn_impl_t :=
  if ec_bool ec && negb (is_eof ec) then set_error_ec c READ_HEADERS_ERROR ec
  else
    let c :=
      if size (response_buf c) =? 0
      then set_error c READ_HEADERS_ERROR "no headers"
      else c in
    let (c, parsed) := execute_parser c p in
    if negb parsed then set_error c READ_HEADERS_ERROR "bad headers data"
    else read_content c.

(** connection.cpp:776-790.  [raw.value().reserve(content_length)] changes
    no member that the methods read and is left out, and with it the
    exception that [reserve] throws for a length beyond what a string can
    hold. *)
Definition on_read_content_length (c : conn_impl_t) (ec : ec_t) (p : parse_t)
  : conn_impl_t :=
  if (ec_bool ec && negb (is_eof ec)) ||
     (ec_bool ec && is_eof ec && (size (response_buf c) <? content_length c))
  then set_error_ec c READ_CONTENT_LENGTH_ERROR ec
  else
    let (c, parsed) := execute_parser c p in
    if negb parsed
    then set_error c READ_CONTENT_LENGTH_ERROR "bad content length"
    else set_success c.

(** connection.cpp:809-835.  With more than [content_length] characters
    buffered the method ends by calling
    [on_read_chunk_data(ec_t(), content_length)]. *)
Definition on_read_chunk_header (c : conn_impl_t) (ec : ec_t) (p : parse_t)
  : conn_impl_t :=
  if ec_bool ec then
    if negb (is_eof ec) then set_error_ec c READ_CHUNK_HEADER_ERROR ec
    else set_success c
  else
    let (c, parsed) := execute_parser c p in
    if negb parsed then set_error c READ_CHUNK_HEADER_ERROR "bad chunk header"
    else if 0 <? content_length c then
      if content_length c <? size (response_buf c) then
        let c := set_state c READ_CHUNK_DATA in
        set_calling (Some (call_on_read_chunk_data no_error (content_length c))) c
      else read_chunk_data c
    else set_success c.

(** connection.cpp:851-868.  [raw.value().reserve(...)] is left out as in
    [on_read_content_length]. *)
Definition on_read_chunk_data (c : conn_impl_t) (ec : ec_t) (p : parse_t)
  : conn_impl_t :=
  if ec_bool ec && negb (is_eof ec)
  then set_error_ec c READ_CHUNK_DATA_ERROR ec
  else if ec_bool ec && is_eof ec && (size (response_buf c) <? content_length c)
  then set_error_ec c READ_CHUNK_DATA_ERROR ec
  else
    let (c, parsed) := execute_parser c p in
    if negb parsed then set_error c READ_CHUNK_DATA_ERROR "chunk data error"
    else read_chunk_header c.

(** connection.cpp:881-897 *)
Definition on_read_until_eof (c : conn_impl_t) (ec : ec_t) (p : parse_t)
  : conn_impl_t :=
  if ec_bool ec then
    if negb (is_eof ec) then set_error_ec c READ_UNTIL_EOF_ERROR ec
    else
      let (c, parsed) := execute_parser c p in
      if negb parsed then set_error c READ_UNTIL_EOF_ERROR "until eof error"
      else set_success c
  else read_until_eof c.

(** ** The reactor *)

(** What the reactor hands to a completion handler: the error code, the
    characters a read has appended to the response buffer, the number of
    characters a write has taken from the request buffer, and what the
    parser does if the handler feeds it. *)
Record completion_t : Type := make_completion {
  ec : ec_t;
  received : string;
  written : N;
  parse : parse_t
}.

(** An event of a connection's life: [start()] is called, an asynchronous
    operation completes, or the handler that the last method called in
    tail position runs. *)
Inductive event_t : Type :=
| ev_start
| ev_complete (h : handler_t) (k : completion_t)
| ev_call (p : parse_t).

Fixpoint remove_pending (h : handler_t) (l : list handler_t) : list handler_t :=
  match l with
  | [] => []
  | h' :: l' => if handler_t_beq h h' then l' else h' :: remove_pending h l'
  end.

Definition is_pending (h : handler_t) (c : conn_impl_t) : bool :=
  existsb (handler_t_beq h) (pending c).

(** The part of a completion that the stream performs before the handler
    runs. *)
Definition deliver (h : handler_t) (k : completion_t) (c : conn_impl_t)
  : conn_impl_t :=
  match h with
  | h_on_connect =>
      if ec_bool (ec k) then c else set_stream_is_open true c
  | h_on_write =>
      set_request_buf (consume (written k) (request_buf c)) c
  | h_on_read_status | h_on_read_headers | h_on_read_content_length
  | h_on_read_chunk_header | h_on_read_chunk_data | h_on_read_until_eof =>
      set_response_buf (response_buf c ++ received k) c
  | h_on_resolve | h_on_handshake | h_on_timeout | h_on_dispose_timer => c
  end.

Definition handle (h : handler_t) (k : completion_t) (c : conn_impl_t)
  : conn_impl_t :=
  match h with
  | h_on_resolve => on_resolve c (ec k)
  | h_on_connect => on_connect c (ec k)
  | h_on_handshake => on_handshake c (ec k)
  | h_on_write => on_write c (ec k)
  | h_on_read_status => on_read_status c (ec k) (parse k)
  | h_on_read_headers => on_read_headers c (ec k) (parse k)
  | h_on_read_content_length => on_read_content_length c (ec k) (parse k)
  | h_on_read_chunk_header => on_read_chunk_header c (ec k) (parse k)
  | h_on_read_chunk_data => on_read_chunk_data c (ec k) (parse k)
  | h_on_read_until_eof => on_read_until_eof c (ec k) (parse k)
  | h_on_timeout => on_timeout c (ec k)
  | h_on_dispose_timer => on_dispose_timer c (ec k)
  end.

(** One event.  A completion is possible for an operation that is pending,
    and nothing else runs while a tail call is outstanding; an event that
    is not possible leaves the connection as it is. *)
Definition dispatch (c : conn_impl_t) (ev : event_t) : conn_impl_t :=
  match calling c, ev with
  | Some (call_on_read_chunk_header ec _), ev_call p =>
      on_read_chunk_header (set_calling None c) ec p
  | Some (call_on_read_chunk_data ec _), ev_call p =>
      on_read_chunk_data (set_calling None c) ec p
  | Some _, _ => c
  | None, ev_start => start c
  | None, ev_complete h k =>
      if is_pending h c
      then handle h k (deliver h k (set_pending (remove_pending h (pending c)) c))
      else c
  | None, ev_call _ => c
  end.

(** A life of a connection: the events in the order in which they
    happen. *)
Definition run (c : conn_impl_t) (evs : list event_t) : conn_impl_t :=
  fold_left dispatch evs c.

End Connection.

(** * session.cpp *)

Section Session.

Context {collab : collaborators}.

(** The members of [session_impl_t] that [Send] works on: the pending
    request and the current connection, if there is one. *)
Record session_impl_t : Type := make_session {
  pending_request : request_t.t;
  connection : option conn_impl_t
}.

(** What a call of [Send] comes to: it returns, it throws, or it waits for
    a future that holds nothing yet.  Each carries the session as the call
    leaves it. *)
Inductive send_t : Type :=
| sent (s : session_impl_t)
| send_throws (e : error_t) (s : session_impl_t)
| send_waits (s : session_impl_t).

(** session.cpp:10-17 *)
Definition can_reuse_connection (request last_request : request_t.t) : bool :=
  String.eqb (domain (request_t.uri last_request)) (domain (request_t.uri request)) &&
  String.eqb (port (request_t.uri last_request)) (port (request_t.uri request)) &&
  String.eqb (protocol (request_t.uri last_request)) (protocol (request_t.uri request)).

(** session.cpp:407-415 *)
Definition skip_redirects (request : request_t.t) (response : response_t.t)
  : request_t.t :=
  match redirects_find (response_t.redirects response) request with
  | Some resp =>
      let request := request_t.set_uri (request_t.uri (response_t.request resp)) request in
      let request := request_t.set_auth (request_t.auth (response_t.request resp)) request in
      let request := request_t.set_cookies (request_t.cookies (response_t.request resp)) request in
      prepare request
  | None => request
  end.

(** [connection->get().get()]: the future of a connection yields the
    response, rethrows the exception, or has nothing yet. *)
Definition future_get (c : conn_impl_t) (s : session_impl_t)
    (k : response_t.t -> send_t) : send_t :=
  match promise c with
  | Some (value r) => k r
  | Some (exception e) => send_throws e s
  | None => send_waits s
  end.

(** session.cpp:383-405 *)
Definition Send (s : session_impl_t) : send_t :=
  let construct (s : session_impl_t) : send_t :=
    let request := pending_request s in
    match connection s with
    | None =>
        sent (make_session request (Some (start (conn_impl_new request))))
    | Some last =>
        future_get last s (fun last_response =>
          if negb (can_reuse_connection request (response_t.request last_response))
          then sent (make_session request (Some (start (conn_impl_new request))))
          else
            let cookies := request_t.cookies request in
            let cookies := cookies_update cookies (response_t.cookies last_response) in
            let request := request_t.set_cookies cookies request in
            let s := make_session request (connection s) in
            future_get last s (fun last_response =>
              sent (make_session request
                      (Some (start (conn_impl_reuse request
                                      (stream_is_open last)
                                      (response_t.redirects last_response)))))))
    end in
  match connection s with
  | Some last =>
      if request_t.cache_redirects (pending_request s) then
        future_get last s (fun last_response =>
          construct (make_session
                       (skip_redirects (pending_request s) last_response)
                       (connection s)))
      else construct (make_session (prepare (pending_request s)) (connection s))
  | None => construct (make_session (prepare (pending_request s)) (connection s))
  end.

End Session.

(** * Observations on a connection *)

(** The finality of a state, as [in_final_state] decides it. *)
Definition final_code (s : error_code_t) : bool :=
  match s with
  | INIT | RESOLVE | CONNECT | HANDSHAKE | WRITE | READ_STATUS | READ_HEADERS
  | READ_CONTENT_LENGTH | READ_CHUNK_HEADER | READ_CHUNK_DATA
  | READ_UNTIL_EOF => false
  | _ => true
  end.

Definition is_arm (o : op_t) : bool :=
  match o with
  | op_dispose_timer_async_wait _ => true
  | _ => false
  end.

Definition is_fulfil (o : op_t) : bool :=
  match o with
  | op_promise_set_value _ | op_promise_set_exception _ => true
  | _ => false
  end.

Definition is_restart (o : op_t) : bool :=
  match o with
  | op_restart => true
  | _ => false
  end.

Definition is_redirect (o : op_t) : bool :=
  match o with
  | op_redirect _ => true
  | _ => false
  end.

Definition is_io (o : op_t) : bool :=
  match o with
  | op_stream_async_read _ | op_stream_async_read_until _
  | op_stream_async_write | op_stream_async_connect
  | op_stream_async_handshake | op_resolver_async_resolve _ _ => true
  | _ => false
  end.

(** How often an operation of a kind occurs. *)
Definition count (f : op_t -> bool) (l : list op_t) : nat :=
  List.length (filter f l).

(** The order of finalization in a sequence of operations: phase 0 before the
    dispose timer is armed, phase 1 once it is armed, phase 2 once the promise
    is fulfilled after that.  Any other order, and any second arming or
    fulfilment, has no phase. *)
Fixpoint phase (n : nat) (l : list op_t) : option nat :=
  match l with
  | [] => Some n
  | o :: l' =>
      if is_arm o then
        match n with
        | O => phase 1 l'
        | _ => None
        end
      else if is_fulfil o then
        match n with
        | 1%nat => phase 2 l'
        | _ => None
        end
      else phase n l'
  end.

(** The position of the first operation of a kind. *)
Fixpoint position (f : op_t -> bool) (l : list op_t) : option nat :=
  match l with
  | [] => None
  | o :: l' => if f o then Some 0%nat else option_map S (position f l')
  end.

(** [f] occurs, and no [g] occurs before the first [f]. *)
Definition precedes (f g : op_t -> bool) (l : list op_t) : bool :=
  match position f l, position g l with
  | Some i, Some j => Nat.ltb i j
  | Some _, None => true
  | None, _ => false
  end.

Definition b2n (b : bool) : nat := if b then 1%nat else 0%nat.

(** Operations other than arming the dispose timer and fulfilling the
    promise. *)
Definition quiet (o : op_t) : bool := negb (is_arm o) && negb (is_fulfil o).

(** Operations that leave the four counts alone. *)
Definition silent (o : op_t) : bool :=
  quiet o && negb (is_restart o) && negb (is_redirect o).

Section Observations.

Context {collab : collaborators}.

Definition fin (c : conn_impl_t) : nat :=
  if in_final_state c then 2%nat else 0%nat.

Definition rcount (c : conn_impl_t) : N :=
  response_t.redirect_count (response c).

Definition rcap (c : conn_impl_t) : N :=
  request_t.redirect_count (request c).

(** The number of steps of a life at which the state changes to a final
    state. *)
Fixpoint terminal_transitions (c : conn_impl_t) (evs : list event_t) : nat :=
  match evs with
  | [] => 0%nat
  | ev :: evs' =>
      let c' := dispatch c ev in
      (if in_final_state c' && negb (error_code_t_beq (state c) (state c'))
       then 1%nat else 0%nat) + terminal_transitions c' evs'
  end.

(** A connection as one of the two constructors builds it. *)
Inductive constructed : conn_impl_t -> Prop :=
| constructed_new request_ : constructed (conn_impl_new request_)
| constructed_reuse request_ stream redirects :
    constructed (conn_impl_reuse request_ stream redirects).

(** What holds of a connection throughout its life.  [cap] is the redirect
    limit of the request the connection was built for. *)
Record invariant (cap : N) (c : conn_impl_t) : Prop := {
  inv_not_expired : state c <> EXPIRED;
  inv_phase : phase 0 (ops c) = Some (fin c);
  inv_open :
    in_final_state c = false ->
    promise c = None /\ is_pending h_on_dispose_timer c = false;
  inv_closed : in_final_state c = true -> promise c <> None;
  inv_restart : (count is_restart (ops c) + b2n (m_is_reused c) <= 1)%nat;
  inv_redirects : N.of_nat (count is_redirect (ops c)) = rcount c;
  inv_rcount : rcount c <= rcap c;
  inv_rcap : rcap c = cap
}.

(** A step keeps the invariant and keeps a final state. *)
Definition good (cap : N) (c c' : conn_impl_t) : Prop :=
  (invariant cap c -> invariant cap c') /\
  (in_final_state c = true -> state c <> EXPIRED -> state c' = state c).

(** A step that appends operations taking the finalization order from phase
    [n] to phase [m], with no restart and no redirect among them, and that
    leaves the state, the reuse flag and the redirect counters alone. *)
Definition ext (n m : nat) (c c' : conn_impl_t) : Prop :=
  state c' = state c /\
  m_is_reused c' = m_is_reused c /\
  rcount c' = rcount c /\
  rcap c' = rcap c /\
  exists l, ops c' = (ops c ++ l)%list /\
            phase n l = Some m /\
            count is_restart l = 0%nat /\ count is_redirect l = 0%nat.

End Observations.

(** * Concrete collaborators, requests and lives *)

(** Collaborators for the concrete lives below: a URI whose domain is the
    text of the [Location] header, a [prepare] that leaves the request as it
    is, cookies that are appended. *)
Definition plain_collaborators : collaborators :=
  {| uri_from_string := fun s => make_uri "http" s "80" "/" "";
     prepare := fun r => r;
     prepare_redirect_count := fun r => eq_refl;
     make_request := fun _ => "GET / HTTP/1.1" ++ CRLF ++ CRLF;
     cookie_from_string := fun s => make_cookie s "" "";
     cookies_update := fun a b => (a ++ b)%list;
     redirects_find := fun _ _ => None;
     ec_message := fun _ => "error" |}.

(** A GET of [http://host/x] with the given redirect policy. *)
Definition get_request (redirect : bool) (redirect_count : N)
    (throw_on_error : bool) : request_t.t :=
  request_t.make (make_uri "http" "host" "80" "/x" "") None []
                 redirect redirect_count false false throw_on_error 30 60
                 false false.

(** Completions: success, success of a read with its parser outcome, and an
    error. *)
Definition completed : completion_t :=
  make_completion no_error "" 0 (make_parse [] 0).

Definition completed_read (data : string) (cbs : list parser_cb) (n : N)
  : completion_t :=
  make_completion no_error data 0 (make_parse cbs n).

Definition failed (e : ec_t) : completion_t :=
  make_completion e "" 0 (make_parse [] 0).

(** The name cannot be resolved. *)
Definition resolve_fails : list event_t :=
  [ev_start; ev_complete h_on_resolve (failed (other_error false))].

(** A response with the given status line and the given header arrives, the
    parser reports the declared content length [len], and the life stops
    where the body read is pending. *)
Definition status_line (code : string) : string :=
  "HTTP/1.1 " ++ code ++ " X" ++ CRLF.

Definition headers_arrive (code : N) (code_text : string)
    (field value : string) (len : Z) : list event_t :=
  [ev_start;
   ev_complete h_on_resolve completed;
   ev_complete h_on_connect completed;
   ev_complete h_on_handshake completed;
   ev_complete h_on_write (make_completion no_error "" 18 (make_parse [] 0));
   ev_complete h_on_read_status
     (completed_read (status_line code_text)
        [cb_status "X" 1 1 code] (size (status_line code_text)));
   ev_complete h_on_read_headers
     (completed_read (field ++ ": " ++ value ++ CRLF ++ CRLF)
        [cb_header_field field; cb_header_value value;
         cb_headers_complete len]
        (size (field ++ ": " ++ value ++ CRLF ++ CRLF)))].

(** The one character of the body arrives and the parser takes it. *)
Definition body_arrives : event_t :=
  ev_complete h_on_read_content_length (completed_read "x" [cb_body "x"] 1).

(** A chunk header for three characters arrives together with the three
    characters, and the parser takes the header. *)
Definition chunk_header_arrives : event_t :=
  ev_complete h_on_read_chunk_header
    (completed_read ("3" ++ CRLF ++ "abc") [cb_chunk_header 3] 3).

(** A reused connection finds its socket closed at the first write, restarts,
    and reaches the write of the request again. *)
Definition reuse_restarts : list event_t :=
  [ev_start;
   ev_complete h_on_write (failed eof);
   ev_complete h_on_resolve completed;
   ev_complete h_on_connect completed;
   ev_complete h_on_handshake completed].

(** * Observations on a session *)

Section SessionObservations.

Context {collab : collaborators}.

(** The two requests differ in domain, port or protocol. *)
Definition differs (request last_request : request_t.t) : Prop :=
  domain (request_t.uri last_request) <> domain (request_t.uri request) \/
  port (request_t.uri last_request) <> port (request_t.uri request) \/
  protocol (request_t.uri last_request) <> protocol (request_t.uri request).

(** The pending request as session.cpp:384-387 leaves it, given the response
    of the earlier connection. *)
Definition prepared_request (s : session_impl_t) (last_response : response_t.t)
  : request_t.t :=
  if request_t.cache_redirects (pending_request s)
  then skip_redirects (pending_request s) last_response
  else prepare (pending_request s).

(** The pending request with its cookies updated with those of the earlier
    response, session.cpp:396-398. *)
Definition with_updated_cookies (request : request_t.t)
    (last_response : response_t.t) : request_t.t :=
  request_t.set_cookies
    (cookies_update (request_t.cookies request)
                    (response_t.cookies last_response)) request.

(** A started connection that the first constructor has built. *)
Definition fresh_connection (c : conn_impl_t) : Prop :=
  exists request_ : request_t.t, c = start (conn_impl_new request_).

(** The claim on [Send] for one session: the call returns with a
    connection that is fresh exactly when there was no connection or the
    requests differ, and that otherwise reuses the earlier connection for
    the request with updated cookies. *)
Definition send_constructs (s : session_impl_t) : Prop :=
  exists (s' : session_impl_t) (c : conn_impl_t),
    Send s = sent s' /\ connection s' = Some c /\
    (fresh_connection c <->
     connection s = None \/
     exists last r, connection s = Some last /\
                    promise last = Some (value r) /\
                    differs (prepared_request s r) (response_t.request r)) /\
    (~ fresh_connection c ->
     exists last r, connection s = Some last /\
                    promise last = Some (value r) /\
                    pending_request s' =
                    with_updated_cookies (prepared_request s r) r /\
                    c = start (conn_impl_reuse (pending_request s')
                                 (stream_is_open last)
                                 (response_t.redirects r))).

End SessionObservations.

(** A session whose earlier connection, built for a request with
    [throw_on_error], ended in RESOLVE_ERROR. *)
Definition session_after_error : session_impl_t :=
  make_session (get_request true 5 true)
    (Some (@run plain_collaborators
             (conn_impl_new (get_request true 5 true)) resolve_fails)).

(** A session whose earlier connection answered 200 with an empty body. *)
Definition session_after_success : session_impl_t :=
  make_session (get_request true 5 false)
    (Some (@run plain_collaborators
             (conn_impl_new (get_request true 5 false))
             (headers_arrive 200 "200" "Content-Length" "1" 1 ++ [body_arrives])%list)).

(** * More of connection.cpp: the buffer helpers *)

(** connection.cpp:55-61.  [in.get(c)] takes a character out of the
    buffer; the conjunction stops at the first test that fails.  The result
    is the answer and the buffer as the call leaves it. *)
Definition consume_crlf (buf : string) : bool * string :=
  match buf with
  | EmptyString => (false, buf)
  | String c rest =>
      if Ascii.eqb c CR then
        match rest with
        | EmptyString => (false, rest)
        | String d rest' => (Ascii.eqb d LF, rest')
        end
      else (false, rest)
  end.

(** [n] characters of value zero, as [vector_t<char> buf(length)] holds
    them before [sgetn] writes into it. *)
Fixpoint zeros (n : nat) : string :=
  match n with
  | O => EmptyString
  | S n' => String zero (zeros n')
  end.

(** connection.cpp:44-53.  [sgetn] copies the characters the buffer has, at
    most [length] of them, to the front of the vector and takes them out of
    the buffer.  The result is the string returned and the buffer as the
    call leaves it.  The vector is taken to be allocated: a [length] that
    the allocator refuses is outside the model. *)
Definition read_buffer (response_buf : string) (length : N) : string * string :=
  if length =? 0 then ("", response_buf)
  else
    let got := substring 0 (N.to_nat length) response_buf in
    (got ++ zeros (N.to_nat length - String.length got),
     consume length response_buf).

(** * More observations on a connection *)

(** The error that the holder of the future gets: the error member of the
    response, or the error thrown. *)
Definition outcome_error (o : outcome_t) : error_t :=
  match o with
  | value r => response_t.error r
  | exception e => e
  end.

(** The connection is in state [s] and its promise is fulfilled with an
    error of kind [s] and message [msg]. *)
Definition fails_with (c : conn_impl_t) (s : error_code_t) (msg : string) : Prop :=
  state c = s /\
  exists o, promise c = Some o /\ outcome_error o = Some (s, msg).

(** The calls of the final callback among the operations. *)
Definition is_final_callback (o : op_t) : bool :=
  match o with
  | op_final_callback _ => true
  | _ => false
  end.

(** What holds of the promise, of the body of the response and of the final
    callback throughout a life: before a final state the promise is empty,
    the response holds no body and the final callback has not been called;
    the value of the promise carries the state of the connection as its
    error kind; the final callback is called once at most; and every
    response that was handed to it held no body. *)
Record settled (c : conn_impl_t) : Prop := {
  settled_not_expired : state c <> EXPIRED;
  settled_open :
    in_final_state c = false ->
    promise c = None /\ response_t.raw (response c) = "" /\
    count is_final_callback (ops c) = 0%nat;
  settled_carries :
    forall o, promise c = Some o ->
    exists msg, outcome_error o = Some (state c, msg);
  settled_once : (count is_final_callback (ops c) <= 1)%nat;
  settled_callback :
    forall r, In (op_final_callback r) (ops c) -> response_t.raw r = ""
}.

(** A step keeps [settled], and keeps the state and the promise of a final
    state. *)
Definition keeps (c c' : conn_impl_t) : Prop :=
  (settled c -> settled c') /\
  (in_final_state c = true -> state c <> EXPIRED ->
   state c' = state c /\ promise c' = promise c).

(** [stream.cancel()] and [stream.close()] among the operations. *)
Definition is_stream_cancel (o : op_t) : bool :=
  match o with
  | op_stream_cancel => true
  | _ => false
  end.

Definition is_stream_close (o : op_t) : bool :=
  match o with
  | op_stream_close => true
  | _ => false
  end.

(** The body text that the parser hands over in one call, and the calls of
    the body callback that it amounts to. *)
Fixpoint body_text (cbs : list parser_cb) : string :=
  match cbs with
  | [] => ""
  | cb_body at_ :: cbs' => at_ ++ body_text cbs'
  | _ :: cbs' => body_text cbs'
  end.

Fixpoint body_calls (cbs : list parser_cb) : list op_t :=
  match cbs with
  | [] => []
  | cb_body at_ :: cbs' =>
      op_body_callback (Some at_) (size at_) None :: body_calls cbs'
  | _ :: cbs' => body_calls cbs'
  end.

(** * More of session.cpp *)

Section MoreSession.

Context {collab : collaborators}.

(** [session_impl_t::is_expired], session.cpp:417-419:
    [connection and connection->is_expired()]. *)
Definition session_is_expired (s : session_impl_t) : bool :=
  match connection s with
  | Some c => is_expired c
  | None => false
  end.

(** A caller that catches what [Send] throws and calls [Send] again, up to
    [n] more times. *)
Fixpoint Send_again (n : nat) (s : session_impl_t) : send_t :=
  match n with
  | O => Send s
  | S n' =>
      match Send s with
      | send_throws _ s' => Send_again n' s'
      | other => other
      end
  end.

End MoreSession.

(** * Concrete inputs for the further properties *)

(** A connection that has been started and waits for its name to
    resolve. *)
Definition started_connection : conn_impl_t :=
  @start plain_collaborators (conn_impl_new (get_request true 5 false)).

(** The response that the future of a connection holds; the response member
    when the future holds none. *)
Definition future_response (c : conn_impl_t) : response_t.t :=
  match promise c with
  | Some (value r) => r
  | _ => response c
  end.

(** The life in which the answer is 200 with the body ["x"]. *)
Definition answered : list event_t :=
  (headers_arrive 200 "200" "Content-Length" "1" 1 ++ [body_arrives])%list.

Definition answered_connection : conn_impl_t :=
  @run plain_collaborators (conn_impl_new (get_request true 5 false)) answered.

(** The request of [get_request] with a final callback, and the connection
    that has answered it. *)
Definition notified_request : request_t.t :=
  request_t.make (make_uri "http" "host" "80" "/x" "") None []
                 true 5 false false false 30 60 true false.

Definition notified_connection : conn_impl_t :=
  @run plain_collaborators (conn_impl_new notified_request) answered.

(** The connection whose request failed to resolve, built for a request
    with [throw_on_error]. *)
Definition failed_connection : conn_impl_t :=
  @run plain_collaborators (conn_impl_new (get_request true 5 true))
       resolve_fails.

(** Connections that have read the headers of a 301: one with a
    [Location] header, one without. *)
Definition redirected_connection : conn_impl_t :=
  @run plain_collaborators (conn_impl_new (get_request true 5 false))
       (headers_arrive 301 "301" "Location" "other" 0).

Definition misdirected_connection : conn_impl_t :=
  @run plain_collaborators (conn_impl_new (get_request true 5 false))
       (headers_arrive 301 "301" "Content-Length" "1" 1).

(** A session before its first [Send], and a session with
    [cache_redirects] whose earlier connection answered 200. *)
Definition first_session : session_impl_t :=
  make_session (get_request true 5 false) None.

Definition caching_request : request_t.t :=
  request_t.make (make_uri "http" "host" "80" "/y" "") None []
                 true 5 false true false 30 60 false false.

Definition caching_session : session_impl_t :=
  make_session caching_request (Some answered_connection).

(** The life up to the status line of a 200: the status read has completed
    and the read of the headers is pending. *)
Definition status_arrives : list event_t :=
  [ev_start;
   ev_complete h_on_resolve completed;
   ev_complete h_on_connect completed;
   ev_complete h_on_handshake completed;
   ev_complete h_on_write (make_completion no_error "" 18 (make_parse [] 0));
   ev_complete h_on_read_status
     (completed_read (status_line "200")
        [cb_status "X" 1 1 200] (size (status_line "200")))].

(** The text of a header block, and the callbacks that the parser fires
    for it when it reports the declared length [len]. *)
Fixpoint header_text (fields : list (string * string)) : string :=
  match fields with
  | [] => CRLF
  | (field, text) :: fields' =>
      field ++ ": " ++ text ++ CRLF ++ header_text fields'
  end.

Fixpoint header_callbacks (fields : list (string * string)) (len : Z)
  : list parser_cb :=
  match fields with
  | [] => [cb_headers_complete len]
  | (field, text) :: fields' =>
      cb_header_field field :: cb_header_value text ::
      header_callbacks fields' len
  end.

(** The completion of the header read at which the block [fields] arrives
    with the first characters [body] of the body behind it; the parser takes
    the block. *)
Definition headers_completion (fields : list (string * string)) (len : Z)
    (body : string) : completion_t :=
  completed_read (header_text fields ++ body) (header_callbacks fields len)
                 (size (header_text fields)).

(** The connection as [on_read_headers] has it when it calls
    [read_content]: the completion has been delivered and the parser has
    run. *)
Definition headers_parsed (fields : list (string * string)) (len : Z)
    (body : string) : conn_impl_t :=
  let c := @run plain_collaborators (conn_impl_new (get_request true 5 false))
                status_arrives in
  let k := headers_completion fields len body in
  fst (@execute_parser plain_collaborators
         (deliver h_on_read_headers k
            (set_pending (remove_pending h_on_read_headers (pending c)) c))
         (parse k)).

(** Header blocks: a declared length of five together with chunked
    transfer, two characters of the body behind it; chunked transfer alone;
    neither; and a declared length of one with three characters behind
    it. *)
Definition length_and_chunked_connection : conn_impl_t :=
  headers_parsed [("Content-Length", "5"); ("Transfer-Encoding", "chunked")]
                 5 "ab".

Definition chunked_connection : conn_impl_t :=
  headers_parsed [("Transfer-Encoding", "chunked")] (-1) "".

Definition bare_connection : conn_impl_t :=
  headers_parsed [("Server", "x")] (-1) "".

Definition overfull_connection : conn_impl_t :=
  headers_parsed [("Content-Length", "1")] 1 "abc".

(** The life up to the headers of a 200 with a body of one character, for a
    request with [throw_on_error], and the connection as
    [on_read_content_length] has it when it calls [set_success]: the body
    ["x"] has been delivered and the parser has taken it. *)
Definition body_awaited_connection : conn_impl_t :=
  @run plain_collaborators (conn_impl_new (get_request true 5 true))
       (headers_arrive 200 "200" "Content-Length" "1" 1).

Definition body_parsed_connection : conn_impl_t :=
  fst (@execute_parser plain_collaborators
         (deliver h_on_read_content_length
            (completed_read "x" [cb_body "x"] 1)
            (set_pending
               (remove_pending h_on_read_content_length
                  (pending body_awaited_connection))
               body_awaited_connection))
         (make_parse [cb_body "x"] 1)).

(** Collaborators whose [prepare] leaves a mark on the request: it sets the
    query of the URI to ["prepared"].  Everything else is as in
    [plain_collaborators]. *)
Definition marking_collaborators : collaborators :=
  {| uri_from_string := fun s => make_uri "http" s "80" "/" "";
     prepare := fun r =>
       request_t.set_uri
         (make_uri (protocol (request_t.uri r)) (domain (request_t.uri r))
                   (port (request_t.uri r)) (path (request_t.uri r))
                   "prepared") r;
     prepare_redirect_count := fun r => eq_refl;
     make_request := fun _ => "GET / HTTP/1.1" ++ CRLF ++ CRLF;
     cookie_from_string := fun s => make_cookie s "" "";
     cookies_update := fun a b => (a ++ b)%list;
     redirects_find := fun _ _ => None;
     ec_message := fun _ => "error" |}.

(** With these collaborators: the connection that answered 200, a session
    with [cache_redirects] after it, and a session without. *)
Definition marked_connection : conn_impl_t :=
  @run marking_collaborators (conn_impl_new (get_request true 5 false))
       answered.

Definition marked_caching_session : session_impl_t :=
  make_session caching_request (Some marked_connection).

Definition marked_session : session_impl_t :=
  make_session (get_request true 5 false) (Some marked_connection).

(** * Lemmas on the auth literal *)

(** ** Facts about [string_t::find] with the pattern [":"] *)

Section FindColon.

Lemma substring_all (s : string) : substring 0 (String.length s) s = s.
Proof.
  induction s as [|c s IH]; simpl; [reflexivity|].
  now rewrite IH.
Qed.

Lemma index_colon_cons (c : ascii) (s : string) :
  index 0 ":" (String c s) =
  if ascii_dec ":"%char c then Some 0%nat
  else option_map S (index 0 ":" s).
Proof.
  change (index 0 ":" (String c s))
    with (if prefix ":" (String c s) then Some 0%nat
          else match index 0 ":" s with
               | Some n => Some (S n)
               | None => None
               end).
  change (prefix ":" (String c s))
    with (if ascii_dec ":"%char c then prefix "" s else false).
  destruct (ascii_dec ":"%char c) as [e|ne].
  - destruct s; reflexivity.
  - destruct (index 0 ":" s); reflexivity.
Qed.

(** The text before the first colon holds no colon, and the string is that
    text, a colon, and the rest. *)
Lemma index_colon_split (s : string) (ind : nat) :
  index 0 ":" s = Some ind ->
  index 0 ":" (substring 0 ind s) = None /\
  s = substring 0 ind s ++ ":" ++ substr_from (ind + 1) s.
Proof.
  revert ind. induction s as [|c s IH]; intros ind H.
  - discriminate H.
  - rewrite index_colon_cons in H.
    destruct (ascii_dec ":"%char c) as [e|ne].
    + injection H as <-. subst c. split; [reflexivity|].
      unfold substr_from. simpl. rewrite Nat.sub_0_r.
      now rewrite substring_all.
    + destruct (index 0 ":" s) as [k|] eqn:Hk; [|discriminate H].
      injection H as <-. destruct (IH k eq_refl) as [IH1 IH2].
      split.
      * change (substring 0 (S k) (String c s))
          with (String c (substring 0 k s)).
        rewrite index_colon_cons.
        destruct (ascii_dec ":"%char c); [contradiction|].
        now rewrite IH1.
      * change (substring 0 (S k) (String c s))
          with (String c (substring 0 k s)).
        unfold substr_from in *. simpl. f_equal. exact IH2.
Qed.

(** Searching [login ++ ":" ++ password] when [login] holds no colon. *)
Lemma index_colon_app (login password : string) :
  index 0 ":" login = None ->
  index 0 ":" (login ++ ":" ++ password) = Some (String.length login).
Proof.
  induction login as [|c l IH]; intros H.
  - simpl. destruct password; reflexivity.
  - rewrite index_colon_cons in H.
    change ((String c l) ++ ":" ++ password)
      with (String c (l ++ ":" ++ password)).
    rewrite index_colon_cons.
    destruct (ascii_dec ":"%char c); [discriminate H|].
    destruct (index 0 ":" l); [discriminate H|].
    now rewrite IH.
Qed.

Lemma substring_app_left (l r : string) :
  substring 0 (String.length l) (l ++ r) = l.
Proof.
  induction l as [|c l IH]; simpl.
  - destruct r; reflexivity.
  - now rewrite IH.
Qed.

Lemma substr_from_app (l r : string) :
  substr_from (String.length l + 1) (l ++ ":" ++ r) = r.
Proof.
  unfold substr_from. induction l as [|c l IH]; simpl.
  - rewrite Nat.sub_0_r. apply substring_all.
  - exact IH.
Qed.

End FindColon.

Lemma index_colon_found (login password : string) :
  exists ind, index 0 ":" (login ++ ":" ++ password) = Some ind.
Proof.
  induction login as [|c l [k IH]].
  - exists 0%nat. simpl. destruct password; reflexivity.
  - change ((String c l) ++ ":" ++ password)
      with (String c (l ++ ":" ++ password)).
    rewrite index_colon_cons, IH.
    destruct (ascii_dec ":"%char c); eexists; reflexivity.
Qed.

(** C9.  [from_string] splits at the first colon: a string [login:password]
    whose login holds no colon parses to that login and that password, and
    every string that holds a colon parses; ["u:p"] parses and prints back
    to ["u:p"], and ["a:b:c"] parses to login ["a"] and password ["b:c"].
    For every value that [from_string] returns, the login holds no colon,
    [to_string] gives back the string parsed, and parsing that again gives
    back the same login and password. *)
Theorem auth_round_trip :
  (forall login password : string,
     index 0 ":" login = None ->
     auth_t.from_string (login ++ ":" ++ password) =
     Ok (auth_t.make login password)) /\
  (forall login password : string,
     exists a, auth_t.from_string (login ++ ":" ++ password) = Ok a) /\
  result_map auth_t.to_string (auth_t.from_string "u:p") = Ok "u:p" /\
  auth_t.from_string "a:b:c" = Ok (auth_t.make "a" "b:c") /\
  (forall (str : string) (a : auth_t.t),
     auth_t.from_string str = Ok a ->
     index 0 ":" (auth_t.first a) = None /\
     auth_t.to_string a = str /\
     auth_t.from_string (auth_t.to_string a) = Ok a).
Proof.
  assert (A : forall login password : string,
             index 0 ":" login = None ->
             auth_t.from_string (login ++ ":" ++ password) =
             Ok (auth_t.make login password)).
  { intros l p H. unfold auth_t.from_string.
    rewrite (index_colon_app l p H).
    now rewrite substring_app_left, substr_from_app. }
  split; [exact A|]. split; [|split; [reflexivity|split; [reflexivity|]]].
  - intros l p. unfold auth_t.from_string.
    destruct (index_colon_found l p) as [k ->]. eexists. reflexivity.
  - intros str a H. unfold auth_t.from_string in H.
    destruct (index 0 ":" str) as [ind|] eqn:E; [|discriminate H].
    injection H as <-.
    destruct (index_colon_split str ind E) as [N S].
    unfold auth_t.to_string. cbn [auth_t.first auth_t.second].
    split; [exact N|]. split; [now rewrite <- S|].
    now apply A.
Qed.

(** * Lemmas on sequences of operations *)

Lemma phase_app (n : nat) (l1 l2 : list op_t) :
  phase n (l1 ++ l2) =
  match phase n l1 with
  | Some m => phase m l2
  | None => None
  end.
Proof.
  revert n. induction l1 as [|o l1 IH]; intros n; simpl; [reflexivity|].
  destruct (is_arm o); [destruct n; [apply IH|reflexivity]|].
  destruct (is_fulfil o); [|apply IH].
  destruct n as [|[|n]]; try reflexivity. apply IH.
Qed.

Lemma count_app (f : op_t -> bool) (l1 l2 : list op_t) :
  count f (l1 ++ l2) = (count f l1 + count f l2)%nat.
Proof. unfold count. now rewrite filter_app, length_app. Qed.

(** Quiet operations leave the phase alone. *)
Lemma phase_quiet (n : nat) (l : list op_t) :
  forallb quiet l = true -> phase n l = Some n.
Proof.
  induction l as [|o l IH]; simpl; [reflexivity|].
  unfold quiet at 1. intros H.
  apply andb_true_iff in H as [H1 H2].
  apply andb_true_iff in H1 as [Ha Hf].
  apply negb_true_iff in Ha, Hf. rewrite Ha, Hf. auto.
Qed.

(** A sequence in phase 2 arms the dispose timer once and fulfils the promise
    once, in this order. *)
Lemma phase_two_shape (l : list op_t) (n : nat) :
  phase n l = Some 2%nat ->
  match n with
  | 0%nat => count is_arm l = 1%nat /\ count is_fulfil l = 1%nat /\
             precedes is_arm is_fulfil l = true /\
             precedes is_fulfil is_arm l = false
  | 1%nat => count is_arm l = 0%nat /\ count is_fulfil l = 1%nat
  | 2%nat => count is_arm l = 0%nat /\ count is_fulfil l = 0%nat
  | _ => False
  end.
Proof.
  revert n. induction l as [|o l IH]; intros n H.
  - simpl in H. injection H as ->. now split.
  - simpl in H. unfold count, precedes in *. simpl.
    destruct (is_arm o) eqn:Ha.
    + destruct n as [|n]; [|discriminate H].
      assert (Hf : is_fulfil o = false) by (destruct o; try discriminate Ha; reflexivity).
      rewrite Hf. specialize (IH 1%nat H). simpl in IH. destruct IH as [IH1 IH2].
      simpl. rewrite IH1, IH2. repeat split.
      * destruct (position is_fulfil l) as [j|] eqn:Hj; [reflexivity|].
        reflexivity.
      * destruct (position is_fulfil l) as [j|] eqn:Hj; reflexivity.
    + destruct (is_fulfil o) eqn:Hf.
      * destruct n as [|[|n]]; try discriminate H.
        specialize (IH 2%nat H). simpl in IH. destruct IH as [IH1 IH2].
        simpl. now rewrite IH1, IH2.
      * specialize (IH n H).
        destruct n as [|[|[|n]]]; try exact IH.
        destruct IH as (IH1 & IH2 & IH3 & IH4). repeat split; try assumption.
        -- destruct (position is_arm l) as [i|]; [|discriminate IH3].
           destruct (position is_fulfil l) as [j|]; simpl in *; assumption.
        -- destruct (position is_fulfil l) as [j|]; [|reflexivity].
           destruct (position is_arm l) as [i|]; simpl in *; assumption.
Qed.

Lemma phase_zero_shape (l : list op_t) (n : nat) :
  phase n l = Some 0%nat ->
  n = 0%nat /\ count is_arm l = 0%nat /\ count is_fulfil l = 0%nat.
Proof.
  revert n. induction l as [|o l IH]; intros n H.
  - simpl in H. injection H as ->. repeat split.
  - simpl in H. unfold count in *. simpl.
    destruct (is_arm o) eqn:Ha.
    + destruct n; [|discriminate H]. apply IH in H as [H _]. discriminate H.
    + destruct (is_fulfil o) eqn:Hf.
      * destruct n as [|[|n]]; try discriminate H.
        apply IH in H as [H _]. discriminate H.
      * apply IH in H. exact H.
Qed.

(** * Lemmas on the methods *)

Section Machine.

Context {collab : collaborators}.
Variable cap : N.

Lemma in_final_state_code (c : conn_impl_t) :
  in_final_state c = final_code (state c).
Proof. unfold in_final_state, final_code. destruct (state c); reflexivity. Qed.

Lemma set_state_open (c : conn_impl_t) (s : error_code_t) :
  in_final_state c = false -> set_state c s = assign_state s c.
Proof. unfold set_state. now intros ->. Qed.

Lemma set_state_closed (c : conn_impl_t) (s : error_code_t) :
  in_final_state c = true -> state c <> EXPIRED -> set_state c s = c.
Proof.
  unfold set_state. intros -> H. simpl.
  destruct (error_code_t_beq (state c) EXPIRED) eqn:E; [|reflexivity].
  apply internal_error_code_t_dec_bl in E. contradiction.
Qed.

(** In EXPIRED, which no life reaches, [set_state] takes any state. *)
Lemma set_state_expired (c : conn_impl_t) (s : error_code_t) :
  state c = EXPIRED -> set_state c s = assign_state s c.
Proof.
  unfold set_state. intros ->. simpl. now rewrite orb_true_r.
Qed.

Lemma good_refl (c : conn_impl_t) : good cap c c.
Proof. split; auto. Qed.

Lemma good_trans (c1 c2 c3 : conn_impl_t) :
  good cap c1 c2 -> good cap c2 c3 -> good cap c1 c3.
Proof.
  intros [A1 A2] [B1 B2]. split; [auto|].
  intros F E. rewrite <- (A2 F E). apply B2.
  - rewrite in_final_state_code in *. now rewrite (A2 F E).
  - now rewrite (A2 F E).
Qed.

(** A step that appends silent operations and leaves the state, the
    promise, the dispose timer, the reuse flag and the redirect counters
    alone. *)
Lemma good_silent (c c' : conn_impl_t) (l : list op_t) :
  state c' = state c ->
  promise c' = promise c ->
  (is_pending h_on_dispose_timer c = false ->
   is_pending h_on_dispose_timer c' = false) ->
  m_is_reused c' = m_is_reused c ->
  rcount c' = rcount c ->
  rcap c' = rcap c ->
  ops c' = (ops c ++ l)%list ->
  forallb silent l = true ->
  good cap c c'.
Proof.
  intros Hs Hp Hd Hm Hrc Hcap Hops Hl.
  assert (Hfin : in_final_state c' = in_final_state c)
    by (rewrite !in_final_state_code; now rewrite Hs).
  assert (Hq : forallb quiet l = true).
  { rewrite forallb_forall in *. intros o Ho. specialize (Hl o Ho).
    unfold silent in Hl. now destruct (quiet o). }
  assert (Hr : count is_restart l = 0%nat /\ count is_redirect l = 0%nat).
  { clear - Hl. induction l as [|o l IH]; [now split|].
    simpl in Hl. apply andb_true_iff in Hl as [Ho Hl].
    destruct (IH Hl) as [IH1 IH2]. unfold count in *. simpl.
    unfold silent in Ho.
    destruct (is_restart o), (is_redirect o), (quiet o);
      try discriminate Ho. now split. }
  destruct Hr as [Hr1 Hr2].
  split; [|intros _ _; exact Hs].
  intros [I1 I2 I3 I4 I5 I6 I7 I8]. split.
  - now rewrite Hs.
  - rewrite Hops, phase_app, I2. unfold fin. rewrite Hfin.
    now apply phase_quiet.
  - rewrite Hfin, Hp. intros F. destruct (I3 F) as [P D]. split; [exact P|exact (Hd D)].
  - rewrite Hfin, Hp. exact I4.
  - rewrite Hops, count_app, Hr1, Hm. lia.
  - rewrite Hops, count_app, Hr2, Hrc, Nat.add_0_r. exact I6.
  - now rewrite Hrc, Hcap.
  - now rewrite Hcap.
Qed.

Lemma good_same (c c' : conn_impl_t) :
  state c' = state c ->
  promise c' = promise c ->
  (is_pending h_on_dispose_timer c = false ->
   is_pending h_on_dispose_timer c' = false) ->
  m_is_reused c' = m_is_reused c ->
  rcount c' = rcount c ->
  rcap c' = rcap c ->
  ops c' = ops c ->
  good cap c c'.
Proof.
  intros. apply good_silent with (l := []); try assumption.
  - now rewrite app_nil_r.
  - reflexivity.
Qed.

Lemma good_emit (o : op_t) (c : conn_impl_t) :
  silent o = true -> good cap c (emit o c).
Proof.
  intros H. apply good_silent with (l := [o]); try reflexivity.
  - auto.
  - simpl. now rewrite H.
Qed.

Lemma good_async (o : op_t) (h : handler_t) (c : conn_impl_t) :
  silent o = true -> h <> h_on_dispose_timer -> good cap c (async o h c).
Proof.
  intros H Hh. apply good_silent with (l := [o]); try reflexivity.
  - unfold is_pending, async. simpl.
    destruct h; auto. contradiction.
  - simpl. now rewrite H.
Qed.

(** Entering a state that is not final. *)
Lemma good_set_state (c : conn_impl_t) (s : error_code_t) :
  final_code s = false -> good cap c (set_state c s).
Proof.
  intros Hs. split.
  - intros I. destruct (in_final_state c) eqn:F.
    + rewrite set_state_closed; auto. apply I.
    + rewrite set_state_open by assumption.
      destruct I as [I1 I2 I3 I4 I5 I6 I7 I8].
      assert (F' : in_final_state (assign_state s c) = false)
        by (rewrite in_final_state_code; exact Hs).
      split; try assumption.
      * simpl. intros ->. discriminate Hs.
      * unfold fin. rewrite F'. unfold fin in I2. now rewrite F in I2.
      * intros _. apply I3. exact F.
      * rewrite F'. discriminate.
  - intros F E. now rewrite set_state_closed.
Qed.


Lemma ext_refl (n : nat) (c : conn_impl_t) : ext n n c c.
Proof.
  repeat split. exists []. rewrite app_nil_r. repeat split.
Qed.

Lemma ext_trans (n m k : nat) (c1 c2 c3 : conn_impl_t) :
  ext n m c1 c2 -> ext m k c2 c3 -> ext n k c1 c3.
Proof.
  intros (A1 & A2 & A3 & A4 & l1 & A5 & A6 & A7 & A8)
         (B1 & B2 & B3 & B4 & l2 & B5 & B6 & B7 & B8).
  repeat split; try congruence.
  exists (l1 ++ l2)%list. repeat split.
  - now rewrite B5, A5, app_assoc.
  - now rewrite phase_app, A6.
  - rewrite count_app. lia.
  - rewrite count_app. lia.
Qed.

Lemma ext_emit (n : nat) (o : op_t) (c : conn_impl_t) :
  silent o = true -> ext n n c (emit o c).
Proof.
  intros H. repeat split. exists [o]. split; [reflexivity|].
  unfold silent, quiet in H. unfold count. simpl.
  destruct (is_arm o), (is_fulfil o), (is_restart o), (is_redirect o);
    try discriminate H. repeat split.
Qed.

Lemma ext_setup_dispose_timer (c : conn_impl_t) :
  ext 0 1 c (setup_dispose_timer c).
Proof. repeat split. eexists. split; [reflexivity|]. repeat split. Qed.

Lemma ext_promise_set_value (r : response_t.t) (c : conn_impl_t) :
  ext 1 2 c (promise_set_value r c).
Proof.
  unfold promise_set_value, promise_set.
  destruct (promise (emit (op_promise_set_value r) c));
    (repeat split; eexists; split; [reflexivity|]; repeat split).
Qed.

Lemma ext_promise_set_exception (e : error_t) (c : conn_impl_t) :
  ext 1 2 c (promise_set_exception e c).
Proof.
  unfold promise_set_exception, promise_set.
  destruct (promise (emit (op_promise_set_exception e) c));
    (repeat split; eexists; split; [reflexivity|]; repeat split).
Qed.

Lemma ext_same (n : nat) (c c' : conn_impl_t) :
  state c' = state c -> m_is_reused c' = m_is_reused c ->
  rcount c' = rcount c -> rcap c' = rcap c -> ops c' = ops c ->
  ext n n c c'.
Proof.
  intros. repeat split; try assumption.
  exists []. rewrite app_nil_r. repeat split. assumption.
Qed.

Ltac ext_chain :=
  lazymatch goal with
  | |- ext _ _ ?c ?c => apply ext_refl
  | |- ext _ _ _ (if ?b then _ else _) => destruct b; ext_chain
  | |- ext _ _ _ (promise_set_value _ ?c1) =>
      eapply ext_trans with (c2 := c1); [ext_chain|apply ext_promise_set_value]
  | |- ext _ _ _ (promise_set_exception _ ?c1) =>
      eapply ext_trans with (c2 := c1); [ext_chain|apply ext_promise_set_exception]
  | |- ext _ _ _ (setup_dispose_timer ?c1) =>
      eapply ext_trans with (c2 := c1); [ext_chain|apply ext_setup_dispose_timer]
  | |- ext _ _ _ (emit ?o ?c1) =>
      eapply ext_trans with (c2 := c1); [ext_chain|apply ext_emit; reflexivity]
  | |- ext _ _ _ (?f ?v ?c1) =>
      eapply ext_trans with (c2 := c1); [ext_chain|apply ext_same; reflexivity]
  | |- ext _ _ _ (?f ?c1) =>
      eapply ext_trans with (c2 := c1); [ext_chain|apply ext_same; reflexivity]
  end.

(** [end_] arms the dispose timer and then fulfils the promise. *)
Lemma end_ext (c : conn_impl_t) : ext 0 2 c (end_ c).
Proof.
  unfold end_, stream_close, stream_cancel. cbv zeta. ext_chain.
Qed.

Lemma end_promise (c : conn_impl_t) : promise (end_ c) <> None.
Proof.
  unfold end_. cbv zeta.
  match goal with |- context [if ?b then _ else _] => destruct b end;
    unfold promise_set_exception, promise_set_value, promise_set;
    match goal with |- context [match ?p with _ => _ end] => destruct p eqn:E end;
    try (rewrite E; discriminate); simpl; discriminate.
Qed.


(** [end_] after a first change to a final state. *)
Lemma good_end (c c2 : conn_impl_t) :
  in_final_state c = false ->
  final_code (state c2) = true ->
  state c2 <> EXPIRED ->
  m_is_reused c2 = m_is_reused c ->
  rcount c2 = rcount c ->
  rcap c2 = rcap c ->
  ops c2 = ops c ->
  good cap c (end_ c2).
Proof.
  intros F Hs He Hm Hrc Hcap Hops.
  destruct (end_ext c2) as (E1 & E2 & E3 & E4 & l & E5 & E6 & E7 & E8).
  assert (F' : in_final_state (end_ c2) = true)
    by (rewrite in_final_state_code, E1; exact Hs).
  split; [|intros F2; rewrite F in F2; discriminate F2].
  intros [I1 I2 I3 I4 I5 I6 I7 I8]. split.
  - now rewrite E1.
  - rewrite E5, Hops, phase_app, I2. unfold fin. now rewrite F, F'.
  - rewrite F'. discriminate.
  - intros _. apply end_promise.
  - rewrite E5, Hops, count_app, E7, E2, Hm. lia.
  - rewrite E5, Hops, count_app, E8, E3, Hrc, Nat.add_0_r. exact I6.
  - now rewrite E3, E4, Hrc, Hcap.
  - now rewrite E4, Hcap.
Qed.

Lemma good_set_error (c : conn_impl_t) (s : error_code_t) (msg : string) :
  final_code s = true -> s <> EXPIRED -> good cap c (set_error c s msg).
Proof.
  intros Hs He. unfold set_error.
  destruct (in_final_state c) eqn:F; [apply good_refl|].
  cbv zeta. rewrite set_state_open by exact F.
  apply good_end; try reflexivity; assumption.
Qed.

Lemma good_set_error_ec (c : conn_impl_t) (s : error_code_t) (e : ec_t) :
  final_code s = true -> s <> EXPIRED -> good cap c (set_error_ec c s e).
Proof.
  intros Hs He. unfold set_error_ec.
  destruct (ec_t_beq e operation_aborted); [apply good_refl|].
  now apply good_set_error.
Qed.

Ltac conn_arg t :=
  lazymatch t with
  | ?f ?x =>
      let T := type of x in
      lazymatch T with
      | conn_impl_t => constr:(x)
      | _ => conn_arg f
      end
  end.

(** The lemma for the method or the assignment at the head of the goal. *)
Ltac method_step := fail.

Ltac good_step :=
  lazymatch goal with
  | |- good _ ?c (set_error ?c _ _) =>
      apply good_set_error; [reflexivity | discriminate]
  | |- good _ ?c (set_error_ec ?c _ _) =>
      apply good_set_error_ec; [reflexivity | discriminate]
  | |- good _ ?c (emit _ ?c) => apply good_emit; reflexivity
  | |- good _ ?c (async _ _ ?c) =>
      apply good_async; [reflexivity | discriminate]
  | |- good _ ?c (set_state ?c _) => apply good_set_state; reflexivity
  | |- good _ ?c (set_stream_is_open _ ?c) =>
      apply good_same; first [reflexivity | exact (fun H => H)]
  | |- good _ ?c (set_response _ ?c) =>
      apply good_same; first [reflexivity | exact (fun H => H)]
  | |- good _ ?c (set_request_buf _ ?c) =>
      apply good_same; first [reflexivity | exact (fun H => H)]
  | |- good _ ?c (set_response_buf _ ?c) =>
      apply good_same; first [reflexivity | exact (fun H => H)]
  | |- good _ ?c (set_header_field _ ?c) =>
      apply good_same; first [reflexivity | exact (fun H => H)]
  | |- good _ ?c (set_content_length _ ?c) =>
      apply good_same; first [reflexivity | exact (fun H => H)]
  | |- good _ ?c (set_raw _ ?c) =>
      apply good_same; first [reflexivity | exact (fun H => H)]
  | |- good _ ?c (set_headers _ ?c) =>
      apply good_same; first [reflexivity | exact (fun H => H)]
  | |- good _ ?c (set_calling _ ?c) =>
      apply good_same; first [reflexivity | exact (fun H => H)]
  | |- _ => method_step
  end.

Ltac chain0 :=
  lazymatch goal with
  | |- good _ ?c ?c => apply good_refl
  | H : good _ ?c0 ?c1 |- good _ _ ?c1 =>
      apply good_trans with c0; [chain0 | exact H]
  | |- good _ _ (if ?b then _ else _) => destruct b eqn:?; chain0
  | |- good _ _ (match ?x with _ => _ end) => destruct x eqn:?; chain0
  | |- good _ _ ?t =>
      let c1 := conn_arg t in
      apply good_trans with c1; [chain0 | good_step]
  end.

Lemma good_run_callback (c : conn_impl_t) (cb : parser_cb) :
  good cap c (run_callback c cb).
Proof.
  destruct cb; unfold run_callback, status_fn, header_field_fn,
    header_value_fn, headers_complete_fn, body_fn, chunk_header_fn;
    cbv zeta; chain0.
Qed.

Lemma good_fold_callbacks (l : list parser_cb) (c : conn_impl_t) :
  good cap c (fold_left run_callback l c).
Proof.
  revert c. induction l as [|cb l IH]; intros c; simpl; [apply good_refl|].
  apply good_trans with (run_callback c cb);
    [apply good_run_callback | apply IH].
Qed.

Lemma good_execute_parser (c : conn_impl_t) (p : parse_t) :
  good cap c (fst (execute_parser c p)).
Proof.
  unfold execute_parser. cbv zeta. simpl fst.
  apply good_trans with (fold_left run_callback (callbacks p) c);
    [apply good_fold_callbacks | good_step].
Qed.

Ltac chain :=
  lazymatch goal with
  | |- good _ ?c ?c => apply good_refl
  | H : good _ ?c0 ?c1 |- good _ _ ?c1 =>
      apply good_trans with c0; [chain | exact H]
  | |- good _ _ (if ?b then _ else _) => destruct b eqn:?; chain
  | |- good _ _ (match execute_parser ?c0 ?p with _ => _ end) =>
      let H := fresh "H" in
      pose proof (good_execute_parser c0 p) as H;
      destruct (execute_parser c0 p) as [? ?]; simpl fst in H; chain
  | |- good _ _ (match ?x with _ => _ end) => destruct x eqn:?; chain
  | |- good _ _ ?t =>
      let c1 := conn_arg t in
      apply good_trans with c1; [chain | good_step]
  end.

(** A step that appends quiet operations, among them restarts that use up the
    reuse flag and redirects that the redirect counter counts. *)
Lemma good_append (c c' : conn_impl_t) (l : list op_t) :
  state c' = state c ->
  promise c' = promise c ->
  (is_pending h_on_dispose_timer c = false ->
   is_pending h_on_dispose_timer c' = false) ->
  rcap c' = rcap c ->
  ops c' = (ops c ++ l)%list ->
  forallb quiet l = true ->
  (count is_restart l + b2n (m_is_reused c') <= b2n (m_is_reused c))%nat ->
  rcount c' = rcount c + N.of_nat (count is_redirect l) ->
  (rcount c <= rcap c -> rcount c' <= rcap c) ->
  good cap c c'.
Proof.
  intros Hs Hp Hd Hcap Hops Hq Hm Hrc Hle.
  assert (Hfin : in_final_state c' = in_final_state c)
    by (rewrite !in_final_state_code; now rewrite Hs).
  split; [|intros _ _; exact Hs].
  intros [I1 I2 I3 I4 I5 I6 I7 I8]. split.
  - now rewrite Hs.
  - rewrite Hops, phase_app, I2. unfold fin. rewrite Hfin.
    now apply phase_quiet.
  - rewrite Hfin, Hp. intros F. destruct (I3 F) as [P D].
    split; [exact P|exact (Hd D)].
  - rewrite Hfin, Hp. exact I4.
  - rewrite Hops, count_app. lia.
  - rewrite Hops, count_app, Hrc, <- I6. lia.
  - rewrite Hcap. auto.
  - now rewrite Hcap.
Qed.

Lemma good_prepare_parser (c : conn_impl_t) : good cap c (prepare_parser c).
Proof. unfold prepare_parser. cbv zeta. chain. Qed.

Lemma good_setup_timeout (c : conn_impl_t) : good cap c (setup_timeout c).
Proof. unfold setup_timeout. chain. Qed.

Lemma good_stream_cancel (c : conn_impl_t) : good cap c (stream_cancel c).
Proof. unfold stream_cancel. chain. Qed.

Lemma good_stream_close (c : conn_impl_t) : good cap c (stream_close c).
Proof. unfold stream_close. chain. Qed.

Lemma good_stream_new (c : conn_impl_t) : good cap c (stream_new c).
Proof. unfold stream_new. chain. Qed.

Lemma good_parser_new (c : conn_impl_t) : good cap c (parser_new c).
Proof. unfold parser_new. chain. Qed.

Lemma good_resolve (c : conn_impl_t) : good cap c (resolve c).
Proof. unfold resolve. cbv zeta. chain. Qed.

Lemma good_connect (c : conn_impl_t) : good cap c (connect c).
Proof. unfold connect. cbv zeta. chain. Qed.

Lemma good_handshake (c : conn_impl_t) : good cap c (handshake c).
Proof. unfold handshake. cbv zeta. chain. Qed.

Lemma good_write (c : conn_impl_t) : good cap c (write c).
Proof. unfold write. cbv zeta. chain. Qed.

Lemma good_read_status (c : conn_impl_t) : good cap c (read_status c).
Proof. unfold read_status. cbv zeta. chain. Qed.

Lemma good_read_headers (c : conn_impl_t) : good cap c (read_headers c).
Proof. unfold read_headers. cbv zeta. chain. Qed.

Lemma good_read_content_length (c : conn_impl_t) :
  good cap c (read_content_length c).
Proof. unfold read_content_length. cbv zeta. chain. Qed.

Lemma good_read_chunk_header (c : conn_impl_t) :
  good cap c (read_chunk_header c).
Proof. unfold read_chunk_header. cbv zeta. chain. Qed.

Lemma good_read_chunk_data (c : conn_impl_t) : good cap c (read_chunk_data c).
Proof. unfold read_chunk_data. cbv zeta. chain. Qed.

Lemma good_read_until_eof (c : conn_impl_t) : good cap c (read_until_eof c).
Proof. unfold read_until_eof. cbv zeta. chain. Qed.

Ltac method_step ::=
  lazymatch goal with
  | |- good _ ?c (prepare_parser ?c) => apply good_prepare_parser
  | |- good _ ?c (setup_timeout ?c) => apply good_setup_timeout
  | |- good _ ?c (stream_cancel ?c) => apply good_stream_cancel
  | |- good _ ?c (stream_close ?c) => apply good_stream_close
  | |- good _ ?c (stream_new ?c) => apply good_stream_new
  | |- good _ ?c (parser_new ?c) => apply good_parser_new
  | |- good _ ?c (resolve ?c) => apply good_resolve
  | |- good _ ?c (connect ?c) => apply good_connect
  | |- good _ ?c (handshake ?c) => apply good_handshake
  | |- good _ ?c (write ?c) => apply good_write
  | |- good _ ?c (read_status ?c) => apply good_read_status
  | |- good _ ?c (read_headers ?c) => apply good_read_headers
  | |- good _ ?c (read_content_length ?c) => apply good_read_content_length
  | |- good _ ?c (read_chunk_header ?c) => apply good_read_chunk_header
  | |- good _ ?c (read_chunk_data ?c) => apply good_read_chunk_data
  | |- good _ ?c (read_until_eof ?c) => apply good_read_until_eof
  end.


Lemma good_read_content (c : conn_impl_t) : good cap c (read_content c).
Proof. unfold read_content. chain. Qed.

(** Following a redirect counts it. *)
Lemma good_perform_redirect (c : conn_impl_t) :
  good cap c (perform_redirect c).
Proof.
  unfold perform_redirect.
  destruct (is_redirect_exhausted (response c)) eqn:X; [good_step|].
  destruct (headers_count (response_t.headers (response c)) "Location" =? 0);
    [good_step|].
  cbv zeta.
  match goal with
  | |- context [emit (op_redirect ?loc) ?x] =>
      assert (H : good cap c (emit (op_redirect loc) x))
  end.
  { eapply good_append with (l := [_]); try reflexivity.
    - auto.
    - unfold rcap, request. simpl. now rewrite prepare_redirect_count.
    - intros _. unfold is_redirect_exhausted in X. apply N.leb_gt in X.
      unfold rcount, rcap, request. simpl. lia. }
  chain.
Qed.

Lemma good_set_success (c : conn_impl_t) : good cap c (set_success c).
Proof.
  unfold set_success.
  destruct (is_redirect_code (response_t.status_code (response c))).
  - destruct (request_t.redirect (request c));
      [apply good_perform_redirect | apply good_refl].
  - destruct (in_final_state c) eqn:F; simpl; [apply good_refl|].
    rewrite set_state_open by exact F.
    apply good_end; try reflexivity. exact F. discriminate.
Qed.

Lemma good_set_timeout (c : conn_impl_t) : good cap c (set_timeout c).
Proof.
  unfold set_timeout.
  destruct (in_final_state c) eqn:F.
  - chain.
  - cbv zeta. rewrite set_state_open by exact F.
    apply good_end; try reflexivity. exact F. discriminate.
Qed.

Lemma good_on_timeout (c : conn_impl_t) (e : ec_t) : good cap c (on_timeout c e).
Proof.
  unfold on_timeout. destruct (negb (ec_bool e));
    [apply good_set_timeout | apply good_refl].
Qed.

(** A restart uses up the reuse flag. *)
Lemma good_restart (c : conn_impl_t) :
  is_reused c = true -> good cap c (restart c).
Proof.
  intros R. unfold restart, start_with. cbv beta zeta.
  match goal with
  | |- context [set_m_is_reused false ?x] =>
      assert (H : good cap c (set_m_is_reused false x))
  end.
  { apply good_append
      with (l := [op_restart; op_stream_cancel; op_stream_new; op_parser_new]);
      try reflexivity.
    - auto.
    - simpl. now rewrite <- !app_assoc.
    - unfold is_reused in R. rewrite R. unfold count. simpl. lia.
    - unfold rcount. simpl. lia.
    - intros. unfold rcount, rcap, request. simpl.
      unfold rcount, rcap, request in *. assumption. }
  chain.
Qed.

Ltac method_step ::=
  lazymatch goal with
  | |- good _ ?c (prepare_parser ?c) => apply good_prepare_parser
  | |- good _ ?c (setup_timeout ?c) => apply good_setup_timeout
  | |- good _ ?c (stream_cancel ?c) => apply good_stream_cancel
  | |- good _ ?c (stream_close ?c) => apply good_stream_close
  | |- good _ ?c (stream_new ?c) => apply good_stream_new
  | |- good _ ?c (parser_new ?c) => apply good_parser_new
  | |- good _ ?c (resolve ?c) => apply good_resolve
  | |- good _ ?c (connect ?c) => apply good_connect
  | |- good _ ?c (handshake ?c) => apply good_handshake
  | |- good _ ?c (write ?c) => apply good_write
  | |- good _ ?c (read_status ?c) => apply good_read_status
  | |- good _ ?c (read_headers ?c) => apply good_read_headers
  | |- good _ ?c (read_content_length ?c) => apply good_read_content_length
  | |- good _ ?c (read_chunk_header ?c) => apply good_read_chunk_header
  | |- good _ ?c (read_chunk_data ?c) => apply good_read_chunk_data
  | |- good _ ?c (read_until_eof ?c) => apply good_read_until_eof
  | |- good _ ?c (read_content ?c) => apply good_read_content
  | |- good _ ?c (perform_redirect ?c) => apply good_perform_redirect
  | |- good _ ?c (set_success ?c) => apply good_set_success
  | |- good _ ?c (set_timeout ?c) => apply good_set_timeout
  | |- good _ ?c (restart ?c) => apply good_restart; assumption
  end.


Lemma good_start (c : conn_impl_t) : good cap c (start c).
Proof. unfold start, start_with. cbv zeta. chain. Qed.

Lemma good_on_resolve (c : conn_impl_t) (e : ec_t) : good cap c (on_resolve c e).
Proof. unfold on_resolve. chain. Qed.

Lemma good_on_connect (c : conn_impl_t) (e : ec_t) : good cap c (on_connect c e).
Proof. unfold on_connect. cbv zeta. chain. Qed.

Lemma good_on_handshake (c : conn_impl_t) (e : ec_t) :
  good cap c (on_handshake c e).
Proof. unfold on_handshake. chain. Qed.

Lemma good_on_write (c : conn_impl_t) (e : ec_t) : good cap c (on_write c e).
Proof.
  unfold on_write.
  destruct (ec_bool e); [|chain].
  destruct (is_socket_closed e); simpl; [|chain].
  destruct (is_reused c) eqn:R; simpl; [|chain].
  chain.
Qed.

Lemma good_on_read_status (c : conn_impl_t) (e : ec_t) (p : parse_t) :
  good cap c (on_read_status c e p).
Proof.
  unfold on_read_status.
  destruct (ec_bool e); [|chain].
  destruct (is_socket_closed e); simpl; [|chain].
  destruct (is_reused c) eqn:R; simpl; [|chain].
  chain.
Qed.

Lemma good_on_read_headers (c : conn_impl_t) (e : ec_t) (p : parse_t) :
  good cap c (on_read_headers c e p).
Proof. unfold on_read_headers. cbv zeta. chain. Qed.

Lemma good_on_read_content_length (c : conn_impl_t) (e : ec_t) (p : parse_t) :
  good cap c (on_read_content_length c e p).
Proof. unfold on_read_content_length. chain. Qed.

Lemma good_on_read_chunk_header (c : conn_impl_t) (e : ec_t) (p : parse_t) :
  good cap c (on_read_chunk_header c e p).
Proof. unfold on_read_chunk_header. cbv zeta. chain. Qed.

Lemma good_on_read_chunk_data (c : conn_impl_t) (e : ec_t) (p : parse_t) :
  good cap c (on_read_chunk_data c e p).
Proof. unfold on_read_chunk_data. chain. Qed.

Lemma good_on_read_until_eof (c : conn_impl_t) (e : ec_t) (p : parse_t) :
  good cap c (on_read_until_eof c e p).
Proof. unfold on_read_until_eof. chain. Qed.

(** The dispose timer fires in a final state, where [set_state] keeps the
    state. *)
Lemma on_dispose_timer_closed (c : conn_impl_t) (e : ec_t) :
  in_final_state c = true -> state c <> EXPIRED -> on_dispose_timer c e = c.
Proof.
  intros F E. unfold on_dispose_timer, set_dispose.
  destruct (negb (ec_bool e)); [|reflexivity].
  now apply set_state_closed.
Qed.

Lemma remove_pending_absent (h d : handler_t) (l : list handler_t) :
  existsb (handler_t_beq d) l = false ->
  existsb (handler_t_beq d) (remove_pending h l) = false.
Proof.
  induction l as [|x l IH]; simpl; [auto|].
  intros H. apply orb_false_iff in H as [H1 H2].
  destruct (handler_t_beq h x); [exact H2|].
  simpl. rewrite H1. now apply IH.
Qed.

Lemma good_unpend (c : conn_impl_t) (h : handler_t) :
  good cap c (set_pending (remove_pending h (pending c)) c).
Proof.
  apply good_same; try reflexivity.
  unfold is_pending. simpl. apply remove_pending_absent.
Qed.

Lemma good_deliver (c : conn_impl_t) (h : handler_t) (k : completion_t) :
  good cap c (deliver h k c).
Proof. unfold deliver. destruct h; chain. Qed.

Lemma good_handle (c : conn_impl_t) (h : handler_t) (k : completion_t) :
  h <> h_on_dispose_timer -> good cap c (handle h k c).
Proof.
  intros Hh. destruct h; simpl;
    [ apply good_on_resolve | apply good_on_connect | apply good_on_handshake
    | apply good_on_write | apply good_on_read_status
    | apply good_on_read_headers | apply good_on_read_content_length
    | apply good_on_read_chunk_header | apply good_on_read_chunk_data
    | apply good_on_read_until_eof | apply good_on_timeout | contradiction ].
Qed.

(** Every event keeps the invariant and keeps a final state. *)
Lemma good_dispatch (c : conn_impl_t) (ev : event_t) :
  good cap c (dispatch c ev).
Proof.
  unfold dispatch.
  destruct (calling c) as [[e n|e n]|] eqn:C; destruct ev as [|h k|p];
    try apply good_refl.
  - apply good_trans with (set_calling None c); [good_step|].
    apply good_on_read_chunk_header.
  - apply good_trans with (set_calling None c); [good_step|].
    apply good_on_read_chunk_data.
  - apply good_start.
  - destruct (is_pending h c) eqn:P; [|apply good_refl].
    set (c1 := set_pending (remove_pending h (pending c)) c).
    assert (G1 : good cap c (deliver h k c1)).
    { apply good_trans with c1; [apply good_unpend | apply good_deliver]. }
    destruct (handler_t_eq_dec h h_on_dispose_timer) as [->|Hh].
    + split.
      * intros I. destruct (in_final_state c) eqn:F.
        -- simpl. rewrite on_dispose_timer_closed;
             [apply (proj1 G1 I) | exact F | apply I].
        -- destruct (inv_open cap c I F) as [_ D]. rewrite D in P. discriminate P.
      * intros F E. simpl. rewrite on_dispose_timer_closed; auto.
    + apply good_trans with (deliver h k c1); [exact G1|].
      now apply good_handle.
Qed.

Lemma good_run (evs : list event_t) (c : conn_impl_t) :
  good cap c (run c evs).
Proof.
  revert c. induction evs as [|ev evs IH]; intros c; simpl; [apply good_refl|].
  apply good_trans with (dispatch c ev); [apply good_dispatch | apply IH].
Qed.

Lemma invariant_step (c : conn_impl_t) (ev : event_t) :
  invariant cap c -> invariant cap (dispatch c ev).
Proof. apply good_dispatch. Qed.

Lemma invariant_run (c : conn_impl_t) (evs : list event_t) :
  invariant cap c -> invariant cap (run c evs).
Proof. apply good_run. Qed.

(** A final state is kept by every event. *)
Lemma final_state_kept (c : conn_impl_t) (ev : event_t) :
  invariant cap c -> in_final_state c = true ->
  state (dispatch c ev) = state c.
Proof.
  intros I F. apply good_dispatch; [exact F | apply I].
Qed.

Lemma final_state_kept_run (c : conn_impl_t) (evs : list event_t) :
  invariant cap c -> in_final_state c = true ->
  state (run c evs) = state c.
Proof.
  intros I F. apply good_run; [exact F | apply I].
Qed.

Lemma error_code_beq_refl (s : error_code_t) : error_code_t_beq s s = true.
Proof. now apply internal_error_code_t_dec_lb. Qed.

(** The changes to a final state in a life: none from a final state, and
    from a state that is not final one if the life ends final and none
    otherwise. *)
Lemma terminal_transitions_run (c : conn_impl_t) (evs : list event_t) :
  invariant cap c ->
  terminal_transitions c evs =
  if in_final_state c then 0%nat
  else if in_final_state (run c evs) then 1%nat else 0%nat.
Proof.
  revert c. induction evs as [|ev evs IH]; intros c I.
  - simpl. now destruct (in_final_state c).
  - simpl. pose proof (invariant_step c ev I) as I'.
    rewrite (IH _ I').
    destruct (in_final_state c) eqn:F.
    + pose proof (final_state_kept c ev I F) as K.
      assert (F' : in_final_state (dispatch c ev) = true)
        by (rewrite in_final_state_code, K, <- in_final_state_code; exact F).
      rewrite F', K, error_code_beq_refl. reflexivity.
    + destruct (in_final_state (dispatch c ev)) eqn:F'.
      * assert (N : error_code_t_beq (state c) (state (dispatch c ev)) = false).
        { destruct (error_code_t_beq (state c) (state (dispatch c ev))) eqn:B;
            [|reflexivity].
          apply internal_error_code_t_dec_bl in B.
          rewrite !in_final_state_code, B in *. congruence. }
        rewrite N. simpl.
        assert (R : in_final_state (run (dispatch c ev) evs) = true).
        { rewrite in_final_state_code, (final_state_kept_run _ evs I' F'),
            <- in_final_state_code. exact F'. }
        now rewrite R.
      * reflexivity.
Qed.

(** The finalization order of a connection's operations. *)
Lemma fulfilment_shape (c : conn_impl_t) :
  invariant cap c ->
  if in_final_state c
  then count is_arm (ops c) = 1%nat /\ count is_fulfil (ops c) = 1%nat /\
       precedes is_arm is_fulfil (ops c) = true /\
       precedes is_fulfil is_arm (ops c) = false
  else count is_arm (ops c) = 0%nat /\ count is_fulfil (ops c) = 0%nat.
Proof.
  intros I. pose proof (inv_phase cap c I) as P. unfold fin in P.
  destruct (in_final_state c).
  - exact (phase_two_shape _ _ P).
  - apply phase_zero_shape in P. tauto.
Qed.

Lemma state_end (c : conn_impl_t) : state (end_ c) = state c.
Proof. apply end_ext. Qed.

Lemma state_set_error (c : conn_impl_t) (s : error_code_t) (msg : string) :
  in_final_state c = false -> state (set_error c s msg) = s.
Proof.
  intros F. unfold set_error. rewrite F. cbv zeta.
  rewrite state_end, set_state_open by exact F. reflexivity.
Qed.

(** [set_error] appends no restart and no redirect. *)
Lemma ops_set_error (c : conn_impl_t) (s : error_code_t) (msg : string) :
  exists l, ops (set_error c s msg) = (ops c ++ l)%list /\
            count is_restart l = 0%nat /\ count is_redirect l = 0%nat.
Proof.
  unfold set_error. destruct (in_final_state c) eqn:F.
  - exists []. rewrite app_nil_r. repeat split.
  - cbv zeta. rewrite set_state_open by exact F.
    match goal with
    | |- context [end_ ?x] =>
        destruct (end_ext x) as (_ & _ & _ & _ & l & E & _ & R1 & R2)
    end.
    exists l. repeat split; assumption.
Qed.

(** The timeout ends every life: after [set_timeout] the state is final. *)
Lemma set_timeout_final (c : conn_impl_t) :
  in_final_state (set_timeout c) = true.
Proof.
  unfold set_timeout. destruct (in_final_state c) eqn:F.
  - now destruct (negb (request_t.keep_alive (request c))).
  - cbv zeta. rewrite in_final_state_code, state_end.
    rewrite set_state_open by exact F. reflexivity.
Qed.

Lemma timeout_expiry_final (c : conn_impl_t) (k : completion_t) :
  calling c = None ->
  is_pending h_on_timeout c = true ->
  ec k = no_error ->
  in_final_state (dispatch c (ev_complete h_on_timeout k)) = true.
Proof.
  intros C P E. unfold dispatch. rewrite C, P.
  cbn [handle deliver]. unfold on_timeout. rewrite E.
  apply set_timeout_final.
Qed.

(** [start] arms the timeout timer. *)
Lemma start_arms_timeout (c : conn_impl_t) :
  is_pending h_on_timeout (start c) = true.
Proof. reflexivity. Qed.

(** [restart] is the reset of stream, parser and reuse flag followed by
    [start]. *)
Lemma restart_calls_start (c : conn_impl_t) :
  restart c =
  start (set_m_is_reused false
           (parser_new (stream_new (stream_cancel (emit op_restart c))))).
Proof.
  unfold restart, start, start_with. cbv zeta beta.
  repeat match goal with
  | |- context [if is_reused ?x then _ else _] =>
      change (is_reused x) with false
  end.
  reflexivity.
Qed.

Lemma run_app (c : conn_impl_t) (evs1 evs2 : list event_t) :
  run c (evs1 ++ evs2) = run (run c evs1) evs2.
Proof. apply fold_left_app. Qed.

Lemma invariant_constructed (c : conn_impl_t) :
  constructed c -> invariant (rcap c) c.
Proof.
  intros [r|r o rd]; split; simpl; try reflexivity; try discriminate;
    try (intros _; split; reflexivity); try lia;
    try (unfold rcount, rcap, request; simpl; lia).
Qed.

End Machine.

(** * The claims on the connection state machine *)

Section Claims.

Context {collab : collaborators}.

(** C1.  Over the life of a connection, built by either constructor and
    driven by any sequence of events, the state changes to a final state at
    most once, and exactly once in a life that ends in a final state, as
    every life does in which the timeout timer expires.  Once the state is
    final, no event, no [set_state] and no [set_error] replaces it by a
    state other than itself or EXPIRED. *)
Theorem one_terminal_transition (c0 : conn_impl_t) (evs : list event_t) :
  constructed c0 ->
  let c := run c0 evs in
  (terminal_transitions c0 evs <= 1)%nat /\
  (in_final_state c = true -> terminal_transitions c0 evs = 1%nat) /\
  (forall k : completion_t,
     calling c = None -> is_pending h_on_timeout c = true ->
     ec k = no_error ->
     terminal_transitions c0 (evs ++ [ev_complete h_on_timeout k]) = 1%nat) /\
  (in_final_state c = true ->
   forall (ev : event_t) (s : error_code_t) (msg : string),
     (state (dispatch c ev) = state c \/ state (dispatch c ev) = EXPIRED) /\
     (state (set_state c s) = state c \/ state (set_state c s) = EXPIRED) /\
     (state (set_error c s msg) = state c \/
      state (set_error c s msg) = EXPIRED)).
Proof.
  intros C c.
  pose proof (invariant_constructed c0 C) as I0.
  pose proof (invariant_run _ c0 evs I0) as I. fold c in I.
  assert (F0 : in_final_state c0 = false) by (destruct C; reflexivity).
  rewrite (terminal_transitions_run _ c0 evs I0), F0. fold c.
  split; [destruct (in_final_state c); lia|].
  split; [now intros ->|].
  split.
  - intros k L P E.
    rewrite (terminal_transitions_run _ c0 _ I0), F0, run_app. fold c.
    cbn [run fold_left]. now rewrite timeout_expiry_final.
  - intros F ev s msg. repeat split.
    + left. now apply (final_state_kept (rcap c0)).
    + left. rewrite set_state_closed; [reflexivity | assumption | apply I].
    + left. unfold set_error. now rewrite F.
Qed.


(** C2, as amended.  In every life of a connection the promise is fulfilled
    at most once; it is fulfilled exactly when the state is final, by the
    event that makes the state final, as the expiry of the timeout timer does
    at the latest; and in the sequence of operations the arming of the
    dispose timer comes first and the fulfilment after it. *)
Theorem promise_fulfilled_once (c0 : conn_impl_t) (evs : list event_t) :
  constructed c0 ->
  let c := run c0 evs in
  (count is_fulfil (ops c) <= 1)%nat /\
  (in_final_state c = true <-> count is_fulfil (ops c) = 1%nat) /\
  (in_final_state c = true <-> promise c <> None) /\
  (in_final_state c = true ->
   count is_arm (ops c) = 1%nat /\
   precedes is_arm is_fulfil (ops c) = true /\
   precedes is_fulfil is_arm (ops c) = false) /\
  (forall ev : event_t,
     count is_fulfil (ops (dispatch c ev)) =
     (count is_fulfil (ops c) +
      b2n (negb (in_final_state c) && in_final_state (dispatch c ev)))%nat) /\
  (forall k : completion_t,
     calling c = None -> is_pending h_on_timeout c = true ->
     ec k = no_error ->
     count is_fulfil (ops (dispatch c (ev_complete h_on_timeout k))) = 1%nat).
Proof.
  intros C c.
  pose proof (invariant_constructed c0 C) as I0.
  pose proof (invariant_run _ c0 evs I0) as I. fold c in I.
  pose proof (fulfilment_shape _ c I) as S.
  split; [|split; [|split; [|split; [|split]]]].
  - destruct (in_final_state c); destruct S as (? & S); try destruct S; lia.
  - split.
    + intros F. rewrite F in S. apply S.
    + intros E. destruct (in_final_state c); [reflexivity|].
      destruct S as [_ S]. rewrite S in E. discriminate E.
  - split.
    + intros F. now apply (inv_closed _ c I).
    + intros P. destruct (in_final_state c) eqn:F; [reflexivity|].
      destruct (inv_open _ c I F) as [N _]. contradiction.
  - intros F. rewrite F in S. repeat split; apply S.
  - intros ev.
    pose proof (invariant_step _ c ev I) as I'.
    pose proof (fulfilment_shape _ _ I') as S'.
    destruct (in_final_state c) eqn:F.
    + pose proof (final_state_kept _ c ev I F) as K.
      assert (F' : in_final_state (dispatch c ev) = true)
        by (rewrite in_final_state_code, K, <- in_final_state_code; exact F).
      rewrite F' in S'. simpl.
      destruct S as (_ & S & _). destruct S' as (_ & S' & _). lia.
    + destruct (in_final_state (dispatch c ev)); simpl.
      * destruct S as (_ & S). destruct S' as (_ & S' & _). lia.
      * destruct S as (_ & S). destruct S' as (_ & S'). lia.
  - intros k L P E.
    pose proof (invariant_step _ c (ev_complete h_on_timeout k) I) as I'.
    pose proof (fulfilment_shape _ _ I') as S'.
    rewrite (timeout_expiry_final c k L P E) in S'. apply S'.
Qed.

(** C3, what the code does.  With a redirect status and [redirect] off,
    [set_success] leaves the connection as it is: the state is not changed
    to SUCCESS and the promise is not fulfilled. *)
Theorem set_success_skips_disabled_redirect (c : conn_impl_t) :
  is_redirect_code (response_t.status_code (response c)) = true ->
  request_t.redirect (request c) = false ->
  set_success c = c.
Proof.
  intros R D. unfold set_success. now rewrite R, D.
Qed.

(** C4, what the code does.  No life of a connection reaches EXPIRED:
    [is_expired] is false throughout, and in a final state [set_dispose],
    which the dispose timer calls, leaves the connection as it is. *)
Theorem dispose_timer_never_expires (c0 : conn_impl_t) (evs : list event_t) :
  constructed c0 ->
  let c := run c0 evs in
  is_expired c = false /\
  (in_final_state c = true ->
   forall k : completion_t,
     set_dispose c = c /\
     state (dispatch c (ev_complete h_on_dispose_timer k)) = state c /\
     is_expired (dispatch c (ev_complete h_on_dispose_timer k)) = false).
Proof.
  intros C c.
  pose proof (invariant_constructed c0 C) as I0.
  pose proof (invariant_run _ c0 evs I0) as I. fold c in I.
  assert (X : forall c', invariant (rcap c0) c' -> is_expired c' = false).
  { intros c' I'. unfold is_expired.
    destruct (error_code_t_beq (state c') EXPIRED) eqn:B; [|reflexivity].
    apply internal_error_code_t_dec_bl in B. now apply I' in B. }
  split; [now apply X|].
  intros F k. repeat split.
  - unfold set_dispose. apply set_state_closed; [exact F | apply I].
  - now apply (final_state_kept (rcap c0)).
  - apply X. now apply invariant_step.
Qed.

(** [restart] clears the reuse flag. *)
Lemma set_state_reused (c : conn_impl_t) (s : error_code_t) :
  m_is_reused (set_state c s) = m_is_reused c.
Proof. unfold set_state. now destruct (_ || _). Qed.

Lemma resolve_reused (c : conn_impl_t) :
  m_is_reused (resolve c) = m_is_reused c.
Proof.
  unfold resolve. cbv zeta.
  change (m_is_reused (set_state c RESOLVE) = m_is_reused c).
  apply set_state_reused.
Qed.

Lemma setup_timeout_reused (c : conn_impl_t) :
  m_is_reused (setup_timeout c) = m_is_reused c.
Proof. reflexivity. Qed.

Lemma restart_clears_reused (c : conn_impl_t) : is_reused (restart c) = false.
Proof.
  unfold restart, start_with. cbv zeta beta.
  match goal with
  | |- context [if is_reused ?x then _ else _] =>
      change (is_reused x) with false
  end.
  cbv iota. unfold is_reused.
  rewrite setup_timeout_reused, resolve_reused. reflexivity.
Qed.

Lemma socket_closed_is_error (e : ec_t) :
  is_socket_closed e = true ->
  ec_bool e = true /\ ec_t_beq e operation_aborted = false.
Proof. destruct e; try discriminate; now split. Qed.

(** C5.  In every life of a connection [restart] runs at most once.  It
    clears the reuse flag; and once a connection has restarted, a
    socket-closed error at the write or at the status read, in a state that
    is not final, ends in WRITE_ERROR or READ_STATUS_ERROR and is no further
    restart. *)
Theorem restart_at_most_once (c0 : conn_impl_t) (evs : list event_t) :
  constructed c0 ->
  let c := run c0 evs in
  (count is_restart (ops c) <= 1)%nat /\
  (forall c' : conn_impl_t, is_reused (restart c') = false) /\
  (count is_restart (ops c) = 1%nat ->
   is_reused c = false /\
   (in_final_state c = false ->
    forall (e : ec_t) (p : parse_t),
      is_socket_closed e = true ->
      state (on_write c e) = WRITE_ERROR /\
      count is_restart (ops (on_write c e)) = 1%nat /\
      state (on_read_status c e p) = READ_STATUS_ERROR /\
      count is_restart (ops (on_read_status c e p)) = 1%nat)).
Proof.
  intros C c.
  pose proof (invariant_constructed c0 C) as I0.
  pose proof (invariant_run _ c0 evs I0) as I. fold c in I.
  pose proof (inv_restart _ c I) as R.
  split; [lia|]. split; [exact restart_clears_reused|].
  intros One.
  assert (U : is_reused c = false).
  { unfold is_reused. destruct (m_is_reused c); [simpl in R; lia|reflexivity]. }
  split; [exact U|].
  intros F e p S. destruct (socket_closed_is_error e S) as [B A].
  unfold on_write, on_read_status. rewrite B, S, U.
  cbv beta iota delta [andb].
  unfold set_error_ec. rewrite A.
  destruct (ops_set_error c WRITE_ERROR (ec_message e)) as (l1 & E1 & Z1 & _).
  destruct (ops_set_error c READ_STATUS_ERROR (ec_message e))
    as (l2 & E2 & Z2 & _).
  rewrite !state_set_error by exact F.
  rewrite E1, E2, !count_app, Z1, Z2. repeat split; lia.
Qed.

(** C6.  In every life of a connection the number of redirects followed is
    at most the redirect limit of its request.  [perform_redirect] follows a
    redirect only when the redirect counter of the response is below the
    limit; with a limit of zero, redirects on, a redirect status and a state
    that is not final, [set_success] ends in REDIRECT_EXHAUSTED and follows
    no redirect. *)
Theorem redirects_within_limit (c0 : conn_impl_t) (evs : list event_t) :
  constructed c0 ->
  let c := run c0 evs in
  N.of_nat (count is_redirect (ops c)) <= rcap c0 /\
  rcap c = rcap c0 /\
  (forall c' : conn_impl_t,
     count is_redirect (ops (perform_redirect c')) <>
     count is_redirect (ops c') ->
     rcount c' < rcap c') /\
  (forall c' : conn_impl_t,
     rcap c' = 0 ->
     is_redirect_code (response_t.status_code (response c')) = true ->
     request_t.redirect (request c') = true ->
     in_final_state c' = false ->
     state (set_success c') = REDIRECT_EXHAUSTED /\
     count is_redirect (ops (set_success c')) = count is_redirect (ops c')).
Proof.
  intros C c.
  pose proof (invariant_constructed c0 C) as I0.
  pose proof (invariant_run _ c0 evs I0) as I. fold c in I.
  split; [|split; [|split]].
  - rewrite (inv_redirects _ c I), <- (inv_rcap _ c I). apply I.
  - apply I.
  - intros c' D. unfold perform_redirect in D.
    destruct (is_redirect_exhausted (response c')) eqn:X.
    + destruct (ops_set_error c' REDIRECT_EXHAUSTED "redirect exhausted")
        as (l & E & _ & Z).
      rewrite E, count_app, Z in D. lia.
    + unfold is_redirect_exhausted in X. apply N.leb_gt in X. exact X.
  - intros c' Z R D F. unfold set_success. rewrite R, D.
    unfold perform_redirect, is_redirect_exhausted.
    unfold rcap, request in Z. rewrite Z.
    replace (0 <=? response_t.redirect_count (response c')) with true
      by (symmetry; apply N.leb_le; lia).
    destruct (ops_set_error c' REDIRECT_EXHAUSTED "redirect exhausted")
      as (l & E & _ & Z').
    rewrite state_set_error by exact F.
    rewrite E, count_app, Z'. split; [reflexivity|lia].
Qed.

(** ** The body reads *)

Lemma set_state_cases (c : conn_impl_t) (s : error_code_t) :
  set_state c s = assign_state s c \/ set_state c s = c.
Proof. unfold set_state. destruct (_ || _); auto. Qed.

Lemma state_run_callback (c : conn_impl_t) (cb : parser_cb) :
  state (run_callback c cb) = state c.
Proof.
  destruct cb; try reflexivity; simpl.
  - unfold header_value_fn. cbv zeta.
    now destruct (String.eqb (tolower (header_field c)) "set-cookie").
  - unfold body_fn. now destruct (request_t.body_callback (request c)).
Qed.

Lemma state_execute_parser (c : conn_impl_t) (p : parse_t) :
  state (fst (execute_parser c p)) = state c.
Proof.
  unfold execute_parser. cbv zeta. simpl fst.
  change (state (fold_left run_callback (callbacks p) c) = state c).
  generalize (callbacks p) as l. intros l. revert c.
  induction l as [|cb l IH]; intros c; simpl; [reflexivity|].
  now rewrite IH, state_run_callback.
Qed.

Lemma snd_execute_parser (c : conn_impl_t) (p : parse_t) :
  snd (execute_parser c p) = (0 <? nparsed p).
Proof. reflexivity. Qed.



Lemma size_sub_exact (a b : N) :
  b <= a -> a < size_max -> size_sub a b = a - b.
Proof.
  intros L M. unfold size_sub.
  rewrite (N.mod_small b) by lia.
  replace (a + size_max - b) with (a - b + 1 * size_max) by lia.
  rewrite N.Div0.mod_add. apply N.mod_small. lia.
Qed.


(** C8, as amended.  After a chunk header with payload length [L > 0] is
    parsed, if the response buffer holds more than [L] characters the
    connection enters READ_CHUNK_DATA and calls the chunk-data completion
    itself, with no operation issued: what runs next is
    [on_read_chunk_data] with no error, which feeds the parser and goes on
    to the next chunk header when the parser takes something, and nothing
    else runs before it.  If the buffer holds [L] characters or fewer, the
    connection issues a read for at least [L] minus the buffered count,
    which is a read for at least zero characters when exactly [L] are
    buffered. *)
Theorem chunk_data_after_header (c : conn_impl_t) (p : parse_t) :
  let c1 := fst (execute_parser c p) in
  let L := content_length c1 in
  0 < nparsed p -> 0 < L -> L < size_max ->
  (L < size (response_buf c1) ->
   let c' := on_read_chunk_header c no_error p in
   let c2 := set_calling None (set_state c1 READ_CHUNK_DATA) in
   c' =
   set_calling (Some (call_on_read_chunk_data no_error L))
               (set_state c1 READ_CHUNK_DATA) /\
   ops c' = ops c1 /\
   pending c' = pending c1 /\
   (forall p' : parse_t,
      dispatch c' (ev_call p') = on_read_chunk_data c2 no_error p' /\
      on_read_chunk_data c2 no_error p' =
      (if 0 <? nparsed p'
       then read_chunk_header (fst (execute_parser c2 p'))
       else set_error (fst (execute_parser c2 p')) READ_CHUNK_DATA_ERROR
              "chunk data error")) /\
   dispatch c' ev_start = c' /\
   (forall (h : handler_t) (k : completion_t),
      dispatch c' (ev_complete h k) = c')) /\
  (size (response_buf c1) <= L ->
   on_read_chunk_header c no_error p = read_chunk_data c1 /\
   ops (on_read_chunk_header c no_error p) =
   (ops c1 ++ [op_stream_async_read (L - size (response_buf c1))])%list /\
   pending (on_read_chunk_header c no_error p) =
   h_on_read_chunk_data :: pending c1 /\
   calling (on_read_chunk_header c no_error p) = calling c1).
Proof.
  intros c1 L P0 L0 LM.
  apply N.ltb_lt in P0, L0.
  unfold on_read_chunk_header.
  change (ec_bool no_error) with false. cbv iota.
  rewrite (surjective_pairing (execute_parser c p)), snd_execute_parser, P0.
  cbv beta iota delta [negb]. fold c1. fold L. rewrite L0.
  split; intros S.
  - apply N.ltb_lt in S. rewrite S. cbv zeta.
    destruct (set_state_cases c1 READ_CHUNK_DATA) as [-> | ->];
      (split; [reflexivity|]); (split; [reflexivity|]);
      (split; [reflexivity|]); (split; [|split; reflexivity]);
      intros p'; (split; [reflexivity|]);
      unfold on_read_chunk_data;
      change (ec_bool no_error) with false; cbv iota; cbn [andb];
      rewrite (surjective_pairing (execute_parser _ p')), snd_execute_parser;
      now destruct (0 <? nparsed p').
  - assert (S' : (L <? size (response_buf c1)) = false)
      by (apply N.ltb_ge; exact S).
    rewrite S'. split; [reflexivity|].
    unfold read_chunk_data. cbv zeta.
    destruct (set_state_cases c1 READ_CHUNK_DATA) as [-> | ->];
      (split; [|split; reflexivity]);
      simpl; fold L; rewrite size_sub_exact by assumption; reflexivity.
Qed.

(** ** The session *)

Lemma can_reuse_connection_differs (request last_request : request_t.t) :
  can_reuse_connection request last_request = false <->
  differs request last_request.
Proof.
  unfold can_reuse_connection, differs.
  destruct (String.eqb_spec (domain (request_t.uri last_request))
                            (domain (request_t.uri request)));
  destruct (String.eqb_spec (port (request_t.uri last_request))
                            (port (request_t.uri request)));
  destruct (String.eqb_spec (protocol (request_t.uri last_request))
                            (protocol (request_t.uri request)));
    simpl; split; intros H; try discriminate H; try reflexivity;
    try (destruct H as [H|[H|H]]; contradiction); tauto.
Qed.

(** A connection that the second constructor has built starts with a write
    or a restart; a fresh one starts with the resolution of the name. *)
Lemma start_reuse_not_fresh (request_ : request_t.t) (stream : bool)
    (redirects : list response_t.t) :
  ~ fresh_connection (start (conn_impl_reuse request_ stream redirects)).
Proof.
  intros [r H]. apply (f_equal ops) in H.
  destruct stream; vm_compute in H; discriminate H.
Qed.

(** The value of [Send] in its four cases. *)
Lemma Send_first (s : session_impl_t) :
  connection s = None ->
  Send s =
  sent (make_session (prepare (pending_request s))
          (Some (start (conn_impl_new (prepare (pending_request s)))))).
Proof. intros N. unfold Send. rewrite N. reflexivity. Qed.

Lemma Send_throws (s : session_impl_t) (last : conn_impl_t) (e : error_t) :
  connection s = Some last ->
  promise last = Some (exception e) ->
  exists s', Send s = send_throws e s'.
Proof.
  intros C P. unfold Send, future_get. rewrite C.
  destruct (request_t.cache_redirects (pending_request s));
    cbn [connection pending_request]; rewrite P; eexists; reflexivity.
Qed.

Lemma Send_fresh (s : session_impl_t) (last : conn_impl_t) (r : response_t.t) :
  connection s = Some last ->
  promise last = Some (value r) ->
  can_reuse_connection (prepared_request s r) (response_t.request r) = false ->
  Send s =
  sent (make_session (prepared_request s r)
          (Some (start (conn_impl_new (prepared_request s r))))).
Proof.
  intros C P R. unfold Send, future_get, prepared_request in *. rewrite C.
  destruct (request_t.cache_redirects (pending_request s));
    cbn [connection pending_request]; rewrite P, R; reflexivity.
Qed.

Lemma Send_reuse (s : session_impl_t) (last : conn_impl_t) (r : response_t.t) :
  connection s = Some last ->
  promise last = Some (value r) ->
  can_reuse_connection (prepared_request s r) (response_t.request r) = true ->
  Send s =
  sent (make_session (with_updated_cookies (prepared_request s r) r)
          (Some (start (conn_impl_reuse
                          (with_updated_cookies (prepared_request s r) r)
                          (stream_is_open last)
                          (response_t.redirects r))))).
Proof.
  intros C P R.
  unfold Send, future_get, prepared_request, with_updated_cookies in *.
  rewrite C.
  destruct (request_t.cache_redirects (pending_request s));
    cbn [connection pending_request]; rewrite P, R;
    cbn [negb connection pending_request]; rewrite ?P; reflexivity.
Qed.

(** When the future of the earlier connection holds an exception, [Send]
    throws it at its first [get], before it has constructed anything: the
    session keeps the earlier connection. *)
Lemma Send_rethrows (s : session_impl_t) (last : conn_impl_t) (e : error_t) :
  connection s = Some last ->
  promise last = Some (exception e) ->
  exists s', Send s = send_throws e s' /\ connection s' = Some last.
Proof.
  intros C P. unfold Send, future_get. rewrite C.
  destruct (request_t.cache_redirects (pending_request s));
    cbn [connection pending_request]; rewrite P; eexists;
    (split; [reflexivity|]); cbn [connection]; congruence.
Qed.

(** C10, as amended.  A call of [Send] on a session that has no connection,
    or whose connection has resolved its future with a response, returns;
    the connection it has constructed and started is fresh if and only if
    there was no connection or the earlier request differs from the pending
    one in domain, port or protocol; otherwise it reuses the earlier
    connection, for the pending request with its cookies updated with the
    cookies of the earlier response.  When the future of the earlier
    connection holds an exception, [Send] throws it and constructs
    nothing: the call does not return, and the session is left with the
    earlier connection. *)
Theorem Send_fresh_or_reused (s : session_impl_t) :
  (connection s = None \/
   (exists last r,
      connection s = Some last /\ promise last = Some (value r)) ->
   send_constructs s) /\
  (forall last e,
     connection s = Some last ->
     promise last = Some (exception e) ->
     (exists s', Send s = send_throws e s' /\ connection s' = Some last) /\
     ~ send_constructs s).
Proof.
  split.
  { intros H.
    unfold send_constructs.
    destruct H as [N|(last & r & C & P)].
    - eexists. eexists. split; [apply (Send_first s N)|].
      split; [reflexivity|]. split.
      + split; [auto|]. intros _. eexists. reflexivity.
      + intros X. exfalso. apply X. eexists. reflexivity.
    - destruct (can_reuse_connection (prepared_request s r) (response_t.request r))
        eqn:R.
      + eexists. eexists. split; [apply (Send_reuse s last r C P R)|].
        split; [reflexivity|]. split.
        * split.
          -- intros X. exfalso. revert X. apply start_reuse_not_fresh.
          -- intros [X|(l & r' & E1 & E2 & D)]; [congruence|].
             assert (l = last) by congruence. subst l.
             assert (r' = r) by congruence. subst r'.
             apply can_reuse_connection_differs in D. congruence.
        * intros _. exists last, r. repeat split; assumption.
      + eexists. eexists. split; [apply (Send_fresh s last r C P R)|].
        split; [reflexivity|]. split.
        * split.
          -- intros _. right. exists last, r. repeat split; try assumption.
             now apply can_reuse_connection_differs.
          -- intros _. eexists. reflexivity.
        * intros X. exfalso. apply X. eexists. reflexivity. }
  intros last e C P. split; [now apply Send_rethrows|].
  destruct (Send_rethrows s last e C P) as (s1 & E & _).
  intros (s' & c & H & _). congruence.
Qed.

End Claims.

(** * The auth literal: when it throws, and printing before parsing *)

Section AuthExtras.

Lemma index_colon_none (s : string) :
  index 0 ":" s = None <-> forall n, String.get n s <> Some ":"%char.
Proof.
  induction s as [|c s IH].
  - split; [intros _ n; destruct n; discriminate | reflexivity].
  - rewrite index_colon_cons. destruct (ascii_dec ":"%char c) as [e|ne].
    + split; [discriminate|]. intros H. exfalso. apply (H 0%nat).
      simpl. now rewrite e.
    + destruct (index 0 ":" s) as [k|] eqn:E.
      * split; [discriminate|]. intros H. exfalso.
        assert (A : forall n, get n s <> Some ":"%char)
          by (intros n; exact (H (S n))).
        apply IH in A. discriminate A.
      * split; [|reflexivity]. intros _ [|n].
        -- simpl. intros F. injection F as F. auto.
        -- simpl. now apply IH.
Qed.

Lemma index_colon_get (s : string) (ind : nat) :
  index 0 ":" s = Some ind -> String.get ind s = Some ":"%char.
Proof.
  revert ind. induction s as [|c s IH]; intros ind H; [discriminate H|].
  rewrite index_colon_cons in H.
  destruct (ascii_dec ":"%char c) as [e|ne].
  - injection H as <-. simpl. now rewrite e.
  - destruct (index 0 ":" s) as [k|]; [|discriminate H].
    injection H as <-. simpl. now apply IH.
Qed.

(** X1.  [auth_t::from_string] throws exactly for the strings that hold no
    colon, and then the message is ["unexpected auth_t str: "] followed by
    the string; exactly the strings that hold a colon parse. *)
Theorem from_string_throws_iff (str : string) :
  ((forall n, String.get n str <> Some ":"%char) <->
   auth_t.from_string str = Throw ("unexpected auth_t str: " ++ str)) /\
  ((exists n, String.get n str = Some ":"%char) <->
   exists a, auth_t.from_string str = Ok a).
Proof.
  unfold auth_t.from_string.
  destruct (index 0 ":" str) as [ind|] eqn:E.
  - split.
    + split; [|discriminate]. intros H. apply index_colon_none in H.
      rewrite H in E. discriminate E.
    + split; [intros _; eexists; reflexivity|]. intros _.
      exists ind. now apply index_colon_get.
  - split.
    + split; [reflexivity|]. intros _. now apply index_colon_none.
    + split; [|intros [a H]; discriminate H].
      intros [n H]. exfalso. revert H. now apply index_colon_none.
Qed.

(** X2.  Printing an [auth_t] and parsing the text always succeeds, and the
    value parsed prints to the same text; it is the value printed exactly
    when the login holds no colon.  A login with a colon comes back cut at
    its first colon. *)
Theorem to_string_from_string (a : auth_t.t) :
  (exists a', auth_t.from_string (auth_t.to_string a) = Ok a' /\
              auth_t.to_string a' = auth_t.to_string a) /\
  (auth_t.from_string (auth_t.to_string a) = Ok a <->
   forall n, String.get n (auth_t.first a) <> Some ":"%char).
Proof.
  destruct a as [login password]. unfold auth_t.to_string.
  cbn [auth_t.first auth_t.second]. unfold auth_t.from_string.
  destruct (index_colon_found login password) as [ind E]. rewrite E.
  destruct (index_colon_split _ ind E) as [N S].
  split.
  - eexists. split; [reflexivity|]. cbn [auth_t.first auth_t.second].
    now rewrite <- S.
  - rewrite <- index_colon_none. split.
    + intros H. injection H as H1 H2. now rewrite <- H1.
    + intros H. rewrite (index_colon_app login password H) in E.
      injection E as <-.
      now rewrite substring_app_left, substr_from_app.
Qed.

End AuthExtras.

(** * The buffer helpers *)

Section BufferHelpers.

Lemma substring_two (c : ascii) (rest : string) :
  substring 0 2 (String c rest) = CRLF <->
  c = CR /\ exists rest', rest = String LF rest'.
Proof.
  destruct rest as [|d rest'].
  - simpl. split; [discriminate|]. intros [_ [r H]]. discriminate H.
  - change (substring 0 2 (String c (String d rest')))
      with (String c (String d (substring 0 0 rest'))).
    assert (Z : substring 0 0 rest' = "") by (destruct rest'; reflexivity).
    rewrite Z. unfold CRLF. split.
    + intros H. injection H as -> ->. split; [reflexivity|]. now exists rest'.
    + intros [-> [r H]]. injection H as -> _. reflexivity.
Qed.

Lemma peek_crlf_head (c : ascii) (rest : string) :
  (Ascii.eqb c CR &&
   match rest with
   | String d _ => Ascii.eqb d LF
   | EmptyString => false
   end)%bool = true <->
  substring 0 2 (String c rest) = CRLF.
Proof.
  rewrite substring_two, andb_true_iff, Ascii.eqb_eq.
  destruct rest as [|d rest'].
  - split; [intros [_ H]; discriminate H|intros [_ [r H]]; discriminate H].
  - rewrite Ascii.eqb_eq. split.
    + intros [-> ->]. split; [reflexivity|]. now exists rest'.
    + intros [-> [r H]]. injection H as -> _. now split.
Qed.

(** X3.  [peek_crlf] answers with the position of the first CRLF of the
    buffer: the two characters at the position are CR and LF, no earlier
    position holds them, and the answer is none exactly when no position
    does. *)
Theorem peek_crlf_first (sbuf : string) :
  match peek_crlf sbuf with
  | Some n =>
      substring n 2 sbuf = CRLF /\
      forall m, (m < n)%nat -> substring m 2 sbuf <> CRLF
  | None => forall m, substring m 2 sbuf <> CRLF
  end.
Proof.
  induction sbuf as [|c rest IH].
  - simpl. intros [|m]; discriminate.
  - cbn [peek_crlf].
    match goal with |- context [if ?b then _ else _] => destruct b eqn:B end.
    + split; [now apply peek_crlf_head | intros m H; lia].
    + assert (B' : substring 0 2 (String c rest) <> CRLF).
      { intros H. apply peek_crlf_head in H. rewrite H in B. discriminate B. }
      destruct (peek_crlf rest) as [n|]; cbn [option_map].
      * destruct IH as [IH1 IH2]. split; [exact IH1|].
        intros [|m] Hm; [exact B'|]. apply IH2. lia.
      * intros [|m]; [exact B'|apply IH].
Qed.

(** X4.  [consume_crlf] answers true exactly when the buffer starts with
    CRLF, which is when [peek_crlf] finds a CRLF at position 0, and then it
    has taken these two characters.  It is no test only: when it answers
    false it has still taken the characters it read, the first one of a
    buffer that is not empty, and the second one too when the first is
    CR. *)
Theorem consume_crlf_takes (buf : string) :
  (fst (consume_crlf buf) = true <-> buf = CRLF ++ snd (consume_crlf buf)) /\
  (fst (consume_crlf buf) = true <-> peek_crlf buf = Some 0%nat) /\
  (exists taken,
     buf = taken ++ snd (consume_crlf buf) /\
     (String.length taken <= 2)%nat /\
     (buf <> "" -> (1 <= String.length taken)%nat) /\
     (forall rest, buf = String CR rest -> rest <> "" ->
                   String.length taken = 2%nat)).
Proof.
  destruct buf as [|c [|d rest]].
  - repeat split; try discriminate.
    exists "". repeat split; try (simpl; lia); try discriminate.
    now intros H.
  - unfold consume_crlf, CRLF.
    destruct (Ascii.eqb c CR) eqn:C; cbn [fst snd peek_crlf];
      rewrite ?C; cbn [andb option_map];
      (split; [split; discriminate|]); (split; [split; discriminate|]);
      exists (String c ""); (split; [reflexivity|]);
      (split; [simpl; lia|]); (split; [simpl; lia|]);
      (intros [|e rest] H K; [now contradiction K|discriminate H]).
  - unfold consume_crlf, CRLF. cbn [peek_crlf].
    destruct (Ascii.eqb c CR) eqn:C; cbn [fst snd andb].
    + apply Ascii.eqb_eq in C. subst c.
      destruct (Ascii.eqb d LF) eqn:D.
      * apply Ascii.eqb_eq in D. subst d.
        repeat split; try reflexivity.
        exists (String CR (String LF "")). repeat split; simpl; lia.
      * assert (D' : d <> LF) by (intros ->; now rewrite Ascii.eqb_refl in D).
        split; [split; [discriminate|]|].
        { intros H. change (String CR (String LF "") ++ rest)
            with (String CR (String LF rest)) in H.
          injection H as H. contradiction. }
        split; [split; [discriminate|]|].
        { match goal with |- context [if ?b then _ else _] => destruct b end;
            [discriminate|].
          destruct (peek_crlf rest); discriminate. }
        exists (String CR (String d "")). repeat split; simpl; lia.
    + assert (C' : c <> CR) by (intros ->; now rewrite Ascii.eqb_refl in C).
      split; [split; [discriminate|]|].
      { intros H. change (String CR (String LF "") ++ String d rest)
          with (String CR (String LF (String d rest))) in H.
        injection H as H _. contradiction. }
      split; [split; [discriminate|]|].
      { match goal with |- context [if ?b then _ else _] => destruct b end;
          [discriminate|].
        destruct (peek_crlf rest); discriminate. }
      exists (String c ""). repeat split; try (simpl; lia).
      intros r H. injection H as H _. contradiction.
Qed.

Lemma length_append (a b : string) :
  String.length (a ++ b) = (String.length a + String.length b)%nat.
Proof. induction a as [|c a IH]; simpl; [reflexivity|now rewrite IH]. Qed.

Lemma length_zeros (n : nat) : String.length (zeros n) = n.
Proof. induction n as [|n IH]; simpl; [reflexivity|now rewrite IH]. Qed.

Lemma length_substring_from_zero (n : nat) (s : string) :
  String.length (substring 0 n s) = Nat.min n (String.length s).
Proof.
  revert n. induction s as [|c s IH]; intros [|n]; simpl; try reflexivity.
  now rewrite IH.
Qed.

Lemma substring_split (n : nat) (s : string) :
  s = substring 0 n s ++ substring n (String.length s - n) s.
Proof.
  revert n. induction s as [|c s IH]; intros [|n]; simpl; try reflexivity.
  - now rewrite substring_all.
  - f_equal. apply IH.
Qed.

Lemma length_substring_rest (n : nat) (s : string) :
  String.length (substring n (String.length s - n) s) = (String.length s - n)%nat.
Proof.
  revert n. induction s as [|c s IH]; intros [|n]; simpl; try reflexivity.
  - now rewrite substring_all.
  - apply IH.
Qed.

Lemma substring_whole (n : nat) (s : string) :
  (String.length s <= n)%nat -> substring 0 n s = s.
Proof.
  revert n. induction s as [|c s IH]; intros [|n] L; simpl in *;
    try reflexivity; try lia.
  f_equal. apply IH. lia.
Qed.

(** X5.  [read_buffer] returns a string of exactly [length] characters,
    whatever the buffer holds.  With [length] characters or more in the
    buffer these are the first [length] characters and the buffer keeps the
    rest; with fewer, the string is the whole buffer followed by characters
    of value zero, and the buffer is left empty. *)
Theorem read_buffer_length (response_buf : string) (length : N) :
  size (fst (read_buffer response_buf length)) = length /\
  (length <= size response_buf ->
   response_buf =
   fst (read_buffer response_buf length) ++ snd (read_buffer response_buf length)) /\
  (size response_buf < length ->
   fst (read_buffer response_buf length) =
   response_buf ++ zeros (N.to_nat (length - size response_buf)) /\
   snd (read_buffer response_buf length) = "").
Proof.
  unfold read_buffer, size, consume, substr_from.
  destruct (length =? 0) eqn:Z.
  - apply N.eqb_eq in Z. subst length. cbn [fst snd].
    split; [reflexivity|].
    split; [intros _; reflexivity | intros H; exfalso; lia].
  - apply N.eqb_neq in Z. cbv zeta. cbn [fst snd].
    set (n := N.to_nat length). split; [|split].
    + rewrite length_append, length_zeros, length_substring_from_zero. lia.
    + intros H.
      assert (L : (n <= String.length response_buf)%nat) by lia.
      rewrite length_substring_from_zero.
      replace (n - Nat.min n (String.length response_buf))%nat with 0%nat by lia.
      cbn [zeros].
      assert (E : forall s : string, s ++ "" = s)
        by (intros s; induction s as [|c s IH]; simpl; [reflexivity|now rewrite IH]).
      rewrite E. apply substring_split.
    + intros H.
      assert (L : (String.length response_buf < n)%nat) by lia.
      rewrite (substring_whole n response_buf) by lia. split.
      * f_equal. f_equal. lia.
      * pose proof (length_substring_rest n response_buf) as R.
        replace (String.length response_buf - n)%nat with 0%nat in * by lia.
        destruct (substring n 0 response_buf); [reflexivity|discriminate R].
Qed.

End BufferHelpers.

(** * Draining a buffer *)

Section Drain.

Lemma consume_all (buf : string) : consume (size buf) buf = "".
Proof.
  unfold consume, substr_from, size. rewrite Nat2N.id, Nat.sub_diag.
  pose proof (length_substring_rest (String.length buf) buf) as L.
  rewrite Nat.sub_diag in L.
  now destruct (substring (String.length buf) 0 buf).
Qed.

Lemma drained (buf : string) :
  (if 0 <? size buf then consume (size buf) buf else buf) = "".
Proof.
  destruct (0 <? size buf) eqn:Z; [apply consume_all|].
  apply N.ltb_ge in Z. unfold size in Z. destruct buf; [reflexivity|].
  cbn in Z. lia.
Qed.

Lemma drain_request_buf (c : conn_impl_t) :
  (if 0 <? size (request_buf c)
   then set_request_buf (consume (size (request_buf c)) (request_buf c)) c
   else c) = set_request_buf "" c.
Proof.
  destruct c as [so pr rs mr st rqb rsb hf cl rw hd pd ca os].
  cbn [request_buf]. pose proof (drained rqb) as D.
  destruct (0 <? size rqb); [unfold set_request_buf; cbn|]; now rewrite D.
Qed.

Lemma drain_response_buf (c : conn_impl_t) :
  (if 0 <? size (response_buf c)
   then set_response_buf (consume (size (response_buf c)) (response_buf c)) c
   else c) = set_response_buf "" c.
Proof.
  destruct c as [so pr rs mr st rqb rsb hf cl rw hd pd ca os].
  cbn [response_buf]. pose proof (drained rsb) as D.
  destruct (0 <? size rsb); [unfold set_response_buf; cbn|]; now rewrite D.
Qed.

End Drain.

(** * The steps of [end_] *)

Section Finalization.

Context {collab : collaborators}.

(** A step that is taken under a condition, as an assignment. *)
Lemma emit_if (b : bool) (o : op_t) (c : conn_impl_t) :
  (if b then emit o c else c) =
  set_ops (ops c ++ (if b then [o] else []))%list c.
Proof.
  destruct c as [so pr rs mr st rqb rsb hf cl rw hd pd ca os], b;
    cbv -[app]; rewrite ?app_nil_r; reflexivity.
Qed.

Lemma stream_if (ka hc : bool) (c : conn_impl_t) :
  (if ka then if hc then stream_close (stream_cancel c) else c
   else stream_cancel c) =
  set_stream_is_open (if ka && hc then false else stream_is_open c)
    (set_ops (ops c ++
              (if ka then if hc then [op_stream_cancel; op_stream_close] else []
               else [op_stream_cancel]))%list c).
Proof.
  destruct c as [so pr rs mr st rqb rsb hf cl rw hd pd ca os], ka, hc;
    cbv -[app]; rewrite <- ?app_assoc, ?app_nil_r; reflexivity.
Qed.

Lemma fulfil_if (t : bool) (e : error_t) (r : response_t.t) (c : conn_impl_t) :
  (if t then promise_set_exception e c else promise_set_value r c) =
  set_promise
    (match promise c with
     | None => Some (if t then exception e else value r)
     | Some v => Some v
     end)
    (set_ops (ops c ++ [if t then op_promise_set_exception e
                        else op_promise_set_value r])%list c).
Proof.
  destruct c as [so [v|] rs mr st rqb rsb hf cl rw hd pd ca os], t; reflexivity.
Qed.

(** What [end_] leaves: every member and the operations issued, in their
    order. *)
Lemma end_normal (c : conn_impl_t) :
  end_ c =
  let closes :=
    request_t.keep_alive (request c) &&
    headers_contains (response_t.headers (response c)) "Connection" "close" in
  let r := response_t.set_raw (raw c) (response c) in
  let throws :=
    error_bool (response_t.error (response c)) &&
    request_t.throw_on_error (request c) in
  let o := if throws then exception (response_t.error (response c)) else value r in
  {| stream_is_open := if closes then false else stream_is_open c;
     promise := match promise c with None => Some o | Some v => Some v end;
     response := r;
     m_is_reused := m_is_reused c;
     state := state c;
     request_buf := request_buf c;
     response_buf := response_buf c;
     header_field := header_field c;
     content_length := content_length c;
     raw := "";
     headers := headers c;
     pending := h_on_dispose_timer :: pending c;
     calling := calling c;
     ops :=
       (ops c ++
        [op_resolver_cancel; op_timeout_timer_cancel] ++
        (if request_t.final_callback (request c)
         then [op_final_callback (response c)] else []) ++
        [op_dispose_timer_async_wait (request_t.store_timeout (request c))] ++
        (if request_t.keep_alive (request c)
         then if closes then [op_stream_cancel; op_stream_close] else []
         else [op_stream_cancel]) ++
        (if request_t.body_callback (request c)
         then [op_body_callback None 0 (response_t.error (response c))] else []) ++
        [if throws then op_promise_set_exception (response_t.error (response c))
         else op_promise_set_value r])%list |}.
Proof.
  unfold end_.
  rewrite fulfil_if, !emit_if, stream_if.
  destruct c as [so pr rs mr st rqb rsb hf cl rw hd pd ca os].
  destruct rs as [rq hmaj hmin sc sm rhd rck rrw rer rrc rrd].
  cbv -[headers_contains error_bool app request_t.keep_alive
        request_t.final_callback request_t.body_callback
        request_t.throw_on_error request_t.store_timeout andb].
  rewrite <- !app_assoc.
  destruct (request_t.keep_alive rq); reflexivity.
Qed.

Lemma promise_end (c : conn_impl_t) :
  promise c = None ->
  promise (end_ c) =
  Some (if error_bool (response_t.error (response c)) &&
           request_t.throw_on_error (request c)
        then exception (response_t.error (response c))
        else value (response_t.set_raw (raw c) (response c))).
Proof.
  intros P. rewrite end_normal. cbv zeta. cbn [promise]. now rewrite P.
Qed.

Lemma promise_end_kept (c : conn_impl_t) (o : outcome_t) :
  promise c = Some o -> promise (end_ c) = Some o.
Proof.
  intros P. rewrite end_normal. cbv zeta. cbn [promise]. now rewrite P.
Qed.

Lemma response_end (c : conn_impl_t) :
  response (end_ c) = response_t.set_raw (raw c) (response c).
Proof. rewrite end_normal. reflexivity. Qed.

Lemma outcome_error_end (c : conn_impl_t) :
  promise c = None ->
  exists o, promise (end_ c) = Some o /\
            outcome_error o = response_t.error (response c).
Proof.
  intros P. rewrite (promise_end c P). eexists. split; [reflexivity|].
  destruct (error_bool _ && _); reflexivity.
Qed.

(** A first change to a final state through [set_error]. *)
Lemma set_error_fails (c : conn_impl_t) (s : error_code_t) (msg : string) :
  in_final_state c = false -> promise c = None ->
  fails_with (set_error c s msg) s msg.
Proof.
  intros F P. unfold set_error. rewrite F. cbv zeta.
  rewrite (set_state_open c s F). split.
  - now rewrite state_end.
  - apply outcome_error_end. exact P.
Qed.

Lemma set_error_ec_fails (c : conn_impl_t) (s : error_code_t) (e : ec_t) :
  in_final_state c = false -> promise c = None -> e <> operation_aborted ->
  fails_with (set_error_ec c s e) s (ec_message e).
Proof.
  intros F P A. unfold set_error_ec.
  destruct (ec_t_beq e operation_aborted) eqn:E.
  - apply internal_ec_t_dec_bl in E. contradiction.
  - now apply set_error_fails.
Qed.

(** X6.  A completion handler that is called with [operation_aborted], the
    error of a cancelled operation, leaves the connection as it is: no state
    change, no operation, no fulfilment.  This holds for the ten handlers of
    the protocol steps, in every state, and for the two timer handlers. *)
Theorem aborted_completion_ignored (h : handler_t) (k : completion_t)
    (c : conn_impl_t) :
  ec k = operation_aborted -> handle h k c = c.
Proof.
  intros E. destruct h; unfold handle; rewrite E; reflexivity.
Qed.

(** X7.  An error of the operation ends a connection that is not in a final
    state in the error state of the step, and the future gets an error of
    that kind with the message of the error code: RESOLVE_ERROR,
    CONNECT_ERROR and HANDSHAKE_ERROR for every error but
    [operation_aborted]; WRITE_ERROR and READ_STATUS_ERROR unless the error
    says that the socket is closed and the connection is a reused one;
    the error states of the four body reads and of the header read for
    every error that is not an end of file. *)
Theorem io_error_states (c : conn_impl_t) (e : ec_t) (p : parse_t) :
  in_final_state c = false -> promise c = None ->
  ec_bool e = true -> e <> operation_aborted ->
  fails_with (on_resolve c e) RESOLVE_ERROR (ec_message e) /\
  fails_with (on_connect c e) CONNECT_ERROR (ec_message e) /\
  fails_with (on_handshake c e) HANDSHAKE_ERROR (ec_message e) /\
  ((is_socket_closed e && is_reused c)%bool = false ->
   fails_with (on_write c e) WRITE_ERROR (ec_message e) /\
   fails_with (on_read_status c e p) READ_STATUS_ERROR (ec_message e)) /\
  (is_eof e = false ->
   fails_with (on_read_headers c e p) READ_HEADERS_ERROR (ec_message e) /\
   fails_with (on_read_content_length c e p) READ_CONTENT_LENGTH_ERROR
     (ec_message e) /\
   fails_with (on_read_chunk_header c e p) READ_CHUNK_HEADER_ERROR
     (ec_message e) /\
   fails_with (on_read_chunk_data c e p) READ_CHUNK_DATA_ERROR (ec_message e) /\
   fails_with (on_read_until_eof c e p) READ_UNTIL_EOF_ERROR (ec_message e)).
Proof.
  intros F P E A.
  unfold on_resolve, on_connect, on_handshake, on_write, on_read_status,
    on_read_headers, on_read_content_length, on_read_chunk_header,
    on_read_chunk_data, on_read_until_eof.
  rewrite E.
  split; [now apply set_error_ec_fails|].
  split; [now apply set_error_ec_fails|].
  split; [now apply set_error_ec_fails|].
  split.
  - intros S. rewrite S. cbn [andb].
    split; now apply set_error_ec_fails.
  - intros Z. rewrite Z. cbn [andb orb negb].
    repeat split; now apply set_error_ec_fails.
Qed.

End Finalization.

(** * The promise and the body over a life *)

Section Settled.

Context {collab : collaborators}.

Lemma keeps_refl (c : conn_impl_t) : keeps c c.
Proof. split; auto. Qed.

Lemma keeps_trans (c1 c2 c3 : conn_impl_t) :
  keeps c1 c2 -> keeps c2 c3 -> keeps c1 c3.
Proof.
  intros [A1 A2] [B1 B2]. split; [auto|].
  intros F E. destruct (A2 F E) as [S P].
  assert (F2 : in_final_state c2 = true)
    by (rewrite in_final_state_code in *; now rewrite S).
  assert (E2 : state c2 <> EXPIRED) by now rewrite S.
  destruct (B2 F2 E2) as [S' P']. split; congruence.
Qed.

Lemma count_none (f : op_t -> bool) (l : list op_t) (o : op_t) :
  count f l = 0%nat -> In o l -> f o = false.
Proof.
  unfold count. induction l as [|x l IH]; [intros _ []|].
  cbn [filter]. destruct (f x) eqn:E; [discriminate|].
  intros Z [<-|H]; [exact E|now apply IH].
Qed.

(** A step that leaves the state and the promise alone, keeps or empties
    the body of the response, and appends operations that are no call of the
    final callback. *)
Lemma keeps_frame (c c' : conn_impl_t) (l : list op_t) :
  state c' = state c ->
  promise c' = promise c ->
  (response_t.raw (response c') = response_t.raw (response c) \/
   response_t.raw (response c') = "") ->
  ops c' = (ops c ++ l)%list ->
  count is_final_callback l = 0%nat ->
  keeps c c'.
Proof.
  intros Hs Hp Hr Ho Hl.
  assert (Hfin : in_final_state c' = in_final_state c)
    by (rewrite !in_final_state_code; now rewrite Hs).
  assert (Hc : count is_final_callback (ops c') =
               count is_final_callback (ops c))
    by (rewrite Ho, count_app, Hl; lia).
  split; [|intros _ _; now split].
  intros [S1 S2 S3 S4 S5]. split.
  - now rewrite Hs.
  - rewrite Hfin, Hp, Hc. intros F. destruct (S2 F) as (P & R & Z).
    split; [exact P|]. split; [|exact Z].
    destruct Hr as [Hr|Hr]; congruence.
  - rewrite Hp, Hs. exact S3.
  - now rewrite Hc.
  - intros r H. rewrite Ho in H. apply in_app_or in H as [H|H].
    + now apply S5.
    + apply (count_none _ _ _ Hl) in H. discriminate H.
Qed.

Lemma keeps_same (c c' : conn_impl_t) :
  state c' = state c ->
  promise c' = promise c ->
  (response_t.raw (response c') = response_t.raw (response c) \/
   response_t.raw (response c') = "") ->
  ops c' = ops c ->
  keeps c c'.
Proof.
  intros Hs Hp Hr Ho. apply keeps_frame with (l := []); try assumption.
  - now rewrite app_nil_r.
  - reflexivity.
Qed.

Lemma keeps_emit (o : op_t) (c : conn_impl_t) :
  is_final_callback o = false -> keeps c (emit o c).
Proof.
  intros H. apply keeps_frame with (l := [o]); try reflexivity; [now left|].
  unfold count. cbn. now rewrite H.
Qed.

Lemma keeps_async (o : op_t) (h : handler_t) (c : conn_impl_t) :
  is_final_callback o = false -> keeps c (async o h c).
Proof.
  intros H. apply keeps_frame with (l := [o]); try reflexivity; [now left|].
  unfold count. cbn. now rewrite H.
Qed.

Lemma keeps_set_state (c : conn_impl_t) (s : error_code_t) :
  final_code s = false -> keeps c (set_state c s).
Proof.
  intros Hs. split.
  - intros S. destruct (in_final_state c) eqn:F.
    + rewrite set_state_closed; auto. apply S.
    + rewrite set_state_open by assumption.
      destruct S as [S1 S2 S3 S4 S5]. destruct (S2 F) as (P & R & Z).
      split; try assumption.
      * cbn. intros ->. discriminate Hs.
      * intros _. repeat split; assumption.
      * cbn [promise assign_state]. rewrite P. discriminate.
  - intros F E. now rewrite set_state_closed.
Qed.

(** The operations of [end_]: among them one call of the final callback at
    most, and that with the response as it is before [end_]. *)
Lemma ops_end (c : conn_impl_t) :
  exists l, ops (end_ c) = (ops c ++ l)%list /\
            (count is_final_callback l <= 1)%nat /\
            forall r, In (op_final_callback r) l -> r = response c.
Proof.
  rewrite end_normal. cbv zeta. cbn [ops].
  eexists. split; [reflexivity|].
  destruct (request_t.final_callback (request c)),
    (request_t.keep_alive (request c)),
    (headers_contains (response_t.headers (response c)) "Connection" "close"),
    (request_t.body_callback (request c)),
    (error_bool (response_t.error (response c)) &&
     request_t.throw_on_error (request c));
    (split; [unfold count; cbn; lia|]); intros r H; cbn in H;
    repeat (destruct H as [H|H]; [try discriminate H; now injection H|]);
    destruct H.
Qed.

(** [end_] after a first change to a final state whose error the response
    holds. *)
Lemma keeps_end (c c2 : conn_impl_t) (msg : string) :
  in_final_state c = false ->
  final_code (state c2) = true ->
  state c2 <> EXPIRED ->
  promise c2 = promise c ->
  response_t.error (response c2) = Some (state c2, msg) ->
  response_t.raw (response c2) = response_t.raw (response c) ->
  ops c2 = ops c ->
  keeps c (end_ c2).
Proof.
  intros F Hs He Hp Her Hr Hops.
  split; [|intros F2; rewrite F in F2; discriminate F2].
  intros [S1 S2 S3 S4 S5]. destruct (S2 F) as (P & R & Z).
  destruct (ops_end c2) as (l & El & Cl & Il).
  split.
  - now rewrite state_end.
  - rewrite in_final_state_code, state_end, Hs. discriminate.
  - intros o H. rewrite state_end.
    destruct (outcome_error_end c2) as (o' & P' & E'); [congruence|].
    rewrite P' in H. injection H as <-. exists msg. congruence.
  - rewrite El, Hops, count_app, Z. exact Cl.
  - intros r H. rewrite El, Hops in H. apply in_app_or in H as [H|H].
    + now apply S5.
    + apply Il in H. subst r. congruence.
Qed.

Lemma keeps_set_error (c : conn_impl_t) (s : error_code_t) (msg : string) :
  final_code s = true -> s <> EXPIRED -> keeps c (set_error c s msg).
Proof.
  intros Hs He. unfold set_error.
  destruct (in_final_state c) eqn:F; [apply keeps_refl|].
  cbv zeta. rewrite set_state_open by exact F.
  apply keeps_end with (msg := msg); try reflexivity; assumption.
Qed.

Lemma keeps_set_error_ec (c : conn_impl_t) (s : error_code_t) (e : ec_t) :
  final_code s = true -> s <> EXPIRED -> keeps c (set_error_ec c s e).
Proof.
  intros Hs He. unfold set_error_ec.
  destruct (ec_t_beq e operation_aborted); [apply keeps_refl|].
  now apply keeps_set_error.
Qed.

Ltac conn_of t :=
  lazymatch t with
  | ?f ?x =>
      let T := type of x in
      lazymatch T with
      | conn_impl_t => constr:(x)
      | _ => conn_of f
      end
  end.

Ltac keeps_assignment :=
  apply keeps_same;
    [ reflexivity | reflexivity
    | first [left; reflexivity | right; reflexivity]
    | reflexivity ].

(** The lemma for the method at the head of the goal. *)
Ltac keeps_method := fail.

Ltac keeps_step :=
  lazymatch goal with
  | |- keeps ?c (set_error ?c _ _) =>
      apply keeps_set_error; [reflexivity | discriminate]
  | |- keeps ?c (set_error_ec ?c _ _) =>
      apply keeps_set_error_ec; [reflexivity | discriminate]
  | |- keeps ?c (emit _ ?c) => apply keeps_emit; reflexivity
  | |- keeps ?c (async _ _ ?c) => apply keeps_async; reflexivity
  | |- keeps ?c (set_state ?c _) => apply keeps_set_state; reflexivity
  | |- keeps ?c (set_stream_is_open _ ?c) => keeps_assignment
  | |- keeps ?c (set_response _ ?c) => keeps_assignment
  | |- keeps ?c (set_m_is_reused _ ?c) => keeps_assignment
  | |- keeps ?c (set_request_buf _ ?c) => keeps_assignment
  | |- keeps ?c (set_response_buf _ ?c) => keeps_assignment
  | |- keeps ?c (set_header_field _ ?c) => keeps_assignment
  | |- keeps ?c (set_content_length _ ?c) => keeps_assignment
  | |- keeps ?c (set_raw _ ?c) => keeps_assignment
  | |- keeps ?c (set_headers _ ?c) => keeps_assignment
  | |- keeps ?c (set_calling _ ?c) => keeps_assignment
  | |- keeps ?c (set_pending _ ?c) => keeps_assignment
  | |- _ => keeps_method
  end.

Lemma keeps_run_callback (c : conn_impl_t) (cb : parser_cb) :
  keeps c (run_callback c cb).
Proof.
  destruct cb; unfold run_callback, status_fn, header_field_fn,
    header_value_fn, headers_complete_fn, body_fn, chunk_header_fn;
    cbv zeta;
    repeat lazymatch goal with
    | |- keeps ?c ?c => apply keeps_refl
    | |- keeps _ (if ?b then _ else _) => destruct b eqn:?
    | |- keeps _ ?t =>
        let c1 := conn_of t in
        apply keeps_trans with c1; [|keeps_step]
    end.
Qed.

Lemma keeps_fold_callbacks (l : list parser_cb) (c : conn_impl_t) :
  keeps c (fold_left run_callback l c).
Proof.
  revert c. induction l as [|cb l IH]; intros c; simpl; [apply keeps_refl|].
  apply keeps_trans with (run_callback c cb);
    [apply keeps_run_callback | apply IH].
Qed.

Lemma keeps_execute_parser (c : conn_impl_t) (p : parse_t) :
  keeps c (fst (execute_parser c p)).
Proof.
  unfold execute_parser. cbv zeta. simpl fst.
  apply keeps_trans with (fold_left run_callback (callbacks p) c);
    [apply keeps_fold_callbacks | keeps_step].
Qed.

Ltac keeps_chain :=
  lazymatch goal with
  | |- keeps ?c ?c => apply keeps_refl
  | H : keeps ?c0 ?c1 |- keeps _ ?c1 =>
      apply keeps_trans with c0; [keeps_chain | exact H]
  | |- keeps _ (if ?b then _ else _) => destruct b eqn:?; keeps_chain
  | |- keeps _ (match execute_parser ?c0 ?p with _ => _ end) =>
      let H := fresh "H" in
      pose proof (keeps_execute_parser c0 p) as H;
      destruct (execute_parser c0 p) as [? ?]; simpl fst in H; keeps_chain
  | |- keeps _ (match ?x with _ => _ end) => destruct x eqn:?; keeps_chain
  | |- keeps _ ?t =>
      let c1 := conn_of t in
      apply keeps_trans with c1; [keeps_chain | keeps_step]
  end.

Lemma keeps_prepare_parser (c : conn_impl_t) : keeps c (prepare_parser c).
Proof. unfold prepare_parser. cbv zeta. keeps_chain. Qed.

Lemma keeps_setup_timeout (c : conn_impl_t) : keeps c (setup_timeout c).
Proof. unfold setup_timeout. keeps_chain. Qed.

Lemma keeps_stream_cancel (c : conn_impl_t) : keeps c (stream_cancel c).
Proof. unfold stream_cancel. keeps_chain. Qed.

Lemma keeps_stream_close (c : conn_impl_t) : keeps c (stream_close c).
Proof. unfold stream_close. keeps_chain. Qed.

Lemma keeps_stream_new (c : conn_impl_t) : keeps c (stream_new c).
Proof. unfold stream_new. keeps_chain. Qed.

Lemma keeps_parser_new (c : conn_impl_t) : keeps c (parser_new c).
Proof. unfold parser_new. keeps_chain. Qed.

Lemma keeps_resolve (c : conn_impl_t) : keeps c (resolve c).
Proof. unfold resolve. cbv zeta. keeps_chain. Qed.

Lemma keeps_connect (c : conn_impl_t) : keeps c (connect c).
Proof. unfold connect. cbv zeta. keeps_chain. Qed.

Lemma keeps_handshake (c : conn_impl_t) : keeps c (handshake c).
Proof. unfold handshake. cbv zeta. keeps_chain. Qed.

Lemma keeps_write (c : conn_impl_t) : keeps c (write c).
Proof. unfold write. cbv zeta. keeps_chain. Qed.

Lemma keeps_read_status (c : conn_impl_t) : keeps c (read_status c).
Proof. unfold read_status. cbv zeta. keeps_chain. Qed.

Lemma keeps_read_headers (c : conn_impl_t) : keeps c (read_headers c).
Proof. unfold read_headers. cbv zeta. keeps_chain. Qed.

Lemma keeps_read_content_length (c : conn_impl_t) :
  keeps c (read_content_length c).
Proof. unfold read_content_length. cbv zeta. keeps_chain. Qed.

Lemma keeps_read_chunk_header (c : conn_impl_t) :
  keeps c (read_chunk_header c).
Proof. unfold read_chunk_header. cbv zeta. keeps_chain. Qed.

Lemma keeps_read_chunk_data (c : conn_impl_t) : keeps c (read_chunk_data c).
Proof. unfold read_chunk_data. cbv zeta. keeps_chain. Qed.

Lemma keeps_read_until_eof (c : conn_impl_t) : keeps c (read_until_eof c).
Proof. unfold read_until_eof. cbv zeta. keeps_chain. Qed.

Ltac keeps_method ::=
  lazymatch goal with
  | |- keeps ?c (prepare_parser ?c) => apply keeps_prepare_parser
  | |- keeps ?c (setup_timeout ?c) => apply keeps_setup_timeout
  | |- keeps ?c (stream_cancel ?c) => apply keeps_stream_cancel
  | |- keeps ?c (stream_close ?c) => apply keeps_stream_close
  | |- keeps ?c (stream_new ?c) => apply keeps_stream_new
  | |- keeps ?c (parser_new ?c) => apply keeps_parser_new
  | |- keeps ?c (resolve ?c) => apply keeps_resolve
  | |- keeps ?c (connect ?c) => apply keeps_connect
  | |- keeps ?c (handshake ?c) => apply keeps_handshake
  | |- keeps ?c (write ?c) => apply keeps_write
  | |- keeps ?c (read_status ?c) => apply keeps_read_status
  | |- keeps ?c (read_headers ?c) => apply keeps_read_headers
  | |- keeps ?c (read_content_length ?c) => apply keeps_read_content_length
  | |- keeps ?c (read_chunk_header ?c) => apply keeps_read_chunk_header
  | |- keeps ?c (read_chunk_data ?c) => apply keeps_read_chunk_data
  | |- keeps ?c (read_until_eof ?c) => apply keeps_read_until_eof
  end.

Lemma keeps_read_content (c : conn_impl_t) : keeps c (read_content c).
Proof. unfold read_content. keeps_chain. Qed.

Lemma keeps_perform_redirect (c : conn_impl_t) :
  keeps c (perform_redirect c).
Proof.
  unfold perform_redirect.
  destruct (is_redirect_exhausted (response c)); [keeps_step|].
  destruct (headers_count (response_t.headers (response c)) "Location" =? 0);
    [keeps_step|].
  cbv zeta. rewrite drain_request_buf, drain_response_buf.
  match goal with
  | |- keeps _ (resolve ?y) =>
      apply keeps_trans with y; [|apply keeps_resolve]
  end.
  match goal with
  | |- context [op_redirect ?loc] =>
      apply keeps_frame
        with (l := [op_redirect loc; op_stream_new; op_parser_new])
  end; try reflexivity; [now right|].
  cbn. now rewrite <- !app_assoc.
Qed.

Lemma keeps_set_success (c : conn_impl_t) : keeps c (set_success c).
Proof.
  unfold set_success.
  destruct (is_redirect_code (response_t.status_code (response c))).
  - destruct (request_t.redirect (request c));
      [apply keeps_perform_redirect | apply keeps_refl].
  - destruct (in_final_state c) eqn:F; simpl; [apply keeps_refl|].
    rewrite set_state_open by exact F.
    apply keeps_end with (msg := "success"); try reflexivity.
    exact F. discriminate.
Qed.

Lemma keeps_set_timeout (c : conn_impl_t) : keeps c (set_timeout c).
Proof.
  unfold set_timeout.
  destruct (in_final_state c) eqn:F.
  - keeps_chain.
  - cbv zeta. rewrite set_state_open by exact F.
    apply keeps_end with (msg := "timeout"); try reflexivity.
    exact F. discriminate.
Qed.

Lemma keeps_on_timeout (c : conn_impl_t) (e : ec_t) : keeps c (on_timeout c e).
Proof.
  unfold on_timeout. destruct (negb (ec_bool e));
    [apply keeps_set_timeout | apply keeps_refl].
Qed.

Lemma keeps_restart (c : conn_impl_t) : keeps c (restart c).
Proof.
  unfold restart, start_with. cbv beta zeta.
  repeat match goal with
  | |- context [if is_reused ?x then _ else _] =>
      change (is_reused x) with false
  end.
  cbv iota. keeps_chain.
Qed.

Ltac keeps_method ::=
  lazymatch goal with
  | |- keeps ?c (prepare_parser ?c) => apply keeps_prepare_parser
  | |- keeps ?c (setup_timeout ?c) => apply keeps_setup_timeout
  | |- keeps ?c (stream_cancel ?c) => apply keeps_stream_cancel
  | |- keeps ?c (stream_close ?c) => apply keeps_stream_close
  | |- keeps ?c (stream_new ?c) => apply keeps_stream_new
  | |- keeps ?c (parser_new ?c) => apply keeps_parser_new
  | |- keeps ?c (resolve ?c) => apply keeps_resolve
  | |- keeps ?c (connect ?c) => apply keeps_connect
  | |- keeps ?c (handshake ?c) => apply keeps_handshake
  | |- keeps ?c (write ?c) => apply keeps_write
  | |- keeps ?c (read_status ?c) => apply keeps_read_status
  | |- keeps ?c (read_headers ?c) => apply keeps_read_headers
  | |- keeps ?c (read_content_length ?c) => apply keeps_read_content_length
  | |- keeps ?c (read_chunk_header ?c) => apply keeps_read_chunk_header
  | |- keeps ?c (read_chunk_data ?c) => apply keeps_read_chunk_data
  | |- keeps ?c (read_until_eof ?c) => apply keeps_read_until_eof
  | |- keeps ?c (read_content ?c) => apply keeps_read_content
  | |- keeps ?c (perform_redirect ?c) => apply keeps_perform_redirect
  | |- keeps ?c (set_success ?c) => apply keeps_set_success
  | |- keeps ?c (set_timeout ?c) => apply keeps_set_timeout
  | |- keeps ?c (restart ?c) => apply keeps_restart
  end.

Lemma keeps_start (c : conn_impl_t) : keeps c (start c).
Proof. unfold start, start_with. cbv zeta. keeps_chain. Qed.

Lemma keeps_handle (c : conn_impl_t) (h : handler_t) (k : completion_t) :
  h <> h_on_dispose_timer -> keeps c (handle h k c).
Proof.
  intros Hh. destruct h; cbn [handle];
    [ unfold on_resolve | unfold on_connect; cbv zeta | unfold on_handshake
    | unfold on_write | unfold on_read_status
    | unfold on_read_headers; cbv zeta | unfold on_read_content_length
    | unfold on_read_chunk_header; cbv zeta | unfold on_read_chunk_data
    | unfold on_read_until_eof | apply keeps_on_timeout | contradiction ];
    keeps_chain.
Qed.

Lemma keeps_deliver (c : conn_impl_t) (h : handler_t) (k : completion_t) :
  keeps c (deliver h k c).
Proof. unfold deliver. destruct h; keeps_chain. Qed.

(** Every event of a life keeps [settled] and keeps the promise of a final
    state. *)
Lemma keeps_dispatch (cap : N) (c : conn_impl_t) (ev : event_t) :
  invariant cap c -> keeps c (dispatch c ev).
Proof.
  intros I. unfold dispatch.
  destruct (calling c) as [[e n|e n]|] eqn:C; destruct ev as [|h k|p];
    try apply keeps_refl.
  - apply keeps_trans with (set_calling None c); [keeps_step|].
    apply (keeps_handle _ h_on_read_chunk_header
             (make_completion e "" 0 p)). discriminate.
  - apply keeps_trans with (set_calling None c); [keeps_step|].
    apply (keeps_handle _ h_on_read_chunk_data
             (make_completion e "" 0 p)). discriminate.
  - apply keeps_start.
  - destruct (is_pending h c) eqn:P; [|apply keeps_refl].
    set (c1 := set_pending (remove_pending h (pending c)) c).
    assert (G1 : keeps c (deliver h k c1)).
    { apply keeps_trans with c1; [unfold c1; keeps_step | apply keeps_deliver]. }
    destruct (handler_t_eq_dec h h_on_dispose_timer) as [->|Hh].
    + destruct (in_final_state c) eqn:F.
      * cbn [handle deliver]. rewrite on_dispose_timer_closed;
          [exact G1 | exact F | exact (inv_not_expired cap c I)].
      * destruct (inv_open cap c I F) as [_ D]. rewrite D in P. discriminate P.
    + apply keeps_trans with (deliver h k c1); [exact G1|].
      now apply keeps_handle.
Qed.

Lemma settled_constructed (c : conn_impl_t) : constructed c -> settled c.
Proof.
  intros [r|r o rd]; split; cbn; try discriminate;
    try (intros _; repeat split); try (intros ? []); unfold count; cbn; lia.
Qed.

Lemma keeps_run (cap : N) (evs : list event_t) (c : conn_impl_t) :
  invariant cap c -> keeps c (run c evs).
Proof.
  revert c. induction evs as [|ev evs IH]; intros c I; simpl;
    [apply keeps_refl|].
  apply keeps_trans with (dispatch c ev); [exact (keeps_dispatch cap c ev I)|].
  apply IH. exact (invariant_step cap c ev I).
Qed.

End Settled.

(** * The future over a life *)

Section Lives.

Context {collab : collaborators}.

Lemma settled_run (c0 : conn_impl_t) (evs : list event_t) :
  constructed c0 -> settled (run c0 evs).
Proof.
  intros C.
  apply (keeps_run (rcap c0) evs c0 (invariant_constructed c0 C)).
  now apply settled_constructed.
Qed.

(** X8.  At every point of a life the future is ready exactly when the
    connection is in a final state, and what it then holds, the response or
    the error thrown, carries the state of the connection as its error
    kind. *)
Theorem future_carries_final_state (c0 : conn_impl_t) (evs : list event_t) :
  constructed c0 ->
  match promise (run c0 evs) with
  | Some o =>
      in_final_state (run c0 evs) = true /\
      exists msg, outcome_error o = Some (state (run c0 evs), msg)
  | None => in_final_state (run c0 evs) = false
  end.
Proof.
  intros C.
  pose proof (invariant_run (rcap c0) c0 evs (invariant_constructed c0 C)) as I.
  pose proof (settled_run c0 evs C) as S.
  destruct (promise (run c0 evs)) as [o|] eqn:P.
  - split.
    + destruct (in_final_state (run c0 evs)) eqn:F; [reflexivity|].
      destruct (inv_open _ _ I F) as [P' _]. congruence.
    + now apply (settled_carries _ S).
  - destruct (in_final_state (run c0 evs)) eqn:F; [|reflexivity].
    exfalso. now apply (inv_closed _ _ I F).
Qed.

(** X10.  The final callback never sees the body: every response that a
    life hands to the final callback has an empty [raw], because [end_]
    calls the callback before it moves the body into the response. *)
Theorem final_callback_sees_no_body (c0 : conn_impl_t) (evs : list event_t)
    (r : response_t.t) :
  constructed c0 ->
  In (op_final_callback r) (ops (run c0 evs)) ->
  response_t.raw r = "".
Proof.
  intros C H. exact (settled_callback _ (settled_run c0 evs C) r H).
Qed.

(** X29.  The final callback is called once at most in a life, and not
    before the connection is in a final state. *)
Theorem final_callback_called_once (c0 : conn_impl_t) (evs : list event_t) :
  constructed c0 ->
  (count is_final_callback (ops (run c0 evs)) <= 1)%nat /\
  (in_final_state (run c0 evs) = false ->
   count is_final_callback (ops (run c0 evs)) = 0%nat).
Proof.
  intros C. pose proof (settled_run c0 evs C) as S. split.
  - exact (settled_once _ S).
  - intros F. now destruct (settled_open _ S F) as (_ & _ & Z).
Qed.

End Lives.

(** * The outcomes of the steps *)

Section Outcomes.

Context {collab : collaborators}.

(** A failure that a later step keeps. *)
Lemma fails_with_kept (c c' : conn_impl_t) (s : error_code_t) (msg : string) :
  final_code s = true -> s <> EXPIRED ->
  fails_with c s msg -> keeps c c' -> fails_with c' s msg.
Proof.
  intros Hs He [S (o & P & E)] [_ K].
  destruct K as [S' P'].
  - rewrite in_final_state_code, S. exact Hs.
  - now rewrite S.
  - split; [congruence|]. exists o. split; congruence.
Qed.

(** X11.  The timeout: a wait that was cancelled or failed changes
    nothing; an expiry in a state that is not final ends the connection in
    TIMEOUT, and the future gets an error of kind TIMEOUT with the message
    ["timeout"]; an expiry in a final state changes neither state nor future
    and closes the stream unless the request asks for keep-alive. *)
Theorem timeout_outcome (c : conn_impl_t) (e : ec_t) :
  (ec_bool e = true -> on_timeout c e = c) /\
  (in_final_state c = false -> promise c = None ->
   fails_with (on_timeout c no_error) TIMEOUT "timeout") /\
  (in_final_state c = true ->
   on_timeout c no_error =
   if request_t.keep_alive (request c) then c else stream_close c).
Proof.
  split; [|split].
  - intros E. unfold on_timeout. now rewrite E.
  - intros F P. unfold on_timeout.
    change (negb (ec_bool no_error)) with true. cbv iota.
    unfold set_timeout. rewrite F. cbv zeta.
    rewrite (set_state_open c TIMEOUT F). split.
    + now rewrite state_end.
    + match goal with
      | |- context [end_ ?x] =>
          destruct (outcome_error_end x P) as (o & P' & E')
      end.
      exists o. split; [exact P'|]. rewrite E'. reflexivity.
  - intros F. unfold on_timeout.
    change (negb (ec_bool no_error)) with true. cbv iota.
    unfold set_timeout. rewrite F.
    now destruct (request_t.keep_alive (request c)).
Qed.

(** X12.  Success: for a status code that is no redirect, [set_success] in
    a state that is not final ends the connection in SUCCESS.  The future
    gets the response, also when the request asks for exceptions, with the
    error member set to SUCCESS and ["success"] and with the body that has
    accumulated in [raw] moved into it. *)
Theorem success_delivers_body (c : conn_impl_t) :
  in_final_state c = false -> promise c = None ->
  is_redirect_code (response_t.status_code (response c)) = false ->
  state (set_success c) = SUCCESS /\
  promise (set_success c) =
  Some (value (response_t.set_raw (raw c)
                 (response_t.set_error (Some (SUCCESS, "success"))
                    (response c)))) /\
  raw (set_success c) = "".
Proof.
  intros F P R. unfold set_success. rewrite R, F. cbn [negb]. cbv zeta.
  rewrite (set_state_open c SUCCESS F).
  split; [now rewrite state_end|]. split.
  - rewrite promise_end by exact P. reflexivity.
  - rewrite end_normal. reflexivity.
Qed.

(** X13.  What [end_] does to the stream: with keep-alive and a
    [Connection: close] header in the response it cancels and closes the
    stream; with keep-alive and no such header it leaves the stream alone,
    neither cancelled nor closed; without keep-alive it cancels the
    operations of the stream and does not close it. *)
Theorem end_stream_policy (c : conn_impl_t) :
  let keep_alive := request_t.keep_alive (request c) in
  let close :=
    headers_contains (response_t.headers (response c)) "Connection" "close" in
  stream_is_open (end_ c) =
  (if keep_alive && close then false else stream_is_open c) /\
  exists l, ops (end_ c) = (ops c ++ l)%list /\
            existsb is_stream_cancel l = (negb keep_alive || close) /\
            existsb is_stream_close l = (keep_alive && close).
Proof.
  cbv zeta. rewrite end_normal. cbv zeta. cbn [stream_is_open ops].
  split; [reflexivity|].
  eexists. split; [reflexivity|].
  destruct (request_t.keep_alive (request c)),
    (headers_contains (response_t.headers (response c)) "Connection" "close"),
    (request_t.final_callback (request c)),
    (request_t.body_callback (request c)),
    (error_bool (response_t.error (response c)) &&
     request_t.throw_on_error (request c)); split; reflexivity.
Qed.

End Outcomes.

(** * The parser step and the reads of the body *)

Section Reads.

Context {collab : collaborators}.

Lemma append_empty (s : string) : s ++ "" = s.
Proof. induction s as [|c s IH]; simpl; [reflexivity|now rewrite IH]. Qed.

Lemma append_assoc (a b c : string) : (a ++ b) ++ c = a ++ b ++ c.
Proof. induction a as [|x a IH]; simpl; [reflexivity|now rewrite IH]. Qed.

(** One callback: the request stays, and the body goes to the body callback
    or to [raw]. *)
Lemma run_callback_body (c : conn_impl_t) (cb : parser_cb) :
  request (run_callback c cb) = request c /\
  response_buf (run_callback c cb) = response_buf c /\
  if request_t.body_callback (request c)
  then raw (run_callback c cb) = raw c /\
       ops (run_callback c cb) = (ops c ++ body_calls [cb])%list
  else raw (run_callback c cb) = raw c ++ body_text [cb] /\
       ops (run_callback c cb) = ops c.
Proof.
  destruct cb; cbn [run_callback body_calls body_text].
  - unfold status_fn. repeat split.
    destruct (request_t.body_callback (request c)); cbn;
      now rewrite ?app_nil_r, ?append_empty.
  - unfold header_field_fn. repeat split.
    destruct (request_t.body_callback (request c)); cbn;
      now rewrite ?app_nil_r, ?append_empty.
  - unfold header_value_fn. cbv zeta.
    destruct (String.eqb (tolower (header_field c)) "set-cookie");
      (repeat split);
      destruct (request_t.body_callback (request c)); cbn;
      now rewrite ?app_nil_r, ?append_empty.
  - unfold headers_complete_fn. cbv zeta. repeat split.
    destruct (request_t.body_callback (request c)); cbn;
      now rewrite ?app_nil_r, ?append_empty.
  - unfold body_fn.
    destruct (request_t.body_callback (request c)) eqn:B.
    + repeat split.
    + repeat split. cbn. now rewrite append_empty.
  - unfold chunk_header_fn. repeat split.
    destruct (request_t.body_callback (request c)); cbn;
      now rewrite ?app_nil_r, ?append_empty.
Qed.

Lemma body_calls_app (l1 l2 : list parser_cb) :
  body_calls (l1 ++ l2) = (body_calls l1 ++ body_calls l2)%list.
Proof.
  induction l1 as [|cb l1 IH]; [reflexivity|].
  destruct cb; cbn; now rewrite ?IH.
Qed.

Lemma body_text_cons (cb : parser_cb) (l : list parser_cb) :
  body_text (cb :: l) = body_text [cb] ++ body_text l.
Proof. destruct cb; cbn; now rewrite ?append_assoc, ?append_empty. Qed.

Lemma body_calls_cons (cb : parser_cb) (l : list parser_cb) :
  body_calls (cb :: l) = (body_calls [cb] ++ body_calls l)%list.
Proof. destruct cb; reflexivity. Qed.

Lemma fold_callbacks_body (l : list parser_cb) (c : conn_impl_t) :
  request (fold_left run_callback l c) = request c /\
  response_buf (fold_left run_callback l c) = response_buf c /\
  if request_t.body_callback (request c)
  then raw (fold_left run_callback l c) = raw c /\
       ops (fold_left run_callback l c) = (ops c ++ body_calls l)%list
  else raw (fold_left run_callback l c) = raw c ++ body_text l /\
       ops (fold_left run_callback l c) = ops c.
Proof.
  revert c. induction l as [|cb l IH]; intros c.
  - cbn. repeat split.
    destruct (request_t.body_callback (request c));
      now rewrite ?app_nil_r, ?append_empty.
  - cbn [fold_left].
    destruct (IH (run_callback c cb)) as (R & B & H).
    destruct (run_callback_body c cb) as (R1 & B1 & H1).
    rewrite R1 in *. split; [congruence|]. split; [congruence|].
    rewrite body_text_cons, body_calls_cons.
    destruct (request_t.body_callback (request c)).
    + destruct H as [Ha Hb], H1 as [H1a H1b].
      split; [congruence|]. now rewrite Hb, H1b, app_assoc.
    + destruct H as [Ha Hb], H1 as [H1a H1b].
      split; [|congruence]. now rewrite Ha, H1a, append_assoc.
Qed.

(** X14.  The body that the parser hands over in one call of
    [execute_parser]: with a body callback in the request every piece goes
    to the callback, in order, and [raw] stays as it is; without one the
    pieces are appended to [raw], in order, and no operation is issued. *)
Theorem body_accumulates (c : conn_impl_t) (p : parse_t) :
  if request_t.body_callback (request c)
  then raw (fst (execute_parser c p)) = raw c /\
       ops (fst (execute_parser c p)) =
       (ops c ++ body_calls (callbacks p))%list
  else raw (fst (execute_parser c p)) = raw c ++ body_text (callbacks p) /\
       ops (fst (execute_parser c p)) = ops c.
Proof.
  unfold execute_parser. cbv zeta. cbn [fst].
  destruct (fold_callbacks_body (callbacks p) c) as (_ & _ & H).
  exact H.
Qed.

Lemma length_consume (n : N) (buf : string) :
  size (consume n buf) = size buf - n.
Proof.
  unfold consume, substr_from, size.
  rewrite length_substring_rest. lia.
Qed.

(** X15.  What [execute_parser] does to the response buffer: the callbacks
    leave it alone, and then the characters that the parser reports as
    parsed are taken from its front, all of them when the parser reports
    more than the buffer holds.  The answer is true exactly when the parser
    reports at least one character. *)
Theorem execute_parser_consumes (c : conn_impl_t) (p : parse_t) :
  response_buf (fst (execute_parser c p)) =
  consume (nparsed p) (response_buf c) /\
  response_buf c =
  substring 0 (N.to_nat (nparsed p)) (response_buf c) ++
  response_buf (fst (execute_parser c p)) /\
  size (response_buf (fst (execute_parser c p))) =
  size (response_buf c) - nparsed p /\
  (snd (execute_parser c p) = true <-> 0 < nparsed p).
Proof.
  unfold execute_parser. cbv zeta. cbn [fst snd response_buf set_response_buf].
  destruct (fold_callbacks_body (callbacks p) c) as (_ & B & _).
  rewrite B. split; [reflexivity|]. split; [|split].
  - unfold consume, substr_from. apply substring_split.
  - apply length_consume.
  - apply N.ltb_lt.
Qed.

(** X16.  How the body is read: a [Content-Length] header decides for the
    read of a fixed length, also when the response says that it is chunked;
    without it a [Transfer-Encoding] header that holds [chunked] decides for
    the chunked read; otherwise the body is read until the end of file, one
    character or more at a time. *)
Theorem read_content_choice (c : conn_impl_t) :
  in_final_state c = false ->
  let h := response_t.headers (response c) in
  (headers_count h "Content-Length" <> 0 ->
   read_content c = read_content_length c /\
   state (read_content c) = READ_CONTENT_LENGTH) /\
  (headers_count h "Content-Length" = 0 ->
   headers_contains h "Transfer-Encoding" "chunked" = true ->
   read_content c = read_chunk_header c /\
   state (read_content c) = READ_CHUNK_HEADER) /\
  (headers_count h "Content-Length" = 0 ->
   headers_contains h "Transfer-Encoding" "chunked" = false ->
   state (read_content c) = READ_UNTIL_EOF /\
   ops (read_content c) = (ops c ++ [op_stream_async_read 1])%list).
Proof.
  intros F. cbv zeta. unfold read_content. split; [|split].
  - intros H. apply N.eqb_neq in H. rewrite H. cbn [negb].
    split; [reflexivity|]. unfold read_content_length. cbv zeta.
    rewrite (set_state_open c _ F). reflexivity.
  - intros H T. rewrite H, T. cbn [N.eqb negb].
    split; [reflexivity|]. unfold read_chunk_header. cbv zeta.
    rewrite (set_state_open c _ F).
    now destruct (peek_crlf _).
  - intros H T. rewrite H, T. cbn [N.eqb negb].
    unfold read_until_eof. cbv zeta. rewrite (set_state_open c _ F).
    split; reflexivity.
Qed.

(** X17.  The read of a body of fixed length asks for what is missing: the
    declared length less the characters that the buffer holds already, and
    nothing when the buffer holds the declared length or more. *)
Theorem read_content_length_asks_for_the_rest (c : conn_impl_t) :
  content_length c < size_max ->
  ops (read_content_length c) =
  (ops c ++
   [op_stream_async_read (content_length c - size (response_buf c))])%list /\
  pending (read_content_length c) = h_on_read_content_length :: pending c.
Proof.
  intros M. unfold read_content_length. cbv zeta.
  assert (E : forall s, content_length (set_state c s) = content_length c /\
                        response_buf (set_state c s) = response_buf c /\
                        ops (set_state c s) = ops c /\
                        pending (set_state c s) = pending c).
  { intros s. destruct (set_state_cases c s) as [-> | ->]; repeat split. }
  destruct (E READ_CONTENT_LENGTH) as (E1 & E2 & E3 & E4).
  cbn [ops pending async emit set_pending set_ops].
  rewrite E1, E2, E3, E4. split; [|reflexivity].
  destruct (content_length c <? size (response_buf c)) eqn:L.
  - apply N.ltb_lt in L. replace (content_length c - size (response_buf c))
      with 0 by lia. reflexivity.
  - apply N.ltb_ge in L. now rewrite size_sub_exact.
Qed.

End Reads.

(** * The end of the headers and of the body *)

Section Ends.

Context {collab : collaborators}.

Lemma promise_run_callback (c : conn_impl_t) (cb : parser_cb) :
  promise (run_callback c cb) = promise c.
Proof.
  destruct cb; try reflexivity; cbn [run_callback].
  - unfold header_value_fn. cbv zeta.
    now destruct (String.eqb (tolower (header_field c)) "set-cookie").
  - unfold body_fn. now destruct (request_t.body_callback (request c)).
Qed.

Lemma promise_execute_parser (c : conn_impl_t) (p : parse_t) :
  promise (fst (execute_parser c p)) = promise c.
Proof.
  unfold execute_parser. cbv zeta. cbn [fst].
  change (promise (fold_left run_callback (callbacks p) c) = promise c).
  generalize (callbacks p) as l. intros l. revert c.
  induction l as [|cb l IH]; intros c; cbn [fold_left]; [reflexivity|].
  now rewrite IH, promise_run_callback.
Qed.

Lemma open_execute_parser (c : conn_impl_t) (p : parse_t) :
  in_final_state c = false ->
  in_final_state (fst (execute_parser c p)) = false.
Proof.
  intros F. rewrite in_final_state_code, state_execute_parser,
    <- in_final_state_code. exact F.
Qed.

Lemma set_success_state (c : conn_impl_t) :
  in_final_state c = false ->
  is_redirect_code (response_t.status_code (response c)) = false ->
  state (set_success c) = SUCCESS.
Proof.
  intros F R. unfold set_success. rewrite R, F. cbn [negb]. cbv zeta.
  rewrite (set_state_open c SUCCESS F). now rewrite state_end.
Qed.

Lemma eof_is_error (e : ec_t) :
  is_eof e = true -> ec_bool e = true /\ e <> operation_aborted.
Proof.
  unfold is_eof. intros H. apply andb_true_iff in H as [H1 H2].
  split; [exact H1|]. intros ->. discriminate H2.
Qed.

(** X18.  A header read that completes, with success or with an end of
    file, on an empty response buffer ends a connection that is not in a
    final state in READ_HEADERS_ERROR with the message ["no headers"]; what
    the parser then makes of the empty buffer does not change this
    outcome. *)
Theorem empty_header_block_is_an_error (c : conn_impl_t) (e : ec_t)
    (p : parse_t) :
  in_final_state c = false -> promise c = None ->
  response_buf c = "" ->
  ec_bool e = false \/ is_eof e = true ->
  fails_with (on_read_headers c e p) READ_HEADERS_ERROR "no headers".
Proof.
  intros F P B E. unfold on_read_headers.
  assert (Z : ec_bool e && negb (is_eof e) = false).
  { destruct E as [E|E]; rewrite E; [reflexivity|apply andb_false_r]. }
  rewrite Z, B. change (size "" =? 0) with true. cbv iota zeta.
  pose proof (set_error_fails c READ_HEADERS_ERROR "no headers" F P) as H0.
  set (c1 := set_error c READ_HEADERS_ERROR "no headers") in *.
  pose proof (keeps_execute_parser c1 p) as K.
  destruct (execute_parser c1 p) as [c2 parsed]. cbn [fst] in K.
  assert (H2 : fails_with c2 READ_HEADERS_ERROR "no headers")
    by (apply (fails_with_kept c1); [reflexivity|discriminate|exact H0|exact K]).
  destruct parsed; cbn [negb].
  - apply (fails_with_kept c2);
      [reflexivity|discriminate|exact H2|apply keeps_read_content].
  - apply (fails_with_kept c2);
      [reflexivity|discriminate|exact H2|].
    apply keeps_set_error; [reflexivity|discriminate].
Qed.

(** X19.  The read until the end of file: a read that completes without
    an error feeds nothing to the parser and issues the next read, so that
    the body gathers in the response buffer; at the end of file the parser
    is fed once, and a parser that takes nothing, as for an empty body, ends
    the connection in READ_UNTIL_EOF_ERROR with the message
    ["until eof error"], while a parser that takes something leads to
    [set_success], which for a status that is no redirect is SUCCESS. *)
Theorem read_until_eof_policy (c : conn_impl_t) (e : ec_t) (p : parse_t) :
  in_final_state c = false -> promise c = None ->
  (on_read_until_eof c no_error p = read_until_eof c /\
   response_buf (read_until_eof c) = response_buf c /\
   raw (read_until_eof c) = raw c /\
   ops (read_until_eof c) = (ops c ++ [op_stream_async_read 1])%list) /\
  (is_eof e = true -> nparsed p = 0 ->
   fails_with (on_read_until_eof c e p) READ_UNTIL_EOF_ERROR
     "until eof error") /\
  (is_eof e = true -> 0 < nparsed p ->
   on_read_until_eof c e p = set_success (fst (execute_parser c p)) /\
   (is_redirect_code
      (response_t.status_code (response (fst (execute_parser c p)))) = false ->
    state (on_read_until_eof c e p) = SUCCESS)).
Proof.
  intros F P. split; [|split].
  - split; [reflexivity|]. unfold read_until_eof. cbv zeta.
    rewrite (set_state_open c _ F). repeat split.
  - intros E Z. destruct (eof_is_error e E) as [B A].
    unfold on_read_until_eof. rewrite B, E. cbn [negb].
    pose proof (open_execute_parser c p F) as F'.
    pose proof (promise_execute_parser c p) as P'.
    pose proof (snd_execute_parser c p) as S. rewrite Z in S.
    destruct (execute_parser c p) as [c2 parsed]. cbn [fst snd] in *.
    subst parsed. cbn [negb].
    apply set_error_fails; [exact F'|congruence].
  - intros E Z. destruct (eof_is_error e E) as [B A].
    unfold on_read_until_eof. rewrite B, E. cbn [negb].
    pose proof (open_execute_parser c p F) as F'.
    pose proof (snd_execute_parser c p) as S.
    apply N.ltb_lt in Z. rewrite Z in S.
    destruct (execute_parser c p) as [c2 parsed]. cbn [fst snd] in *.
    subst parsed. cbn [negb]. split; [reflexivity|].
    intros R. now apply set_success_state.
Qed.

(** X20.  The end of file in a chunked body.  Where a chunk header is
    expected it counts as the end of the body: the buffer is not parsed,
    and for a status that is no redirect the connection ends in SUCCESS,
    though no last chunk has arrived.  Inside the data of a chunk it is
    READ_CHUNK_DATA_ERROR when the buffer holds less than the chunk, and
    otherwise the parser is fed: a parser that takes nothing gives
    READ_CHUNK_DATA_ERROR with ["chunk data error"], one that takes
    something leads on to the next chunk header. *)
Theorem chunked_end_of_file (c : conn_impl_t) (e : ec_t) (p : parse_t) :
  in_final_state c = false -> promise c = None -> is_eof e = true ->
  on_read_chunk_header c e p = set_success c /\
  (is_redirect_code (response_t.status_code (response c)) = false ->
   state (on_read_chunk_header c e p) = SUCCESS) /\
  (size (response_buf c) < content_length c ->
   fails_with (on_read_chunk_data c e p) READ_CHUNK_DATA_ERROR
     (ec_message e)) /\
  (content_length c <= size (response_buf c) -> nparsed p = 0 ->
   fails_with (on_read_chunk_data c e p) READ_CHUNK_DATA_ERROR
     "chunk data error") /\
  (content_length c <= size (response_buf c) -> 0 < nparsed p ->
   on_read_chunk_data c e p = read_chunk_header (fst (execute_parser c p))).
Proof.
  intros F P E. destruct (eof_is_error e E) as [B A].
  assert (H1 : on_read_chunk_header c e p = set_success c).
  { unfold on_read_chunk_header. now rewrite B, E. }
  split; [exact H1|]. split; [|split; [|split]].
  - intros R. rewrite H1. now apply set_success_state.
  - intros L. apply N.ltb_lt in L.
    unfold on_read_chunk_data. rewrite B, E, L. cbn [negb andb].
    now apply set_error_ec_fails.
  - intros L Z. apply N.ltb_ge in L.
    unfold on_read_chunk_data. rewrite B, E, L. cbn [negb andb].
    pose proof (open_execute_parser c p F) as F'.
    pose proof (promise_execute_parser c p) as P'.
    pose proof (snd_execute_parser c p) as S. rewrite Z in S.
    destruct (execute_parser c p) as [c2 parsed]. cbn [fst snd] in *.
    subst parsed. cbn [negb].
    apply set_error_fails; [exact F'|congruence].
  - intros L Z. apply N.ltb_ge in L.
    unfold on_read_chunk_data. rewrite B, E, L. cbn [negb andb].
    pose proof (snd_execute_parser c p) as S.
    apply N.ltb_lt in Z. rewrite Z in S.
    destruct (execute_parser c p) as [c2 parsed]. cbn [fst snd] in *.
    now subst parsed.
Qed.

End Ends.

(** * Redirects and the start *)

Section Redirects.

Context {collab : collaborators}.

(** X21.  A redirect that is followed.  [perform_redirect] with redirects
    left and a [Location] header counts the redirect, takes the URI of the
    header into the request and prepares it, starts a blank response whose
    chain holds the responses so far, two of them after the first redirect
    and one more after every later one, drains both buffers, resets the
    members that the parser fills, replaces the stream and starts to
    resolve.  Its steps are not guarded by the state: in a final state it
    does all of this too, and only the state stays. *)
Theorem redirect_followed (c : conn_impl_t) :
  is_redirect_exhausted (response c) = false ->
  headers_count (response_t.headers (response c)) "Location" <> 0 ->
  let location := headers_at (response_t.headers (response c)) "Location" in
  let c' := perform_redirect c in
  request c' =
  prepare (request_t.set_uri (uri_from_string location) (request c)) /\
  rcount c' = rcount c + 1 /\
  List.length (response_t.redirects (response c')) =
  match response_t.redirects (response c) with
  | [] => 2%nat
  | _ :: _ => S (List.length (response_t.redirects (response c)))
  end /\
  response_t.set_redirects [] (response c') =
  response_t.set_redirect_count (rcount c + 1)
    (response_t.of_request (request c')) /\
  (request_buf c' = "" /\ response_buf c' = "" /\ raw c' = "" /\
   headers c' = [] /\ header_field c' = "" /\ content_length c' = 0) /\
  stream_is_open c' = false /\
  ops c' =
  (ops c ++
   [op_redirect location; op_stream_new; op_parser_new;
    op_resolver_async_resolve (domain (request_t.uri (request c')))
                              (port (request_t.uri (request c')))])%list /\
  pending c' = h_on_resolve :: pending c /\
  (in_final_state c = false -> state c' = RESOLVE) /\
  (in_final_state c = true -> state c <> EXPIRED -> state c' = state c).
Proof.
  intros X L. cbv zeta. apply N.eqb_neq in L.
  unfold perform_redirect. rewrite X, L. cbv zeta.
  rewrite drain_request_buf, drain_response_buf.
  unfold resolve. cbv zeta.
  match goal with
  | |- context [set_state ?y RESOLVE] => set (c4 := y)
  end.
  assert (S : state c4 = state c) by reflexivity.
  assert (F4 : in_final_state c4 = in_final_state c) by reflexivity.
  split; [|split; [|split; [|split; [|split; [|split; [|split; [|split]]]]]]].
  - destruct (set_state_cases c4 RESOLVE) as [-> | ->]; reflexivity.
  - destruct (set_state_cases c4 RESOLVE) as [-> | ->]; reflexivity.
  - destruct (set_state_cases c4 RESOLVE) as [-> | ->];
      cbn; destruct (response_t.redirects (response c)) as [|r l];
      cbn; rewrite ?length_app; cbn; lia.
  - destruct (set_state_cases c4 RESOLVE) as [-> | ->]; reflexivity.
  - destruct (set_state_cases c4 RESOLVE) as [-> | ->]; repeat split.
  - destruct (set_state_cases c4 RESOLVE) as [-> | ->]; reflexivity.
  - destruct (set_state_cases c4 RESOLVE) as [-> | ->];
      cbn; now rewrite <- !app_assoc.
  - destruct (set_state_cases c4 RESOLVE) as [-> | ->]; reflexivity.
  - split.
    + intros F. rewrite set_state_open by (rewrite F4; exact F). reflexivity.
    + intros F E. rewrite set_state_closed;
        [reflexivity | rewrite F4; exact F | rewrite S; exact E].
Qed.

End Redirects.

Section RedirectFailures.

Context {collab : collaborators}.

(** X22.  A redirect that cannot be followed.  For a redirect status and a
    request that follows redirects, [set_success] in a state that is not
    final ends in REDIRECT_EXHAUSTED with ["redirect exhausted"] when the
    responses so far have used up the limit of the request, whether there
    is a [Location] header or not, and in REDIRECT_ERROR with
    ["no Location."] when redirects are left and the response has no
    [Location] header. *)
Theorem redirect_failures (c : conn_impl_t) :
  in_final_state c = false -> promise c = None ->
  is_redirect_code (response_t.status_code (response c)) = true ->
  request_t.redirect (request c) = true ->
  (rcap c <= rcount c ->
   fails_with (set_success c) REDIRECT_EXHAUSTED "redirect exhausted") /\
  (rcount c < rcap c ->
   headers_count (response_t.headers (response c)) "Location" = 0 ->
   fails_with (set_success c) REDIRECT_ERROR "no Location.").
Proof.
  intros F P R D. unfold set_success, perform_redirect. rewrite R, D.
  unfold is_redirect_exhausted. fold (request c). fold (rcap c) (rcount c).
  split.
  - intros X. apply N.leb_le in X. rewrite X.
    now apply set_error_fails.
  - intros X L. apply N.leb_gt in X. rewrite X, L. cbn [N.eqb].
    now apply set_error_fails.
Qed.

(** X23.  The first step of [start].  A connection of the first
    constructor starts to resolve; a reused connection whose stream is open
    writes the request at once; a reused connection whose stream is closed
    restarts, which clears the reuse flag and starts to resolve.  Each arms
    the timeout timer, and the restart arms it twice, once in the [start]
    that [restart] calls and once more on the way back. *)
Theorem start_first_step (request_ : request_t.t)
    (redirects : list response_t.t) :
  let wait := op_timeout_timer_async_wait (request_t.timeout request_) in
  let resolving :=
    op_resolver_async_resolve (domain (request_t.uri request_))
                              (port (request_t.uri request_)) in
  let fresh := start (conn_impl_new request_) in
  let warm := start (conn_impl_reuse request_ true redirects) in
  let cold := start (conn_impl_reuse request_ false redirects) in
  (state fresh = RESOLVE /\ ops fresh = [resolving; wait] /\
   pending fresh = [h_on_timeout; h_on_resolve]) /\
  (state warm = WRITE /\ ops warm = [op_stream_async_write; wait] /\
   pending warm = [h_on_timeout; h_on_write] /\
   request_buf warm = make_request request_ /\ is_reused warm = true) /\
  (state cold = RESOLVE /\
   ops cold = [op_restart; op_stream_cancel; op_stream_new; op_parser_new;
               resolving; wait; wait] /\
   pending cold = [h_on_timeout; h_on_timeout; h_on_resolve] /\
   is_reused cold = false).
Proof. cbv zeta. repeat split. Qed.

End RedirectFailures.

(** * The protocol steps in their order *)

Section Protocol.

Context {collab : collaborators}.

(** X30.  The steps of a request follow each other in a fixed order.  In a
    state that is not final, a completion without error leads from the
    resolve to the connect, from the connect to the handshake, before which
    the keep-alive option is set when the request asks for it, from the
    handshake to the write of the request, which [make_request] has appended
    to the request buffer, and from the write to the read of the status
    line.  The status read then feeds the parser: a parser that takes
    something leads to the read of the headers, and one that takes nothing
    ends the connection in READ_STATUS_DATA_ERROR with
    ["bad status data"]. *)
Theorem protocol_steps_in_order (c : conn_impl_t) (p : parse_t) :
  in_final_state c = false ->
  (state (on_resolve c no_error) = CONNECT /\
   ops (on_resolve c no_error) = (ops c ++ [op_stream_async_connect])%list) /\
  (state (on_connect c no_error) = HANDSHAKE /\
   ops (on_connect c no_error) =
   (ops c ++
    (if request_t.keep_alive (request c)
     then [op_stream_set_option_keep_alive] else []) ++
    [op_stream_async_handshake])%list) /\
  (state (on_handshake c no_error) = WRITE /\
   ops (on_handshake c no_error) = (ops c ++ [op_stream_async_write])%list /\
   request_buf (on_handshake c no_error) =
   request_buf c ++ make_request (request c)) /\
  (state (on_write c no_error) = READ_STATUS /\
   ops (on_write c no_error) =
   (ops c ++ [op_stream_async_read_until CRLF])%list) /\
  (0 < nparsed p ->
   state (on_read_status c no_error p) = READ_HEADERS /\
   is_pending h_on_read_headers (on_read_status c no_error p) = true) /\
  (nparsed p = 0 -> promise c = None ->
   fails_with (on_read_status c no_error p) READ_STATUS_DATA_ERROR
     "bad status data").
Proof.
  intros F.
  unfold on_resolve, on_connect, on_handshake, on_write, on_read_status.
  change (ec_bool no_error) with false. cbv iota.
  split; [|split; [|split; [|split; [|split]]]].
  - unfold connect. cbv zeta. rewrite (set_state_open c _ F).
    split; reflexivity.
  - cbv zeta. unfold handshake. cbv zeta.
    destruct (request_t.keep_alive (request c));
      rewrite set_state_open by exact F; split; try reflexivity.
    cbn. now rewrite <- app_assoc.
  - unfold write. cbv zeta. rewrite set_state_open by exact F.
    repeat split.
  - unfold read_status. cbv zeta. rewrite (set_state_open c _ F).
    split; reflexivity.
  - intros Z. pose proof (open_execute_parser c p F) as F'.
    pose proof (snd_execute_parser c p) as S.
    apply N.ltb_lt in Z. rewrite Z in S.
    destruct (execute_parser c p) as [c2 parsed]. cbn [fst snd] in *.
    subst parsed. cbn [negb]. unfold read_headers. cbv zeta.
    rewrite (set_state_open c2 _ F'). split; reflexivity.
  - intros Z P. pose proof (open_execute_parser c p F) as F'.
    pose proof (promise_execute_parser c p) as P'.
    pose proof (snd_execute_parser c p) as S. rewrite Z in S.
    destruct (execute_parser c p) as [c2 parsed]. cbn [fst snd] in *.
    subst parsed. cbn [negb].
    apply set_error_fails; [exact F'|congruence].
Qed.

End Protocol.

(** * The session *)

Section SessionExtras.

Context {collab : collaborators}.

(** X24.  [can_reuse_connection] is an equivalence on requests, the
    equality of domain, port and protocol: it holds of a request and
    itself, it does not depend on the order of its arguments, and it
    carries over a chain of requests; path, query and every option are
    ignored. *)
Theorem can_reuse_connection_equivalence (a b c : request_t.t) :
  (can_reuse_connection a b = true <->
   domain (request_t.uri a) = domain (request_t.uri b) /\
   port (request_t.uri a) = port (request_t.uri b) /\
   protocol (request_t.uri a) = protocol (request_t.uri b)) /\
  can_reuse_connection a a = true /\
  can_reuse_connection a b = can_reuse_connection b a /\
  (can_reuse_connection a b = true -> can_reuse_connection b c = true ->
   can_reuse_connection a c = true).
Proof.
  assert (E : forall x y : request_t.t,
             can_reuse_connection x y = true <->
             domain (request_t.uri x) = domain (request_t.uri y) /\
             port (request_t.uri x) = port (request_t.uri y) /\
             protocol (request_t.uri x) = protocol (request_t.uri y)).
  { intros x y. unfold can_reuse_connection.
    rewrite !andb_true_iff, !String.eqb_eq. intuition congruence. }
  split; [apply E|]. split; [apply E; auto|]. split.
  - destruct (can_reuse_connection a b) eqn:H1;
      destruct (can_reuse_connection b a) eqn:H2; try reflexivity.
    + apply E in H1. assert (H3 : can_reuse_connection b a = true)
        by (apply E; intuition congruence). congruence.
    + apply E in H2. assert (H3 : can_reuse_connection a b = true)
        by (apply E; intuition congruence). congruence.
  - intros H1 H2. apply E in H1, H2. apply E. intuition congruence.
Qed.

(** X25.  What [Send] sends after an earlier response.  Without
    [cache_redirects] the pending request is prepared.  With
    [cache_redirects] and no cached redirect for the request, it is not
    prepared: the request goes out as it is, but for the cookies of a
    reused connection. *)
Theorem cached_miss_skips_prepare (s : session_impl_t) (last : conn_impl_t)
    (r : response_t.t) :
  connection s = Some last ->
  promise last = Some (value r) ->
  (request_t.cache_redirects (pending_request s) = false ->
   exists s', Send s = sent s' /\
     (pending_request s' = prepare (pending_request s) \/
      pending_request s' =
      with_updated_cookies (prepare (pending_request s)) r)) /\
  (request_t.cache_redirects (pending_request s) = true ->
   redirects_find (response_t.redirects r) (pending_request s) = None ->
   exists s', Send s = sent s' /\
     (pending_request s' = pending_request s \/
      pending_request s' = with_updated_cookies (pending_request s) r)).
Proof.
  intros C P. split.
  - intros B.
    assert (E : prepared_request s r = prepare (pending_request s))
      by (unfold prepared_request; now rewrite B).
    destruct (can_reuse_connection (prepared_request s r)
                (response_t.request r)) eqn:R.
    + rewrite (Send_reuse s last r C P R). eexists. split; [reflexivity|].
      right. cbn [pending_request]. now rewrite E.
    + rewrite (Send_fresh s last r C P R). eexists. split; [reflexivity|].
      left. cbn [pending_request]. exact E.
  - intros B M.
    assert (E : prepared_request s r = pending_request s)
      by (unfold prepared_request, skip_redirects; now rewrite B, M).
    destruct (can_reuse_connection (prepared_request s r)
                (response_t.request r)) eqn:R.
    + rewrite (Send_reuse s last r C P R). eexists. split; [reflexivity|].
      right. cbn [pending_request]. now rewrite E.
    + rewrite (Send_fresh s last r C P R). eexists. split; [reflexivity|].
      left. cbn [pending_request]. exact E.
Qed.

Lemma Send_throws_keeps (s : session_impl_t) (last : conn_impl_t)
    (e : error_t) :
  connection s = Some last ->
  promise last = Some (exception e) ->
  exists s', Send s = send_throws e s' /\ connection s' = Some last.
Proof.
  intros C P. unfold Send, future_get. rewrite C.
  destruct (request_t.cache_redirects (pending_request s));
    cbn [connection pending_request]; rewrite P; eexists;
    (split; [reflexivity|]); cbn [connection]; congruence.
Qed.

(** X26.  A session does not recover from an exception.  When the future
    of its connection holds an exception, [Send] rethrows it and leaves the
    connection in the session, so every further [Send] throws the same
    exception, however often the caller tries. *)
Theorem session_stays_broken (n : nat) (s : session_impl_t)
    (last : conn_impl_t) (e : error_t) :
  connection s = Some last ->
  promise last = Some (exception e) ->
  exists s', Send_again n s = send_throws e s' /\ connection s' = Some last.
Proof.
  revert s. induction n as [|n IH]; intros s C P.
  - now apply Send_throws_keeps.
  - cbn [Send_again].
    destruct (Send_throws_keeps s last e C P) as (s1 & E1 & C1).
    rewrite E1. now apply IH.
Qed.

(** X27.  [session_impl_t::is_expired] never answers true: a session
    without a connection is not expired, and no life of its connection
    reaches EXPIRED. *)
Theorem session_never_expired (s : session_impl_t) :
  (connection s = None -> session_is_expired s = false) /\
  (forall (c0 : conn_impl_t) (evs : list event_t),
     constructed c0 -> connection s = Some (run c0 evs) ->
     session_is_expired s = false).
Proof.
  unfold session_is_expired. split.
  - now intros ->.
  - intros c0 evs C ->. unfold is_expired.
    pose proof (invariant_run (rcap c0) c0 evs (invariant_constructed c0 C)) as I.
    destruct (error_code_t_beq (state (run c0 evs)) EXPIRED) eqn:E;
      [|reflexivity].
    apply internal_error_code_t_dec_bl in E.
    now apply (inv_not_expired _ _ I) in E.
Qed.

(** X28.  The connection that [Send] returns has been started and nothing
    of it has completed: it is built for the pending request as [Send]
    leaves it, its state is RESOLVE, or WRITE for a reused connection whose
    stream is open, its future holds nothing yet, and its timeout timer is
    armed. *)
Theorem Send_starts_connection (s s' : session_impl_t) :
  Send s = sent s' ->
  exists c, connection s' = Some c /\
            request c = pending_request s' /\
            promise c = None /\
            is_pending h_on_timeout c = true /\
            (state c = RESOLVE \/
             state c = WRITE /\ is_reused c = true /\
             exists last, connection s = Some last /\
                          stream_is_open last = true).
Proof.
  intros H.
  assert (N : forall rq, let c := start (conn_impl_new rq) in
            request c = rq /\ promise c = None /\
            is_pending h_on_timeout c = true /\ state c = RESOLVE)
    by (intros rq; repeat split).
  assert (U : forall rq b rd, let c := start (conn_impl_reuse rq b rd) in
            request c = rq /\ promise c = None /\
            is_pending h_on_timeout c = true /\
            (state c = RESOLVE \/
             state c = WRITE /\ is_reused c = true /\ b = true))
    by (intros rq [|] rd; repeat split; [right|left]; repeat split).
  destruct (connection s) as [last|] eqn:C.
  - destruct (promise last) as [[r|e]|] eqn:P.
    + destruct (can_reuse_connection (prepared_request s r)
                  (response_t.request r)) eqn:R.
      * rewrite (Send_reuse s last r C P R) in H. injection H as <-.
        eexists. split; [reflexivity|]. cbn [pending_request].
        destruct (U (with_updated_cookies (prepared_request s r) r)
                    (stream_is_open last) (response_t.redirects r))
          as (U1 & U2 & U3 & U4).
        repeat (split; [assumption|]).
        destruct U4 as [U4|(U4 & U5 & U6)]; [now left|right].
        repeat (split; [assumption|]). now exists last.
      * rewrite (Send_fresh s last r C P R) in H. injection H as <-.
        eexists. split; [reflexivity|]. cbn [pending_request].
        destruct (N (prepared_request s r)) as (N1 & N2 & N3 & N4).
        repeat (split; [assumption|]). now left.
    + destruct (Send_throws s last e C P) as [s1 E]. congruence.
    + exfalso. unfold Send, future_get in H. rewrite C in H.
      destruct (request_t.cache_redirects (pending_request s));
        cbn [connection pending_request] in H; rewrite P in H;
        discriminate H.
  - rewrite (Send_first s C) in H. injection H as <-.
    eexists. split; [reflexivity|]. cbn [pending_request].
    destruct (N (prepare (pending_request s))) as (N1 & N2 & N3 & N4).
    repeat (split; [assumption|]). now left.
Qed.

End SessionExtras.


(** * Concrete lives: witnesses and counterexamples *)

#[local] Existing Instance plain_collaborators.

(** C1 at the life in which the name is not resolved. *)
Lemma one_terminal_transition_witness :
  constructed (conn_impl_new (get_request true 5 false)) /\
  let c := run (conn_impl_new (get_request true 5 false)) resolve_fails in
  in_final_state c = true /\
  terminal_transitions (conn_impl_new (get_request true 5 false))
                       resolve_fails = 1%nat.
Proof.
  split; [constructor|].
  split; [vm_compute; reflexivity|].
  destruct (one_terminal_transition
              (conn_impl_new (get_request true 5 false)) resolve_fails
              (constructed_new _)) as (_ & H & _).
  apply H. vm_compute; reflexivity.
Defined.

(** C2 as stated fails: in the life in which the name is not resolved the
    promise is fulfilled once, and the dispose timer is armed before that,
    not after. *)
Lemma fulfilment_follows_arming :
  let c := run (conn_impl_new (get_request true 5 false)) resolve_fails in
  in_final_state c = true /\
  count is_fulfil (ops c) = 1%nat /\
  precedes is_fulfil is_arm (ops c) = false /\
  precedes is_arm is_fulfil (ops c) = true.
Proof. vm_compute. repeat split. Qed.

(** C2 as amended, at the same life. *)
Lemma promise_fulfilled_once_witness :
  constructed (conn_impl_new (get_request true 5 false)) /\
  let c := run (conn_impl_new (get_request true 5 false)) resolve_fails in
  count is_arm (ops c) = 1%nat /\
  precedes is_arm is_fulfil (ops c) = true /\
  precedes is_fulfil is_arm (ops c) = false.
Proof.
  split; [constructor|].
  destruct (promise_fulfilled_once
              (conn_impl_new (get_request true 5 false)) resolve_fails
              (constructed_new _)) as (_ & _ & _ & H & _).
  apply H. vm_compute; reflexivity.
Defined.

(** C3 at a connection that has read a 301 with [redirect] off: the
    completion of the body read leaves it in READ_CONTENT_LENGTH with the
    promise unfulfilled. *)
Lemma set_success_skips_disabled_redirect_witness :
  let c := run (conn_impl_new (get_request false 5 false))
               (headers_arrive 301 "301" "Content-Length" "1" 1) in
  is_redirect_code (response_t.status_code (response c)) = true /\
  request_t.redirect (request c) = false /\
  set_success c = c.
Proof.
  split; [vm_compute; reflexivity|]. split; [vm_compute; reflexivity|].
  apply set_success_skips_disabled_redirect; vm_compute; reflexivity.
Defined.

Example redirect_off_is_no_success :
  let c := run (conn_impl_new (get_request false 5 false))
               (headers_arrive 301 "301" "Content-Length" "1" 1 ++
                [body_arrives]) in
  state c = READ_CONTENT_LENGTH /\ promise c = None /\
  response_t.status_code (response c) = 301.
Proof. vm_compute. repeat split. Qed.

(** C4 at the life in which the name is not resolved: the dispose timer is
    pending, and its expiry leaves the state RESOLVE_ERROR. *)
Lemma dispose_timer_never_expires_witness :
  constructed (conn_impl_new (get_request true 5 false)) /\
  let c := run (conn_impl_new (get_request true 5 false)) resolve_fails in
  in_final_state c = true /\
  is_pending h_on_dispose_timer c = true /\
  state (dispatch c (ev_complete h_on_dispose_timer completed)) =
  RESOLVE_ERROR /\
  is_expired (dispatch c (ev_complete h_on_dispose_timer completed)) = false.
Proof.
  split; [constructor|].
  split; [vm_compute; reflexivity|]. split; [vm_compute; reflexivity|].
  pose proof (dispose_timer_never_expires
                (conn_impl_new (get_request true 5 false)) resolve_fails
                (constructed_new _)) as [_ H].
  assert (F : in_final_state
                (run (conn_impl_new (get_request true 5 false))
                     resolve_fails) = true) by (vm_compute; reflexivity).
  destruct (H F completed) as (_ & H1 & H2).
  split; [rewrite H1; vm_compute; reflexivity | exact H2].
Defined.

(** C5 at a reused connection that has restarted once and reached the write
    again. *)
Lemma restart_at_most_once_witness :
  constructed (conn_impl_reuse (get_request true 5 false) true []) /\
  let c := run (conn_impl_reuse (get_request true 5 false) true [])
               reuse_restarts in
  count is_restart (ops c) = 1%nat /\
  in_final_state c = false /\
  is_socket_closed eof = true /\
  state (on_write c eof) = WRITE_ERROR /\
  count is_restart (ops (on_write c eof)) = 1%nat.
Proof.
  split; [constructor|].
  split; [vm_compute; reflexivity|]. split; [vm_compute; reflexivity|]. split; [vm_compute; reflexivity|].
  pose proof (restart_at_most_once
                (conn_impl_reuse (get_request true 5 false) true [])
                reuse_restarts (constructed_reuse _ _ _)) as (_ & _ & H).
  assert (R : count is_restart
                (ops (run (conn_impl_reuse (get_request true 5 false) true [])
                          reuse_restarts)) = 1%nat)
    by (vm_compute; reflexivity).
  assert (F : in_final_state
                (run (conn_impl_reuse (get_request true 5 false) true [])
                     reuse_restarts) = false) by (vm_compute; reflexivity).
  destruct (H R) as [_ H'].
  destruct (H' F eof (make_parse [] 0) eq_refl) as (H1 & H2 & _).
  split; [exact H1 | exact H2].
Defined.

(** C6 at a connection with a redirect limit of zero that has read a 301. *)
Lemma redirects_within_limit_witness :
  constructed (conn_impl_new (get_request true 0 false)) /\
  let c := run (conn_impl_new (get_request true 0 false))
               (headers_arrive 301 "301" "Content-Length" "1" 1) in
  rcap c = 0 /\
  is_redirect_code (response_t.status_code (response c)) = true /\
  request_t.redirect (request c) = true /\
  in_final_state c = false /\
  state (set_success c) = REDIRECT_EXHAUSTED /\
  count is_redirect (ops (set_success c)) = count is_redirect (ops c).
Proof.
  split; [constructor|].
  split; [vm_compute; reflexivity|]. split; [vm_compute; reflexivity|]. split; [vm_compute; reflexivity|].
  split; [vm_compute; reflexivity|].
  pose proof (redirects_within_limit
                (conn_impl_new (get_request true 0 false))
                (headers_arrive 301 "301" "Content-Length" "1" 1)
                (constructed_new _)) as (_ & _ & _ & H).
  apply H; vm_compute; reflexivity.
Defined.

Example redirect_limit_zero_is_exhausted :
  let c := run (conn_impl_new (get_request true 0 false))
               (headers_arrive 301 "301" "Content-Length" "1" 1 ++
                [body_arrives]) in
  state c = REDIRECT_EXHAUSTED /\ count is_redirect (ops c) = 0%nat.
Proof. vm_compute. repeat split. Qed.



(** C8 as stated fails: a chunk header for three characters arrives with
    exactly three characters behind it; the buffer holds at least the chunk
    length, and yet the connection does not call the chunk-data completion
    but issues a read, for at least zero characters. *)
Lemma chunk_of_buffer_length_is_read :
  let c := run (conn_impl_new (get_request true 5 false))
               (headers_arrive 200 "200" "Transfer-Encoding" "chunked" (-1)) in
  let c' := dispatch c chunk_header_arrives in
  state c = READ_CHUNK_HEADER /\
  content_length c' = 3 /\
  content_length c' <= size (response_buf c') /\
  calling c' = None /\
  ops c' = (ops c ++ [op_stream_async_read 0])%list /\
  count is_io (ops c') = S (count is_io (ops c)).
Proof. vm_compute. repeat split; discriminate. Qed.

(** C8 as amended, at a chunk header for three characters with five
    characters behind it: the chunk-data completion is called, it feeds the
    parser, which takes the three characters of the chunk, and the
    connection goes on to the next chunk header. *)
Lemma chunk_data_after_header_witness :
  let c := set_response_buf ("3" ++ CRLF ++ "abcde")
             (run (conn_impl_new (get_request true 5 false))
                  (headers_arrive 200 "200" "Transfer-Encoding" "chunked" (-1))) in
  let p := make_parse [cb_chunk_header 3] 3 in
  let p' := make_parse [cb_body "abc"] 3 in
  let c' := on_read_chunk_header c no_error p in
  0 < nparsed p /\
  0 < content_length (fst (execute_parser c p)) /\
  content_length (fst (execute_parser c p)) < size_max /\
  content_length (fst (execute_parser c p)) <
  size (response_buf (fst (execute_parser c p))) /\
  ops c' = ops c /\
  calling c' = Some (call_on_read_chunk_data no_error 3) /\
  dispatch c' (ev_call p') =
  on_read_chunk_data
    (set_calling None (set_state (fst (execute_parser c p)) READ_CHUNK_DATA))
    no_error p' /\
  raw (dispatch c' (ev_call p')) = "abc" /\
  response_buf (dispatch c' (ev_call p')) = "de" /\
  state (dispatch c' (ev_call p')) = READ_CHUNK_HEADER.
Proof.
  cbv zeta.
  split; [vm_compute; reflexivity|]. split; [vm_compute; reflexivity|].
  split; [vm_compute; reflexivity|]. split; [vm_compute; reflexivity|].
  pose proof (chunk_data_after_header
                (set_response_buf ("3" ++ CRLF ++ "abcde")
                   (run (conn_impl_new (get_request true 5 false))
                        (headers_arrive 200 "200" "Transfer-Encoding"
                                        "chunked" (-1))))
                (make_parse [cb_chunk_header 3] 3)) as H.
  cbv zeta in H.
  destruct H as [H _]; try (vm_compute; reflexivity).
  destruct H as (H1 & H2 & _ & H4 & _); [vm_compute; reflexivity|].
  destruct (H4 (make_parse [cb_body "abc"] 3)) as [H5 _].
  split; [rewrite H2; vm_compute; reflexivity|].
  split; [rewrite H1; vm_compute; reflexivity|].
  split; [exact H5|].
  repeat split; vm_compute; reflexivity.
Defined.

(** C9 at ["u:p"]. *)
Lemma auth_round_trip_witness :
  index 0 ":" "u" = None /\
  auth_t.from_string ("u" ++ ":" ++ "p") = Ok (auth_t.make "u" "p") /\
  auth_t.to_string (auth_t.make "u" "p") = "u:p".
Proof.
  split; [vm_compute; reflexivity|]. split.
  - apply (proj1 auth_round_trip). reflexivity.
  - apply (proj2 (proj2 (proj2 (proj2 auth_round_trip))) "u:p").
    reflexivity.
Defined.

(** C10 as stated fails: after a connection whose request has
    [throw_on_error] ended in RESOLVE_ERROR, [Send] throws, and constructs
    neither a fresh nor a reusing connection. *)
Lemma Send_after_error_throws :
  (exists last e, connection session_after_error = Some last /\
                  promise last = Some (exception e)) /\
  (exists e s', Send session_after_error = send_throws e s') /\
  ~ send_constructs session_after_error.
Proof.
  split; [eexists; eexists; split; vm_compute; reflexivity|].
  split; [eexists; eexists; vm_compute; reflexivity|].
  intros (s' & c & H & _). vm_compute in H. discriminate H.
Qed.

(** C10 as amended, at a session whose earlier connection succeeded and
    at a session whose earlier connection threw. *)
Lemma Send_fresh_or_reused_witness :
  (exists last r, connection session_after_success = Some last /\
                  promise last = Some (value r)) /\
  send_constructs session_after_success /\
  connection session_after_error = Some failed_connection /\
  promise failed_connection =
  Some (exception (Some (RESOLVE_ERROR, "error"))) /\
  (exists s',
     Send session_after_error =
     send_throws (Some (RESOLVE_ERROR, "error")) s' /\
     connection s' = Some failed_connection) /\
  ~ send_constructs session_after_error.
Proof.
  assert (H : exists last r, connection session_after_success = Some last /\
                             promise last = Some (value r))
    by (eexists; eexists; split; vm_compute; reflexivity).
  assert (C : connection session_after_error = Some failed_connection)
    by (vm_compute; reflexivity).
  assert (P : promise failed_connection =
              Some (exception (Some (RESOLVE_ERROR, "error"))))
    by (vm_compute; reflexivity).
  split; [exact H|].
  split; [apply (proj1 (Send_fresh_or_reused session_after_success));
          right; exact H|].
  split; [exact C|]. split; [exact P|].
  exact (proj2 (Send_fresh_or_reused session_after_error)
           failed_connection (Some (RESOLVE_ERROR, "error")) C P).
Defined.

(** ** Concrete inputs of the further properties *)

Lemma aborted_completion_ignored_witness :
  ec (failed operation_aborted) = operation_aborted /\
  handle h_on_resolve (failed operation_aborted) started_connection =
  started_connection.
Proof.
  split; [reflexivity|].
  exact (aborted_completion_ignored h_on_resolve (failed operation_aborted)
           started_connection eq_refl).
Defined.

Lemma io_error_states_witness :
  in_final_state started_connection = false /\
  promise started_connection = None /\
  ec_bool (other_error false) = true /\
  other_error false <> operation_aborted /\
  fails_with (on_resolve started_connection (other_error false))
    RESOLVE_ERROR (ec_message (other_error false)).
Proof.
  assert (F : in_final_state started_connection = false)
    by (vm_compute; reflexivity).
  assert (P : promise started_connection = None)
    by (vm_compute; reflexivity).
  assert (A : other_error false <> operation_aborted) by discriminate.
  split; [exact F|]. split; [exact P|]. split; [reflexivity|].
  split; [exact A|].
  exact (proj1 (io_error_states started_connection (other_error false)
                  (make_parse [] 0) F P eq_refl A)).
Defined.

Lemma future_carries_final_state_witness :
  constructed (conn_impl_new (get_request true 5 true)) /\
  promise (run (conn_impl_new (get_request true 5 true)) resolve_fails) =
  Some (exception (Some (RESOLVE_ERROR, "error"))) /\
  in_final_state
    (run (conn_impl_new (get_request true 5 true)) resolve_fails) = true /\
  exists msg,
    outcome_error (exception (Some (RESOLVE_ERROR, "error"))) =
    Some (state (run (conn_impl_new (get_request true 5 true)) resolve_fails),
          msg).
Proof.
  assert (C : constructed (conn_impl_new (get_request true 5 true)))
    by constructor.
  assert (P : promise (run (conn_impl_new (get_request true 5 true))
                         resolve_fails) =
              Some (exception (Some (RESOLVE_ERROR, "error"))))
    by (vm_compute; reflexivity).
  split; [exact C|]. split; [exact P|].
  pose proof (future_carries_final_state
                (conn_impl_new (get_request true 5 true)) resolve_fails C) as H.
  rewrite P in H. exact H.
Defined.

Lemma final_callback_sees_no_body_witness :
  constructed (conn_impl_new notified_request) /\
  In (op_final_callback
        (response_t.set_raw "" (future_response notified_connection)))
     (ops (run (conn_impl_new notified_request) answered)) /\
  response_t.raw (future_response notified_connection) = "x" /\
  response_t.raw
    (response_t.set_raw "" (future_response notified_connection)) = "".
Proof.
  assert (C : constructed (conn_impl_new notified_request)) by constructor.
  assert (I : In (op_final_callback
                    (response_t.set_raw ""
                       (future_response notified_connection)))
                 (ops (run (conn_impl_new notified_request) answered)))
    by (vm_compute; repeat (first [left; reflexivity | right])).
  split; [exact C|]. split; [exact I|]. split; [vm_compute; reflexivity|].
  exact (final_callback_sees_no_body (conn_impl_new notified_request) answered
           _ C I).
Defined.

Lemma success_delivers_body_witness :
  in_final_state body_parsed_connection = false /\
  promise body_parsed_connection = None /\
  is_redirect_code
    (response_t.status_code (response body_parsed_connection)) = false /\
  response_t.status_code (response body_parsed_connection) = 200 /\
  raw body_parsed_connection = "x" /\
  request_t.throw_on_error (request body_parsed_connection) = true /\
  dispatch body_awaited_connection body_arrives =
  set_success body_parsed_connection /\
  response_t.raw (future_response (set_success body_parsed_connection)) =
  "x" /\
  state (set_success body_parsed_connection) = SUCCESS /\
  promise (set_success body_parsed_connection) =
  Some (value (response_t.set_raw (raw body_parsed_connection)
                 (response_t.set_error (Some (SUCCESS, "success"))
                    (response body_parsed_connection)))) /\
  raw (set_success body_parsed_connection) = "".
Proof.
  assert (F : in_final_state body_parsed_connection = false)
    by (vm_compute; reflexivity).
  assert (P : promise body_parsed_connection = None)
    by (vm_compute; reflexivity).
  assert (R : is_redirect_code
                (response_t.status_code (response body_parsed_connection)) =
              false) by (vm_compute; reflexivity).
  split; [exact F|]. split; [exact P|]. split; [exact R|].
  split; [vm_compute; reflexivity|]. split; [vm_compute; reflexivity|].
  split; [vm_compute; reflexivity|]. split; [vm_compute; reflexivity|].
  split; [vm_compute; reflexivity|].
  exact (success_delivers_body body_parsed_connection F P R).
Defined.

Lemma read_content_choice_witness :
  dispatch (run (conn_impl_new (get_request true 5 false)) status_arrives)
    (ev_complete h_on_read_headers
       (headers_completion
          [("Content-Length", "5"); ("Transfer-Encoding", "chunked")] 5 "ab")) =
  read_content length_and_chunked_connection /\
  (in_final_state length_and_chunked_connection = false /\
   headers_count (response_t.headers (response length_and_chunked_connection))
     "Content-Length" <> 0 /\
   headers_contains
     (response_t.headers (response length_and_chunked_connection))
     "Transfer-Encoding" "chunked" = true /\
   read_content length_and_chunked_connection =
   read_content_length length_and_chunked_connection /\
   state (read_content length_and_chunked_connection) =
   READ_CONTENT_LENGTH) /\
  (in_final_state chunked_connection = false /\
   headers_count (response_t.headers (response chunked_connection))
     "Content-Length" = 0 /\
   headers_contains (response_t.headers (response chunked_connection))
     "Transfer-Encoding" "chunked" = true /\
   read_content chunked_connection = read_chunk_header chunked_connection /\
   state (read_content chunked_connection) = READ_CHUNK_HEADER) /\
  (in_final_state bare_connection = false /\
   headers_count (response_t.headers (response bare_connection))
     "Content-Length" = 0 /\
   headers_contains (response_t.headers (response bare_connection))
     "Transfer-Encoding" "chunked" = false /\
   state (read_content bare_connection) = READ_UNTIL_EOF /\
   ops (read_content bare_connection) =
   (ops bare_connection ++ [op_stream_async_read 1])%list).
Proof.
  split; [vm_compute; reflexivity|]. split; [|split].
  - assert (F : in_final_state length_and_chunked_connection = false)
      by (vm_compute; reflexivity).
    assert (L : headers_count
                  (response_t.headers (response length_and_chunked_connection))
                  "Content-Length" <> 0) by (vm_compute; discriminate).
    split; [exact F|]. split; [exact L|]. split; [vm_compute; reflexivity|].
    pose proof (read_content_choice length_and_chunked_connection F) as H.
    cbv zeta in H. destruct H as (H & _ & _). exact (H L).
  - assert (F : in_final_state chunked_connection = false)
      by (vm_compute; reflexivity).
    assert (L : headers_count
                  (response_t.headers (response chunked_connection))
                  "Content-Length" = 0) by (vm_compute; reflexivity).
    assert (T : headers_contains
                  (response_t.headers (response chunked_connection))
                  "Transfer-Encoding" "chunked" = true)
      by (vm_compute; reflexivity).
    split; [exact F|]. split; [exact L|]. split; [exact T|].
    pose proof (read_content_choice chunked_connection F) as H.
    cbv zeta in H. destruct H as (_ & H & _). exact (H L T).
  - assert (F : in_final_state bare_connection = false)
      by (vm_compute; reflexivity).
    assert (L : headers_count
                  (response_t.headers (response bare_connection))
                  "Content-Length" = 0) by (vm_compute; reflexivity).
    assert (T : headers_contains
                  (response_t.headers (response bare_connection))
                  "Transfer-Encoding" "chunked" = false)
      by (vm_compute; reflexivity).
    split; [exact F|]. split; [exact L|]. split; [exact T|].
    pose proof (read_content_choice bare_connection F) as H.
    cbv zeta in H. destruct H as (_ & _ & H). exact (H L T).
Defined.

Lemma read_content_length_asks_for_the_rest_witness :
  (content_length length_and_chunked_connection < size_max /\
   content_length length_and_chunked_connection = 5 /\
   response_buf length_and_chunked_connection = "ab" /\
   ops (read_content_length length_and_chunked_connection) =
   (ops length_and_chunked_connection ++ [op_stream_async_read 3])%list /\
   pending (read_content_length length_and_chunked_connection) =
   h_on_read_content_length :: pending length_and_chunked_connection) /\
  (content_length overfull_connection < size_max /\
   content_length overfull_connection = 1 /\
   response_buf overfull_connection = "abc" /\
   ops (read_content_length overfull_connection) =
   (ops overfull_connection ++ [op_stream_async_read 0])%list /\
   pending (read_content_length overfull_connection) =
   h_on_read_content_length :: pending overfull_connection).
Proof.
  split.
  - assert (M : content_length length_and_chunked_connection < size_max)
      by (vm_compute; reflexivity).
    assert (E : content_length length_and_chunked_connection -
                size (response_buf length_and_chunked_connection) = 3)
      by (vm_compute; reflexivity).
    split; [exact M|]. split; [vm_compute; reflexivity|].
    split; [vm_compute; reflexivity|].
    pose proof (read_content_length_asks_for_the_rest
                  length_and_chunked_connection M) as H.
    rewrite E in H. exact H.
  - assert (M : content_length overfull_connection < size_max)
      by (vm_compute; reflexivity).
    assert (E : content_length overfull_connection -
                size (response_buf overfull_connection) = 0)
      by (vm_compute; reflexivity).
    split; [exact M|]. split; [vm_compute; reflexivity|].
    split; [vm_compute; reflexivity|].
    pose proof (read_content_length_asks_for_the_rest
                  overfull_connection M) as H.
    rewrite E in H. exact H.
Defined.

Lemma empty_header_block_is_an_error_witness :
  in_final_state started_connection = false /\
  promise started_connection = None /\
  response_buf started_connection = "" /\
  is_eof eof = true /\
  fails_with (on_read_headers started_connection eof (make_parse [] 0))
    READ_HEADERS_ERROR "no headers".
Proof.
  assert (F : in_final_state started_connection = false)
    by (vm_compute; reflexivity).
  assert (P : promise started_connection = None)
    by (vm_compute; reflexivity).
  assert (B : response_buf started_connection = "")
    by (vm_compute; reflexivity).
  split; [exact F|]. split; [exact P|]. split; [exact B|].
  split; [reflexivity|].
  exact (empty_header_block_is_an_error started_connection eof
           (make_parse [] 0) F P B (or_intror eq_refl)).
Defined.

Lemma read_until_eof_policy_witness :
  in_final_state started_connection = false /\
  promise started_connection = None /\
  fails_with (on_read_until_eof started_connection eof (make_parse [] 0))
    READ_UNTIL_EOF_ERROR "until eof error".
Proof.
  assert (F : in_final_state started_connection = false)
    by (vm_compute; reflexivity).
  assert (P : promise started_connection = None)
    by (vm_compute; reflexivity).
  split; [exact F|]. split; [exact P|].
  destruct (read_until_eof_policy started_connection eof (make_parse [] 0) F P)
    as (_ & H & _).
  exact (H eq_refl eq_refl).
Defined.

Lemma chunked_end_of_file_witness :
  in_final_state started_connection = false /\
  promise started_connection = None /\
  is_eof eof = true /\
  on_read_chunk_header started_connection eof (make_parse [] 0) =
  set_success started_connection.
Proof.
  assert (F : in_final_state started_connection = false)
    by (vm_compute; reflexivity).
  assert (P : promise started_connection = None)
    by (vm_compute; reflexivity).
  split; [exact F|]. split; [exact P|]. split; [reflexivity|].
  exact (proj1 (chunked_end_of_file started_connection eof (make_parse [] 0)
                  F P eq_refl)).
Defined.

Lemma redirect_followed_witness :
  is_redirect_exhausted (response redirected_connection) = false /\
  headers_count (response_t.headers (response redirected_connection))
    "Location" <> 0 /\
  rcount (perform_redirect redirected_connection) =
  rcount redirected_connection + 1.
Proof.
  assert (X : is_redirect_exhausted (response redirected_connection) = false)
    by (vm_compute; reflexivity).
  assert (L : headers_count
                (response_t.headers (response redirected_connection))
                "Location" <> 0) by (vm_compute; discriminate).
  split; [exact X|]. split; [exact L|].
  pose proof (redirect_followed redirected_connection X L) as H.
  cbv zeta in H. destruct H as (_ & H & _). exact H.
Defined.

Lemma redirect_failures_witness :
  in_final_state misdirected_connection = false /\
  promise misdirected_connection = None /\
  is_redirect_code
    (response_t.status_code (response misdirected_connection)) = true /\
  request_t.redirect (request misdirected_connection) = true /\
  fails_with (set_success misdirected_connection) REDIRECT_ERROR
    "no Location.".
Proof.
  assert (F : in_final_state misdirected_connection = false)
    by (vm_compute; reflexivity).
  assert (P : promise misdirected_connection = None)
    by (vm_compute; reflexivity).
  assert (R : is_redirect_code
                (response_t.status_code (response misdirected_connection)) =
              true) by (vm_compute; reflexivity).
  assert (D : request_t.redirect (request misdirected_connection) = true)
    by (vm_compute; reflexivity).
  assert (X : rcount misdirected_connection < rcap misdirected_connection)
    by (vm_compute; reflexivity).
  assert (L : headers_count
                (response_t.headers (response misdirected_connection))
                "Location" = 0) by (vm_compute; reflexivity).
  split; [exact F|]. split; [exact P|]. split; [exact R|]. split; [exact D|].
  exact (proj2 (redirect_failures misdirected_connection F P R D) X L).
Defined.

Lemma cached_miss_skips_prepare_witness :
  connection marked_caching_session = Some marked_connection /\
  connection marked_session = Some marked_connection /\
  promise marked_connection =
  Some (value (future_response marked_connection)) /\
  request_t.cache_redirects (pending_request marked_caching_session) = true /\
  request_t.cache_redirects (pending_request marked_session) = false /\
  query (request_t.uri
           (@prepare marking_collaborators
              (pending_request marked_caching_session))) = "prepared" /\
  (exists s',
     @Send marking_collaborators marked_caching_session = sent s' /\
     query (request_t.uri (pending_request s')) = "") /\
  (exists s',
     @Send marking_collaborators marked_session = sent s' /\
     query (request_t.uri (pending_request s')) = "prepared").
Proof.
  assert (C1 : connection marked_caching_session = Some marked_connection)
    by (vm_compute; reflexivity).
  assert (C2 : connection marked_session = Some marked_connection)
    by (vm_compute; reflexivity).
  assert (P : promise marked_connection =
              Some (value (future_response marked_connection)))
    by (vm_compute; reflexivity).
  assert (B1 : request_t.cache_redirects
                 (pending_request marked_caching_session) = true)
    by (vm_compute; reflexivity).
  assert (B2 : request_t.cache_redirects (pending_request marked_session) =
               false) by (vm_compute; reflexivity).
  assert (M : @redirects_find marking_collaborators
                (response_t.redirects (future_response marked_connection))
                (pending_request marked_caching_session) = None)
    by (vm_compute; reflexivity).
  split; [exact C1|]. split; [exact C2|]. split; [exact P|].
  split; [exact B1|]. split; [exact B2|]. split; [vm_compute; reflexivity|].
  split.
  - destruct (proj2 (@cached_miss_skips_prepare marking_collaborators
                       marked_caching_session marked_connection
                       (future_response marked_connection) C1 P) B1 M)
      as (s' & E & [H|H]);
      exists s'; (split; [exact E|]); rewrite H; vm_compute; reflexivity.
  - destruct (proj1 (@cached_miss_skips_prepare marking_collaborators
                       marked_session marked_connection
                       (future_response marked_connection) C2 P) B2)
      as (s' & E & [H|H]);
      exists s'; (split; [exact E|]); rewrite H; vm_compute; reflexivity.
Defined.

Lemma session_stays_broken_witness :
  connection session_after_error = Some failed_connection /\
  promise failed_connection =
  Some (exception (Some (RESOLVE_ERROR, "error"))) /\
  exists s',
    Send_again 2 session_after_error =
    send_throws (Some (RESOLVE_ERROR, "error")) s' /\
    connection s' = Some failed_connection.
Proof.
  assert (C : connection session_after_error = Some failed_connection)
    by (vm_compute; reflexivity).
  assert (P : promise failed_connection =
              Some (exception (Some (RESOLVE_ERROR, "error"))))
    by (vm_compute; reflexivity).
  split; [exact C|]. split; [exact P|].
  exact (session_stays_broken 2 session_after_error failed_connection
           (Some (RESOLVE_ERROR, "error")) C P).
Defined.

Lemma Send_starts_connection_witness :
  Send first_session =
  sent (make_session (get_request true 5 false) (Some started_connection)) /\
  exists c,
    connection
      (make_session (get_request true 5 false) (Some started_connection)) =
    Some c /\
    promise c = None /\ is_pending h_on_timeout c = true.
Proof.
  assert (S : Send first_session =
              sent (make_session (get_request true 5 false)
                      (Some started_connection)))
    by (vm_compute; reflexivity).
  split; [exact S|].
  destruct (Send_starts_connection first_session _ S)
    as (c & H1 & _ & H3 & H4 & _).
  exists c. repeat split; assumption.
Defined.

Lemma final_callback_called_once_witness :
  constructed (conn_impl_new notified_request) /\
  count is_final_callback
    (ops (run (conn_impl_new notified_request) answered)) = 1%nat /\
  (count is_final_callback
     (ops (run (conn_impl_new notified_request) answered)) <= 1)%nat.
Proof.
  assert (C : constructed (conn_impl_new notified_request)) by constructor.
  split; [exact C|]. split; [vm_compute; reflexivity|].
  exact (proj1 (final_callback_called_once (conn_impl_new notified_request)
                  answered C)).
Defined.

Lemma protocol_steps_in_order_witness :
  in_final_state started_connection = false /\
  state (on_resolve started_connection no_error) = CONNECT /\
  ops (on_resolve started_connection no_error) =
  (ops started_connection ++ [op_stream_async_connect])%list.
Proof.
  assert (F : in_final_state started_connection = false)
    by (vm_compute; reflexivity).
  split; [exact F|].
  exact (proj1 (protocol_steps_in_order started_connection (make_parse [] 0)
                  F)).
Defined.

Lemma consume_crlf_takes_witness :
  consume_crlf (String CR "Xy") = (false, "y") /\
  exists taken,
    String CR "Xy" = taken ++ snd (consume_crlf (String CR "Xy")) /\
    String.length taken = 2%nat.
Proof.
  split; [reflexivity|].
  destruct (consume_crlf_takes (String CR "Xy"))
    as (_ & _ & taken & E & _ & _ & T).
  exists taken. split; [exact E|].
  apply (T "Xy"); [reflexivity|discriminate].
Defined.

Lemma read_buffer_length_witness :
  size "ab" < 3 /\
  fst (read_buffer "ab" 3) = "ab" ++ zeros (N.to_nat (3 - size "ab")) /\
  snd (read_buffer "ab" 3) = "".
Proof.
  assert (L : size "ab" < 3) by (vm_compute; reflexivity).
  split; [exact L|].
  exact (proj2 (proj2 (read_buffer_length "ab" 3)) L).
Defined.

Lemma timeout_outcome_witness :
  in_final_state started_connection = false /\
  promise started_connection = None /\
  fails_with (on_timeout started_connection no_error) TIMEOUT "timeout".
Proof.
  assert (F : in_final_state started_connection = false)
    by (vm_compute; reflexivity).
  assert (P : promise started_connection = None)
    by (vm_compute; reflexivity).
  split; [exact F|]. split; [exact P|].
  exact (proj1 (proj2 (timeout_outcome started_connection no_error)) F P).
Defined.

Lemma can_reuse_connection_equivalence_witness :
  can_reuse_connection (get_request true 5 false) caching_request = true /\
  can_reuse_connection caching_request (get_request false 1 true) = true /\
  can_reuse_connection (get_request true 5 false) (get_request false 1 true) =
  true.
Proof.
  assert (H1 : can_reuse_connection (get_request true 5 false)
                 caching_request = true) by (vm_compute; reflexivity).
  assert (H2 : can_reuse_connection caching_request
                 (get_request false 1 true) = true)
    by (vm_compute; reflexivity).
  split; [exact H1|]. split; [exact H2|].
  exact (proj2 (proj2 (proj2 (can_reuse_connection_equivalence
                                (get_request true 5 false) caching_request
                                (get_request false 1 true)))) H1 H2).
Defined.

Lemma session_never_expired_witness :
  constructed (conn_impl_new (get_request true 5 true)) /\
  connection session_after_error =
  Some (run (conn_impl_new (get_request true 5 true)) resolve_fails) /\
  session_is_expired session_after_error = false.
Proof.
  assert (C : constructed (conn_impl_new (get_request true 5 true)))
    by constructor.
  assert (E : connection session_after_error =
              Some (run (conn_impl_new (get_request true 5 true))
                      resolve_fails)) by (vm_compute; reflexivity).
  split; [exact C|]. split; [exact E|].
  exact (proj2 (session_never_expired session_after_error) _ _ C E).
Defined.
